(** * Receipt splitter: the receipt model and the Textract normalizer

    A shallow embedding of [receipt_splitter_app.py]: the data classes
    [ReceiptItem] and [Receipt] with their methods, the pure part of
    [ReceiptParser] ([parse_textract_response] and [_extract_price]), and
    what the handlers of [main] do to the session.

    Conventions of the embedding.
    - A method is a computation in a state-and-exception monad whose state
      is the object the method is called on ([self]); a Python exception
      is the result [Raise e], and the state reached so far is kept.
    - A Python [float] is an element of a [Number] structure.  Two
      structures are given: IEEE 754 binary64 (what CPython computes
      with) and the exact rationals (the arithmetic the rounding of
      binary64 approximates).
    - A Python [str] is a sequence of code points ([str]); what the
      interpreter's Unicode database says of a character beyond ASCII
      (decimal digit, white space) and which [sum] the interpreter has
      are parameters of the model ([Interpreter]).
    - A [dict] is an association list in insertion order, a [list] a
      list. *)

From Stdlib Require Import List Bool ZArith NArith Lia.
From Stdlib Require Import QArith Qcanon Field Permutation.
From Stdlib Require Import Floats.
From Stdlib.Strings Require Byte.
Import ListNotations.

Set Implicit Arguments.

(* Decimal float literals stand for the nearest binary64. *)
Set Warnings "-inexact-float".

(** ** Strings of Python

    A character is its code point, and a [str] a sequence of
    characters. *)

Definition char : Type := N.

Inductive str : Type :=
| EmptyString
| String (c : char) (s : str).

(** [c == d] *)
Definition char_eqb (c d : char) : bool := N.eqb c d.

Arguments char_eqb : simpl never.

(** [s == t] *)
Fixpoint str_eqb (s t : str) : bool :=
  match s, t with
  | EmptyString, EmptyString => true
  | String c s', String d t' => char_eqb c d && str_eqb s' t'
  | _, _ => false
  end.

(** [s + t] *)
Fixpoint str_append (s t : str) : str :=
  match s with
  | EmptyString => t
  | String c s' => String c (str_append s' t)
  end.

(** [len(s)] *)
Fixpoint str_length (s : str) : nat :=
  match s with
  | EmptyString => O
  | String _ s' => S (str_length s')
  end.

Fixpoint str_of_list (l : list char) : str :=
  match l with
  | [] => EmptyString
  | c :: l' => String c (str_of_list l')
  end.

Fixpoint list_of_str (s : str) : list char :=
  match s with
  | EmptyString => []
  | String c s' => c :: list_of_str s'
  end.

(** The literals of this file: a text between double quotes is the [str]
    of its characters, all of them ASCII, and one ASCII character between
    double quotes is that character. *)

Definition char_of_bytes (l : list Byte.byte) : option N :=
  match l with
  | [b] => if (Byte.to_N b <? 128)%N then Some (Byte.to_N b) else None
  | _ => None
  end.

Definition bytes_of_char (c : N) : option (list Byte.byte) :=
  if (32 <=? c)%N && (c <? 127)%N
  then option_map (fun b => [b]) (Byte.of_N c)
  else None.

Fixpoint str_of_bytes (l : list Byte.byte) : option str :=
  match l with
  | [] => Some EmptyString
  | b :: l' =>
      match char_of_bytes [b], str_of_bytes l' with
      | Some c, Some s => Some (String c s)
      | _, _ => None
      end
  end.

Fixpoint bytes_of_str (s : str) : option (list Byte.byte) :=
  match s with
  | EmptyString => Some []
  | String c s' =>
      match bytes_of_char c, bytes_of_str s' with
      | Some [b], Some l => Some (b :: l)
      | _, _ => None
      end
  end.

Declare Scope chr_scope.
Delimit Scope chr_scope with chr.
Bind Scope chr_scope with char.
String Notation N char_of_bytes bytes_of_char : chr_scope.

Declare Scope str_scope.
Delimit Scope str_scope with str.
Bind Scope str_scope with str.
String Notation str str_of_bytes bytes_of_str : str_scope.
Infix "++" := str_append (right associativity, at level 60) : str_scope.

(** ** The interpreter

    What the program takes from the interpreter and that changes with
    its version.
    - The Unicode database: [decimal_beyond_ascii c] is
      [unicodedata.decimal(c)] for a character [c] that is not ASCII,
      [None] when [c] is no decimal digit; [space_beyond_ascii c] is
      [c.isspace()] for such a character.  The ASCII characters are the
      same in every version.
    - The builtin [sum]: up to CPython 3.11 it adds floats from left to
      right; from CPython 3.12 on it adds them with Neumaier's
      compensation. *)
Class Interpreter : Type := {
  decimal_beyond_ascii : char -> option N;
  space_beyond_ascii : char -> bool;
  sum_compensates : bool
}.

(** The first characters of the runs of ten decimal digits 0..9 beyond
    ASCII in Unicode 14.0.0, the database of CPython 3.11. *)
Definition decimal_runs_14_0 : list N :=
  [ 0x660; 0x6f0; 0x7c0; 0x966; 0x9e6; 0xa66; 0xae6; 0xb66; 0xbe6; 0xc66;
    0xce6; 0xd66; 0xde6; 0xe50; 0xed0; 0xf20; 0x1040; 0x1090; 0x17e0;
    0x1810; 0x1946; 0x19d0; 0x1a80; 0x1a90; 0x1b50; 0x1bb0; 0x1c40;
    0x1c50; 0xa620; 0xa8d0; 0xa900; 0xa9d0; 0xa9f0; 0xaa50; 0xabf0;
    0xff10; 0x104a0; 0x10d30; 0x11066; 0x110f0; 0x11136; 0x111d0;
    0x112f0; 0x11450; 0x114d0; 0x11650; 0x116c0; 0x11730; 0x118e0;
    0x11950; 0x11c50; 0x11d50; 0x11da0; 0x16a60; 0x16ac0; 0x16b50;
    0x1d7ce; 0x1d7d8; 0x1d7e2; 0x1d7ec; 0x1d7f6; 0x1e140; 0x1e2f0;
    0x1e950; 0x1fbf0 ]%N.

(** The white space beyond ASCII in Unicode 14.0.0. *)
Definition spaces_14_0 : list N :=
  [ 0x85; 0xa0; 0x1680; 0x2000; 0x2001; 0x2002; 0x2003; 0x2004; 0x2005;
    0x2006; 0x2007; 0x2008; 0x2009; 0x200a; 0x2028; 0x2029; 0x202f;
    0x205f; 0x3000 ]%N.

Definition decimal_in_runs (runs : list N) (c : char) : option N :=
  match find (fun b => (b <=? c)%N && (c <? b + 10)%N) runs with
  | Some b => Some (c - b)%N
  | None => None
  end.

(** CPython 3.11. *)
Definition cpython_3_11 : Interpreter :=
  {| decimal_beyond_ascii := decimal_in_runs decimal_runs_14_0;
     space_beyond_ascii := fun c => existsb (N.eqb c) spaces_14_0;
     sum_compensates := false |}.

(** CPython 3.11 with the [sum] of CPython 3.12. *)
Definition cpython_3_12_sum : Interpreter :=
  {| decimal_beyond_ascii := decimal_in_runs decimal_runs_14_0;
     space_beyond_ascii := fun c => existsb (N.eqb c) spaces_14_0;
     sum_compensates := true |}.

(** ** Exceptions and the method monad *)

Inductive exn : Type :=
| ZeroDivisionError
| KeyError
| ValueError.

Inductive result (X : Type) : Type :=
| Ok (x : X)
| Raise (e : exn).

Arguments Ok {X} x.
Arguments Raise {X} e.

Definition rbind {X Y : Type} (r : result X) (k : X -> result Y) : result Y :=
  match r with
  | Ok x => k x
  | Raise e => Raise e
  end.

(** [try: r except ValueError: h] *)
Definition except_ValueError {X : Type} (r : result X) (h : result X)
  : result X :=
  match r with
  | Raise ValueError => h
  | _ => r
  end.

Definition M (S X : Type) : Type := S -> result X * S.

Definition ret {S X : Type} (x : X) : M S X := fun s => (Ok x, s).

Definition bind {S X Y : Type} (m : M S X) (k : X -> M S Y) : M S Y :=
  fun s =>
    match m s with
    | (Ok x, s') => k x s'
    | (Raise e, s') => (Raise e, s')
    end.

Definition get {S : Type} : M S S := fun s => (Ok s, s).
Definition put {S : Type} (s : S) : M S unit := fun _ => (Ok tt, s).
Definition lift {S X : Type} (r : result X) : M S X := fun s => (r, s).

Definition eval {S X : Type} (m : M S X) (s : S) : result X := fst (m s).
Definition exec {S X : Type} (m : M S X) (s : S) : S := snd (m s).

Declare Scope py_scope.
Delimit Scope py_scope with py.
Notation "x <- m ;; k" := (bind m (fun x => k))
  (at level 100, m at next level, right associativity) : py_scope.
Notation "m ;; k" := (bind m (fun _ => k))
  (at level 100, right associativity) : py_scope.
Notation "x <~ r ;; k" := (rbind r (fun x => k))
  (at level 100, r at next level, right associativity) : py_scope.

(** [for x in l: acc = body acc x], stopping at the first exception. *)
Fixpoint for_each {S X D : Type} (l : list X) (body : D -> X -> M S D) (d : D)
  : M S D :=
  match l with
  | [] => ret d
  | x :: l' => bind (body d x) (fun d' => for_each l' body d')
  end.

(** ** Numbers *)

(** What the program asks of its numbers.  [div] is the quotient for a
    non-zero divisor; the test for a zero divisor is [truediv]'s.
    [of_int] is the conversion of an [int] operand, [of_decimal neg m k]
    the value [float] gives the literal of sign [neg], digits [m] and [k]
    digits after the point, that is (-1)^neg * m / 10^k.  The three laws
    are the ones the control flow of the program relies on: a number
    above zero is not equal to zero, and the length of a non-empty list
    is not zero either. *)
Class Number (A : Type) : Type := {
  zero : A;
  add : A -> A -> A;
  mul : A -> A -> A;
  div : A -> A -> A;
  eqb : A -> A -> bool;
  ltb : A -> A -> bool;
  of_int : Z -> A;
  of_decimal : bool -> N -> nat -> A;
  pos_not_zero : forall x, ltb zero x = true -> eqb x zero = false;
  zero_not_pos : forall x, eqb x zero = true -> ltb zero x = false;
  of_int_pos_not_zero : forall p, eqb (of_int (Zpos p)) zero = false
}.

(** [x / y] of Python: a zero divisor raises. *)
Definition truediv {A : Type} `{Number A} (x y : A) : result A :=
  if eqb y zero then Raise ZeroDivisionError else Ok (div x y).

(** The elements added from left to right to the [int] 0: the builtin
    [sum] up to CPython 3.11. *)
Definition py_sum {A : Type} `{Number A} (l : list A) : A :=
  fold_left add l (of_int 0).

Section Compensated_sum.

Context {A : Type} `{Number A}.

(** [x - y], [-x], [fabs(x)] and [x >= y] in the operations of
    [Number]: a difference is the sum with the opposite, which is the
    product by -1, and [>=] is [>] or [==] (false on a NaN). *)
Definition sub (x y : A) : A := add x (mul (of_int (-1)) y).
Definition fabs (x : A) : A := if ltb x zero then mul (of_int (-1)) x else x.
Definition geb (x y : A) : bool := ltb y x || eqb x y.

(** [c && Py_IS_FINITE(c)]: [c - c] is 0.0 for a finite [c] and NaN for
    an infinity or a NaN. *)
Definition finite_and_not_zero (c : A) : bool :=
  negb (eqb c zero) && eqb (sub c c) zero.

(** The loop of [sum] over floats in CPython 3.12 and later
    ([bltinmodule.c]), with the running sum [f_result] and the
    compensation [c]:
      t = f_result + x;
      if (fabs(f_result) >= fabs(x)) c += (f_result - t) + x;
      else c += (x - t) + f_result;
      f_result = t;
    and, when the items are exhausted,
      if (c && Py_IS_FINITE(c)) f_result += c;
      return f_result; *)
Fixpoint neumaier (f_result c : A) (l : list A) : A :=
  match l with
  | [] => if finite_and_not_zero c then add f_result c else f_result
  | x :: l' =>
      let t := add f_result x in
      neumaier t
        (add c
           (if geb (fabs f_result) (fabs x)
            then add (sub f_result t) x
            else add (sub x t) f_result))
        l'
  end.

(** [sum] of CPython 3.12 and later on floats: the first float is added
    to the [int] 0, and the loop above takes over from there. *)
Definition sum_compensated (l : list A) : A :=
  match l with
  | [] => of_int 0
  | x :: l' => neumaier (add (of_int 0) x) zero l'
  end.

(** The builtin [sum] of the interpreter, on floats. *)
Definition builtin_sum `{Interpreter} (l : list A) : A :=
  if sum_compensates then sum_compensated l else py_sum l.

End Compensated_sum.

(** ** Lists and dictionaries of Python *)

(** [x in l] *)
Definition list_contains (x : str) (l : list str) : bool :=
  existsb (str_eqb x) l.

(** [l.remove(x)]: the first occurrence goes; [ValueError] without one. *)
Fixpoint list_remove (x : str) (l : list str) : result (list str) :=
  match l with
  | [] => Raise ValueError
  | y :: l' =>
      if str_eqb x y then Ok l'
      else rbind (list_remove x l') (fun r => Ok (y :: r))
  end.

(** [l] without the first occurrence of [x]. *)
Fixpoint remove_first (x : str) (l : list str) : list str :=
  match l with
  | [] => []
  | y :: l' => if str_eqb x y then l' else y :: remove_first x l'
  end.

Definition dict (V : Type) : Type := list (str * V).

(** [k in d] *)
Fixpoint dict_contains {V : Type} (k : str) (d : dict V) : bool :=
  match d with
  | [] => false
  | (k', _) :: d' => if str_eqb k k' then true else dict_contains k d'
  end.

(** [d[k]] *)
Fixpoint dict_getitem {V : Type} (k : str) (d : dict V) : result V :=
  match d with
  | [] => Raise KeyError
  | (k', v) :: d' => if str_eqb k k' then Ok v else dict_getitem k d'
  end.

(** [d[k] = v]: a present key keeps its place, a new one goes last. *)
Fixpoint dict_setitem {V : Type} (k : str) (v : V) (d : dict V) : dict V :=
  match d with
  | [] => [(k, v)]
  | (k', v') :: d' =>
      if str_eqb k k' then (k', v) :: d' else (k', v') :: dict_setitem k v d'
  end.

Definition keys {V : Type} (d : dict V) : list str := map fst d.
Definition values {V : Type} (d : dict V) : list V := map snd d.

(** ** The receipt model *)

Section Model.

Context {A : Type} `{Number A}.

Local Open Scope py_scope.

Record ReceiptItem : Type := {
  name : str;
  price : A;
  quantity : Z;
  assigned_to : list str
}.

(** [ReceiptItem(name=.., price=.., quantity=..)]: [assigned_to] starts
    empty; [quantity] defaults to 1. *)
Definition new_ReceiptItem (n : str) (p : A) (q : option Z) : ReceiptItem :=
  {| name := n;
     price := p;
     quantity := match q with Some z => z | None => 1%Z end;
     assigned_to := [] |}.

Definition set_assigned_to (l : list str) (self : ReceiptItem)
  : ReceiptItem :=
  {| name := name self;
     price := price self;
     quantity := quantity self;
     assigned_to := l |}.

Definition assign_to (person : str) : M ReceiptItem unit :=
  self <- get ;;
  if negb (list_contains person (assigned_to self)) then
    put (set_assigned_to (assigned_to self ++ [person]) self)
  else ret tt.

Definition unassign_from (person : str) : M ReceiptItem unit :=
  self <- get ;;
  if list_contains person (assigned_to self) then
    l <- lift (list_remove person (assigned_to self)) ;;
    put (set_assigned_to l self)
  else ret tt.

Definition price_per_person : M ReceiptItem A :=
  self <- get ;;
  match assigned_to self with
  | [] => ret zero
  | _ :: _ =>
      lift (truediv (price self)
              (of_int (Z.of_nat (List.length (assigned_to self)))))
  end.

Record Receipt : Type := {
  items : list ReceiptItem;
  date : str;
  restaurant_name : str;
  subtotal : A;
  tax : A;
  tip : A
}.

(** [Receipt()] *)
Definition new_Receipt : Receipt :=
  {| items := [];
     date := EmptyString;
     restaurant_name := EmptyString;
     subtotal := zero;
     tax := zero;
     tip := zero |}.

Definition set_items (l : list ReceiptItem) (self : Receipt) : Receipt :=
  {| items := l;
     date := date self;
     restaurant_name := restaurant_name self;
     subtotal := subtotal self;
     tax := tax self;
     tip := tip self |}.

Definition set_date (v : str) (self : Receipt) : Receipt :=
  {| items := items self;
     date := v;
     restaurant_name := restaurant_name self;
     subtotal := subtotal self;
     tax := tax self;
     tip := tip self |}.

Definition set_restaurant_name (v : str) (self : Receipt) : Receipt :=
  {| items := items self;
     date := date self;
     restaurant_name := v;
     subtotal := subtotal self;
     tax := tax self;
     tip := tip self |}.

Definition set_subtotal (v : A) (self : Receipt) : Receipt :=
  {| items := items self;
     date := date self;
     restaurant_name := restaurant_name self;
     subtotal := v;
     tax := tax self;
     tip := tip self |}.

Definition set_tax (v : A) (self : Receipt) : Receipt :=
  {| items := items self;
     date := date self;
     restaurant_name := restaurant_name self;
     subtotal := subtotal self;
     tax := v;
     tip := tip self |}.

Definition total : M Receipt A :=
  self <- get ;;
  ret (add (add (subtotal self) (tax self)) (tip self)).

Definition add_item (item : ReceiptItem) : M Receipt unit :=
  self <- get ;;
  put (set_items (items self ++ [item]) self).

(** [for item in self.items: acc = body acc] where [body] runs with
    [item] as its object: the items are visited in order and each is left
    in the list as [body] leaves it. *)
Fixpoint visit_items {D : Type} (body : D -> M ReceiptItem D) (d : D)
    (l : list ReceiptItem) : result D * list ReceiptItem :=
  match l with
  | [] => (Ok d, [])
  | item :: l' =>
      match body d item with
      | (Ok d', item') =>
          let (r, l'') := visit_items body d' l' in (r, item' :: l'')
      | (Raise e, item') => (Raise e, item' :: l')
      end
  end.

Definition for_items {D : Type} (body : D -> M ReceiptItem D) (d : D)
  : M Receipt D :=
  fun self =>
    let (r, l) := visit_items body d (items self) in (r, set_items l self).

(** The body of the inner loop of [get_person_totals], with the item as
    its object:
      if person not in person_totals: person_totals[person] = 0.0
      person_totals[person] += item.price_per_person() *)
Definition add_share (person_totals : dict A) (person : str)
  : M ReceiptItem (dict A) :=
  let person_totals :=
    if negb (dict_contains person person_totals)
    then dict_setitem person zero person_totals
    else person_totals in
  old <- lift (dict_getitem person person_totals) ;;
  share <- price_per_person ;;
  ret (dict_setitem person (add old share) person_totals).

(** The body of the second loop:
      person_subtotal_percentage = person_totals[person] / self.subtotal
      person_totals[person] +=
          (self.tax + self.tip) * person_subtotal_percentage *)
Definition add_surcharge (person_totals : dict A) (person : str)
  : M Receipt (dict A) :=
  self <- get ;;
  base <- lift (dict_getitem person person_totals) ;;
  person_subtotal_percentage <- lift (truediv base (subtotal self)) ;;
  old <- lift (dict_getitem person person_totals) ;;
  ret (dict_setitem person
         (add old (mul (add (tax self) (tip self)) person_subtotal_percentage))
         person_totals).

Definition get_person_totals : M Receipt (dict A) :=
  person_totals <-
    for_items
      (fun person_totals =>
         self <- get ;;
         for_each (assigned_to self) add_share person_totals)
      [] ;;
  self <- get ;;
  if ltb zero (subtotal self) then
    for_each (keys person_totals) add_surcharge person_totals
  else ret person_totals.

End Model.

Arguments ReceiptItem A : clear implicits.
Arguments Receipt A : clear implicits.

(** ** Text: [re.sub], [float] and [int] *)

Section Digits.

Context `{Interpreter}.

(** [unicodedata.decimal(c)]: the value of [c] as a decimal digit, if it
    is one.  The decimal digits of ASCII are [0] to [9]. *)
Definition decimal (c : char) : option N :=
  if (c <? 128)%N then
    if (48 <=? c)%N && (c <=? 57)%N then Some (c - 48)%N else None
  else decimal_beyond_ascii c.

(** [\d] of [re] on a [str]: a decimal digit of Unicode. *)
Definition is_digit (c : char) : bool :=
  match decimal c with
  | Some _ => true
  | None => false
  end.

(** The digit [float] and [int] read in a decimal digit. *)
Definition digit_value (c : char) : N :=
  match decimal c with
  | Some d => d
  | None => 0%N
  end.

(** [[^\d\.\-]] is the complement of [price_char], [[^\d]] of [is_digit]. *)
Definition price_char (c : char) : bool :=
  is_digit c || char_eqb c "." || char_eqb c "-".

End Digits.

Arguments is_digit : simpl never.
Arguments digit_value : simpl never.
Arguments price_char : simpl never.

(** [re.sub('[^...]', '', text)]: the characters of the class are kept,
    every other one is dropped. *)
Fixpoint re_sub_keep (keep : char -> bool) (text : str) : str :=
  match text with
  | EmptyString => EmptyString
  | String c rest =>
      if keep c then String c (re_sub_keep keep rest) else re_sub_keep keep rest
  end.

Definition is_empty (s : str) : bool :=
  match s with
  | EmptyString => true
  | String _ _ => false
  end.

Fixpoint all_digits `{Interpreter} (s : str) : bool :=
  match s with
  | EmptyString => true
  | String c rest => is_digit c && all_digits rest
  end.

(** The number a string of digits denotes, most significant digit first. *)
Fixpoint digits_value `{Interpreter} (acc : N) (s : str) : N :=
  match s with
  | EmptyString => acc
  | String c rest => digits_value (10 * acc + digit_value c)%N rest
  end.

(** The text before the first point, and the text after it when there is
    a point. *)
Fixpoint split_point (s : str) : str * option str :=
  match s with
  | EmptyString => (EmptyString, None)
  | String c rest =>
      if char_eqb c "." then (EmptyString, Some rest)
      else let (a, b) := split_point rest in (String c a, b)
  end.

Section Text.

Context {A : Type} `{Number A} `{Interpreter}.

(** [float(s)] for a string [s] of decimal digits, points and minus
    signs, the only strings the program passes: an optional minus sign,
    then digits with at most one point among them and at least one
    digit, each digit read as its decimal value; anything else raises
    [ValueError].  (On other strings [float] also accepts blanks, a plus
    sign, an exponent, underscores, [inf] and [nan].) *)
Definition py_float (s : str) : result A :=
  let (neg, body) :=
    match s with
    | String c rest => if char_eqb c "-" then (true, rest) else (false, s)
    | EmptyString => (false, s)
    end in
  let (int_part, after) := split_point body in
  let frac_part := match after with Some f => f | None => EmptyString end in
  if all_digits int_part && all_digits frac_part
     && negb (is_empty int_part && is_empty frac_part)
  then Ok (of_decimal neg
             (digits_value 0 (int_part ++ frac_part))
             (str_length frac_part))
  else Raise ValueError.

(** [sys.int_max_str_digits]: from CPython 3.11 on, [int] refuses a text
    of more digits with [ValueError] ([Some n], 4300 unless configured);
    [None] is no limit. *)
Variable int_max_str_digits : option nat.

(** [int(s)] for a string [s] of digits, the only strings the program
    passes. *)
Definition py_int (s : str) : result Z :=
  if all_digits s && negb (is_empty s)
     && match int_max_str_digits with
        | Some n => (str_length s <=? n)%nat
        | None => true
        end
  then Ok (Z.of_N (digits_value 0 s))
  else Raise ValueError.

(** ** The normalizer: [ReceiptParser] *)

Local Open Scope py_scope.
Local Open Scope str_scope.

(** The part of an [analyze_expense] response the parser reads.  A key
    that may be absent is an [option]; [Type_Text f] is
    [f.get('Type', {}).get('Text')] and [ValueDetection_Text f] is
    [f.get('ValueDetection', {}).get('Text')]. *)
Record ExpenseField : Type := {
  Type_Text : option str;
  ValueDetection_Text : option str
}.

Record LineItem : Type := {
  LineItemExpenseFields : option (list ExpenseField)
}.

Record LineItemGroup : Type := {
  LineItems : option (list LineItem)
}.

Record ExpenseDocument : Type := {
  SummaryFields : option (list ExpenseField);
  LineItemGroups : option (list LineItemGroup)
}.

Record Response : Type := {
  ExpenseDocuments : option (list ExpenseDocument)
}.

(** [field.get('Type', {}).get('Text') == tag] *)
Definition type_is (field : ExpenseField) (tag : str) : bool :=
  match Type_Text field with
  | Some t => str_eqb t tag
  | None => false
  end.

(** [field.get('ValueDetection', {}).get('Text', default)] *)
Definition value_text (field : ExpenseField) (default : str) : str :=
  match ValueDetection_Text field with
  | Some t => t
  | None => default
  end.

Definition _extract_price (text : str) : result A :=
  if is_empty text then Ok zero
  else
    let cleaned_text := re_sub_keep price_char text in
    except_ValueError (py_float cleaned_text) (Ok zero).

(** Lines 140-143:
      try: item_quantity = int(re.sub(r'[^\d]', '', qty_text) or 1)
      except ValueError: item_quantity = 1 *)
Definition parse_quantity (qty_text : str) : result Z :=
  except_ValueError
    (let digits := re_sub_keep is_digit qty_text in
     if is_empty digits then Ok 1%Z else py_int digits)
    (Ok 1%Z).

(** One turn of the loop over [doc['SummaryFields']]. *)
Definition scan_summary_field (field : ExpenseField) : M (Receipt A) unit :=
  if type_is field "VENDOR_NAME" then
    receipt <- get ;;
    put (set_restaurant_name (value_text field "") receipt)
  else if type_is field "RECEIPT_DATE" then
    receipt <- get ;;
    put (set_date (value_text field "") receipt)
  else if type_is field "SUBTOTAL" then
    let subtotal_text := value_text field "0.0" in
    v <- lift (_extract_price subtotal_text) ;;
    receipt <- get ;;
    put (set_subtotal v receipt)
  else if type_is field "TAX" then
    let tax_text := value_text field "0.0" in
    v <- lift (_extract_price tax_text) ;;
    receipt <- get ;;
    put (set_tax v receipt)
  else ret tt.

(** The local variables of the loop over the line items. *)
Record line_vars : Type := {
  item_name : str;
  item_price : A;
  item_quantity : Z
}.

Definition line_vars_init : line_vars :=
  {| item_name := ""; item_price := zero; item_quantity := 1 |}.

(** One turn of the loop over [line_item['LineItemExpenseFields']]. *)
Definition scan_line_field (vars : line_vars) (field : ExpenseField)
  : M (Receipt A) line_vars :=
  if type_is field "ITEM" then
    ret {| item_name := value_text field "";
           item_price := item_price vars;
           item_quantity := item_quantity vars |}
  else if type_is field "PRICE" then
    let price_text := value_text field "0.0" in
    v <- lift (_extract_price price_text) ;;
    ret {| item_name := item_name vars;
           item_price := v;
           item_quantity := item_quantity vars |}
  else if type_is field "QUANTITY" then
    let qty_text := value_text field "1" in
    q <- lift (parse_quantity qty_text) ;;
    ret {| item_name := item_name vars;
           item_price := item_price vars;
           item_quantity := q |}
  else ret vars.

(** One turn of the loop over [group['LineItems']]. *)
Definition parse_line_item (line_item : LineItem) : M (Receipt A) unit :=
  vars <-
    match LineItemExpenseFields line_item with
    | Some fields => for_each fields scan_line_field line_vars_init
    | None => ret line_vars_init
    end ;;
  if negb (is_empty (item_name vars)) && ltb zero (item_price vars) then
    add_item (new_ReceiptItem (item_name vars) (item_price vars)
                (Some (item_quantity vars)))
  else ret tt.

Definition parse_group (group : LineItemGroup) : M (Receipt A) unit :=
  match LineItems group with
  | Some line_items =>
      for_each line_items (fun _ line_item => parse_line_item line_item) tt
  | None => ret tt
  end.

(** One turn of the loop over [response['ExpenseDocuments']]. *)
Definition parse_document (doc : ExpenseDocument) : M (Receipt A) unit :=
  match SummaryFields doc with
  | Some fields => for_each fields (fun _ field => scan_summary_field field) tt
  | None => ret tt
  end ;;
  match LineItemGroups doc with
  | Some groups => for_each groups (fun _ group => parse_group group) tt
  | None => ret tt
  end.

(** Lines 106-150, on the receipt under construction. *)
Definition parse_documents (response : Response) : M (Receipt A) unit :=
  match ExpenseDocuments response with
  | Some docs => for_each docs (fun _ doc => parse_document doc) tt
  | None => ret tt
  end.

(** Lines 152-154. *)
Definition subtotal_fallback : M (Receipt A) unit :=
  receipt <- get ;;
  if eqb (subtotal receipt) zero
     && negb match items receipt with [] => true | _ :: _ => false end
  then
    put (set_subtotal (builtin_sum (map (@price A) (items receipt))) receipt)
  else ret tt.

Definition parse_textract_response (response : Response) : result (Receipt A) :=
  let (r, receipt) :=
    (parse_documents response ;; subtotal_fallback) new_Receipt in
  _ <~ r ;; Ok receipt.

End Text.

(** ** What the methods compute: closed forms *)

Section Closed_forms.

Context {A : Type} `{Number A}.

(** The value of [price_per_person]. *)
Definition share (item : ReceiptItem A) : A :=
  match assigned_to item with
  | [] => zero
  | _ :: _ =>
      div (price item) (of_int (Z.of_nat (List.length (assigned_to item))))
  end.

(** What one turn of the inner loop of [get_person_totals] does to the
    dictionary, for an item whose share is [x]. *)
Definition credit (x : A) (d : dict A) (person : str) : dict A :=
  match dict_getitem person d with
  | Ok old => dict_setitem person (add old x) d
  | Raise _ => dict_setitem person (add zero x) d
  end.

(** The dictionary after the first loop. *)
Definition base_totals (l : list (ReceiptItem A)) (d : dict A) : dict A :=
  fold_left
    (fun d item => fold_left (credit (share item)) (assigned_to item) d) l d.

(** A base amount with its part of tax and tip. *)
Definition with_surcharge (r : Receipt A) (base : A) : A :=
  add base (mul (add (tax r) (tip r)) (div base (subtotal r))).

(** What one turn of the second loop does to the dictionary. *)
Definition surcharge (r : Receipt A) (d : dict A) (person : str) : dict A :=
  match dict_getitem person d with
  | Ok base => dict_setitem person (with_surcharge r base) d
  | Raise _ => d
  end.

(** The dictionary [get_person_totals] returns. *)
Definition person_totals (r : Receipt A) : dict A :=
  let d := base_totals (items r) [] in
  if ltb zero (subtotal r) then fold_left (surcharge r) (keys d) d else d.

(** The specification of the base shares.  [participants l] are the
    persons assigned to an item of [l], in the order of their first
    assignment; [shares_of p l] are the shares [p] is charged, one for
    each assignment of [p], in the order of the items; the base share is
    their sum, from 0.0, in that order. *)
Fixpoint dedup (seen : list str) (l : list str) : list str :=
  match l with
  | [] => []
  | p :: l' =>
      if list_contains p seen then dedup seen l'
      else p :: dedup (seen ++ [p]) l'
  end.

Definition participants (l : list (ReceiptItem A)) : list str :=
  dedup [] (flat_map (@assigned_to A) l).

Definition shares_of (p : str) (l : list (ReceiptItem A)) : list A :=
  flat_map
    (fun item =>
       map (fun _ => share item) (filter (str_eqb p) (assigned_to item)))
    l.

Definition base_share (p : str) (l : list (ReceiptItem A)) : A :=
  fold_left add (shares_of p l) zero.

Definition base_shares (l : list (ReceiptItem A)) : dict A :=
  map (fun p => (p, base_share p l)) (participants l).

(** The assignments of a list of items, each with the share it charges,
    in the order the first loop meets them. *)
Definition charges (l : list (ReceiptItem A)) : list (str * A) :=
  flat_map (fun item => map (fun p => (p, share item)) (assigned_to item)) l.

Definition accumulate (c : list (str * A)) (d : dict A) : dict A :=
  fold_left (fun d px => credit (snd px) d (fst px)) c d.

Definition charged (q : str) (c : list (str * A)) : list A :=
  map snd (filter (fun px => str_eqb q (fst px)) c).

Definition value_or_zero (q : str) (d : dict A) : A :=
  match dict_getitem q d with
  | Ok v => v
  | Raise _ => zero
  end.

End Closed_forms.

Definition opt_list {X : Type} (o : option (list X)) : list X :=
  match o with
  | Some l => l
  | None => []
  end.

Section Parser_closed_forms.

Context {A : Type} `{Number A} `{Interpreter}.
Variable int_max_str_digits : option nat.

Local Open Scope str_scope.
Local Open Scope list_scope.

(** The value of [_extract_price]. *)
Definition price_of_text (text : str) : A :=
  match py_float (re_sub_keep price_char text) with
  | Ok v => v
  | Raise _ => zero
  end.

(** The value of the quantity parsing. *)
Definition quantity_of_text (qty_text : str) : Z :=
  let digits := re_sub_keep is_digit qty_text in
  if is_empty digits then 1%Z
  else
    match int_max_str_digits with
    | Some n =>
        if (str_length digits <=? n)%nat
        then Z.of_N (digits_value 0 digits) else 1%Z
    | None => Z.of_N (digits_value 0 digits)
    end.

(** The receipt after one summary field. *)
Definition summary_step (r : Receipt A) (field : ExpenseField) : Receipt A :=
  if type_is field "VENDOR_NAME" then
    set_restaurant_name (value_text field "") r
  else if type_is field "RECEIPT_DATE" then set_date (value_text field "") r
  else if type_is field "SUBTOTAL" then
    set_subtotal (price_of_text (value_text field "0.0")) r
  else if type_is field "TAX" then
    set_tax (price_of_text (value_text field "0.0")) r
  else r.

(** The local variables after one field of a line item. *)
Definition line_step (vars : line_vars) (field : ExpenseField) : line_vars :=
  if type_is field "ITEM" then
    {| item_name := value_text field "";
       item_price := item_price vars;
       item_quantity := item_quantity vars |}
  else if type_is field "PRICE" then
    {| item_name := item_name vars;
       item_price := price_of_text (value_text field "0.0");
       item_quantity := item_quantity vars |}
  else if type_is field "QUANTITY" then
    {| item_name := item_name vars;
       item_price := item_price vars;
       item_quantity := quantity_of_text (value_text field "1") |}
  else vars.

(** The parsed name, price and quantity of a line item. *)
Definition scanned (line_item : LineItem) : line_vars :=
  fold_left line_step (opt_list (LineItemExpenseFields line_item))
    line_vars_init.

(** The test of line 145: [item_name and item_price > 0]. *)
Definition accepted (vars : line_vars) : bool :=
  negb (is_empty (item_name vars)) && ltb zero (item_price vars).

Definition item_of (vars : line_vars) : ReceiptItem A :=
  new_ReceiptItem (item_name vars) (item_price vars)
    (Some (item_quantity vars)).

(** The items a list of line items adds to a receipt, in order. *)
Definition kept (l : list LineItem) : list (ReceiptItem A) :=
  map item_of (filter accepted (map scanned l)).

Definition line_item_step (r : Receipt A) (line_item : LineItem) : Receipt A :=
  if accepted (scanned line_item)
  then set_items (items r ++ [item_of (scanned line_item)]) r
  else r.

Definition group_step (r : Receipt A) (group : LineItemGroup) : Receipt A :=
  fold_left line_item_step (opt_list (LineItems group)) r.

Definition document_step (r : Receipt A) (doc : ExpenseDocument) : Receipt A :=
  fold_left group_step (opt_list (LineItemGroups doc))
    (fold_left summary_step (opt_list (SummaryFields doc)) r).

(** The line items of a response, in the order the parser visits them. *)
Definition line_items_of (response : Response) : list LineItem :=
  flat_map
    (fun doc =>
       flat_map (fun group => opt_list (LineItems group))
         (opt_list (LineItemGroups doc)))
    (opt_list (ExpenseDocuments response)).

(** The receipt when all the documents are processed, before the
    fallback for the subtotal. *)
Definition documents_receipt (response : Response) : Receipt A :=
  exec (parse_documents int_max_str_digits response) new_Receipt.

End Parser_closed_forms.

(** ** The two number structures: operations

    The exact rationals, in canonical form so that equal numbers are
    equal terms, and IEEE 754 binary64, the floats of CPython, as the
    Standard Library specifies them ([SpecFloat], the specification of
    the primitive floats): sums, products and quotients are rounded to
    nearest, ties to even, and so are the conversions of integers and of
    decimal literals. *)

Definition Qc_ltb (x y : Qc) : bool :=
  match (x ?= y)%Qc with
  | Lt => true
  | _ => false
  end.

Definition Qc_of_decimal (neg : bool) (m : N) (k : nat) : Qc :=
  let q :=
    (Q2Qc (inject_Z (Z.of_N m)) / Q2Qc (inject_Z (10 ^ Z.of_nat k)))%Qc in
  if neg then (- q)%Qc else q.

(** The binary64 nearest to (-1)^neg * m / 10^k: the quotient of the two
    integers, rounded once. *)
Definition b64_of_decimal (neg : bool) (m : N) (k : nat) : spec_float :=
  match m with
  | N0 => S754_zero neg
  | Npos p =>
      let '(q, e, l) :=
        SFdiv_core_binary prec emax (Zpos p) 0%Z (10 ^ Z.of_nat k)%Z 0%Z in
      binary_round_aux prec emax neg q e l
  end.

(** The binary64 nearest to the integer [z].  (An integer too large for
    a float becomes infinity here, where CPython raises [OverflowError];
    no list is that long.) *)
Definition b64_of_int (z : Z) : spec_float :=
  binary_normalize prec emax z 0%Z false.

Definition SF_is_zero (x : spec_float) : bool :=
  match x with
  | S754_zero _ => true
  | _ => false
  end.

(** ** Concrete receipts and responses *)

Local Open Scope str_scope.

(** One field of a response, with its type tag and its text. *)
Definition tagged (tag text : str) : ExpenseField :=
  {| Type_Text := Some tag; ValueDetection_Text := Some text |}.

(** A response of one document with one line item: a tea at $2.50 whose
    quantity reads "0". *)
Definition zero_quantity_response : Response :=
  {| ExpenseDocuments :=
       Some
         [ {| SummaryFields := Some [tagged "VENDOR_NAME" "Cafe"];
              LineItemGroups :=
                Some
                  [ {| LineItems :=
                         Some
                           [ {| LineItemExpenseFields :=
                                  Some
                                    [ tagged "ITEM" "Tea";
                                      tagged "PRICE" "$2.50";
                                      tagged "QUANTITY" "0" ] |} ] |} ] |} ] |}.

(** The receipt of the test data, with the subtotal the prices add up to
    and a tip, in exact arithmetic. *)
Definition lunch : Receipt Qc :=
  {| items :=
       [ {| name := "Burger"; price := Q2Qc 12.99; quantity := 1;
            assigned_to := ["Alice"] |};
         {| name := "Pizza"; price := Q2Qc 15.50; quantity := 1;
            assigned_to := ["Alice"; "Bob"] |};
         {| name := "Salad"; price := Q2Qc 8.99; quantity := 1;
            assigned_to := ["Bob"] |} ];
     date := "2025-03-06";
     restaurant_name := "Test Restaurant";
     subtotal := Q2Qc 37.48;
     tax := Q2Qc 3.60;
     tip := Q2Qc 5 |}.

(** The same items on a receipt whose subtotal is 0.0 and whose tax and
    tip are not, in binary64. *)
Definition unpriced_lunch : Receipt spec_float :=
  {| items :=
       [ {| name := "Burger"; price := Prim2SF 12.99; quantity := 1;
            assigned_to := ["Alice"] |};
         {| name := "Pizza"; price := Prim2SF 15.50; quantity := 1;
            assigned_to := ["Alice"; "Bob"] |};
         {| name := "Salad"; price := Prim2SF 8.99; quantity := 1;
            assigned_to := ["Bob"] |};
         {| name := "Drink"; price := Prim2SF 3.99; quantity := 2;
            assigned_to := [] |} ];
     date := "2025-03-06";
     restaurant_name := "Test Restaurant";
     subtotal := Prim2SF 0;
     tax := Prim2SF 3.60;
     tip := Prim2SF 5 |}.

(** The receipt of the test data in binary64, with the subtotal the
    parser computes from the prices of these items, and a tip. *)
Definition lunch_binary64 : Receipt spec_float :=
  {| items :=
       [ {| name := "Burger"; price := Prim2SF 12.99; quantity := 1;
            assigned_to := ["Alice"] |};
         {| name := "Pizza"; price := Prim2SF 15.50; quantity := 1;
            assigned_to := ["Alice"; "Bob"] |};
         {| name := "Salad"; price := Prim2SF 8.99; quantity := 1;
            assigned_to := ["Bob"] |} ];
     date := "2025-03-06";
     restaurant_name := "Test Restaurant";
     subtotal := Prim2SF 37.480000000000004;
     tax := Prim2SF 3.60;
     tip := Prim2SF 5 |}.



(** A response with two sound line items and three that are noise: a
    price of zero, an empty name, a negative price. *)
Definition noisy_response : Response :=
  {| ExpenseDocuments :=
       Some
         [ {| SummaryFields := Some [tagged "TAX" "$0.54"];
              LineItemGroups :=
                Some
                  [ {| LineItems :=
                         Some
                           [ {| LineItemExpenseFields :=
                                  Some
                                    [ tagged "ITEM" "Tea";
                                      tagged "PRICE" "$2.50" ] |};
                             {| LineItemExpenseFields :=
                                  Some
                                    [ tagged "ITEM" "Cake";
                                      tagged "PRICE" "$0.00" ] |};
                             {| LineItemExpenseFields :=
                                  Some
                                    [ tagged "ITEM" "";
                                      tagged "PRICE" "$3.00" ] |};
                             {| LineItemExpenseFields :=
                                  Some
                                    [ tagged "ITEM" "Refund";
                                      tagged "PRICE" "-5.00" ] |};
                             {| LineItemExpenseFields :=
                                  Some
                                    [ tagged "ITEM" "Pie";
                                      tagged "PRICE" "4.25";
                                      tagged "QUANTITY" "2x" ] |} ] |} ] |} ] |}.

Local Close Scope str_scope.

(** ** The handlers of [main]

    What the buttons and check boxes of the four steps do to the session:
    the list [st.session_state.people] and the receipt.  A handler is a
    computation on the part of the session it touches. *)

(** [s.split(",")] *)
Fixpoint split_comma (s : str) : list str :=
  match s with
  | EmptyString => [EmptyString]
  | String c rest =>
      if char_eqb c ","
      then EmptyString :: split_comma rest
      else
        match split_comma rest with
        | piece :: pieces => String c piece :: pieces
        | [] => [String c EmptyString]
        end
  end.

(** [c.isspace()]: the white space of ASCII is the characters 9 to 13
    and 28 to 32. *)
Definition is_space `{Interpreter} (c : char) : bool :=
  if (c <? 128)%N then
    ((9 <=? c)%N && (c <=? 13)%N) || ((28 <=? c)%N && (c <=? 32)%N)
  else space_beyond_ascii c.

Arguments is_space : simpl never.

Fixpoint lstrip `{Interpreter} (s : str) : str :=
  match s with
  | EmptyString => EmptyString
  | String c rest => if is_space c then lstrip rest else s
  end.

Fixpoint rstrip `{Interpreter} (s : str) : str :=
  match s with
  | EmptyString => EmptyString
  | String c rest =>
      if is_space c && is_empty (rstrip rest) then EmptyString
      else String c (rstrip rest)
  end.

(** [s.strip()] *)
Definition strip `{Interpreter} (s : str) : str := rstrip (lstrip s).

(** [l.pop(i)] for an index [i >= 0]: the element and the list without
    it, [None] for the [IndexError] of an index out of range. *)
Fixpoint list_pop (i : nat) (l : list str) : option (str * list str) :=
  match l, i with
  | [], _ => None
  | x :: l', O => Some (x, l')
  | x :: l', S i' =>
      match list_pop i' l' with
      | Some (y, l'') => Some (y, x :: l'')
      | None => None
      end
  end.

Section People.

Context `{Interpreter}.

Local Open Scope py_scope.

(** Lines 392-395, the button "Add":
      if new_person and new_person not in st.session_state.people:
          st.session_state.people.append(new_person) *)
Definition add_person (new_person : str) : M (list str) unit :=
  people <- get ;;
  if negb (is_empty new_person) && negb (list_contains new_person people)
  then put (people ++ [new_person])
  else ret tt.

(** Line 402:
      [p.strip() for p in people_text.split(",") if p.strip()] *)
Definition new_people (people_text : str) : list str :=
  map strip
    (filter (fun p => negb (is_empty (strip p))) (split_comma people_text)).

(** Lines 400-406, the button "Add All":
      if people_text:
          new_people = ...
          for person in new_people:
              if person not in st.session_state.people:
                  st.session_state.people.append(person) *)
Definition add_all_people (people_text : str) : M (list str) unit :=
  if negb (is_empty people_text) then
    for_each (new_people people_text)
      (fun _ person =>
         people <- get ;;
         if negb (list_contains person people)
         then put (people ++ [person])
         else ret tt)
      tt
  else ret tt.

(** Line 382, the button beside the [i]-th person:
      st.session_state.people.pop(i) *)
Definition remove_person (i : nat) (people : list str)
  : option (list str) :=
  match list_pop i people with
  | Some (_, people') => Some people'
  | None => None
  end.

End People.

Section Assignment_handlers.

Context {A : Type} `{Number A}.

Local Open Scope py_scope.

(** Lines 475-477, the button "Assign All Unassigned Items":
      for item in receipt.items:
          if not item.assigned_to:
              item.assign_to(person_to_assign) *)
Definition assign_all_unassigned (person_to_assign : str)
  : M (Receipt A) unit :=
  for_items
    (fun _ =>
       self <- get ;;
       match assigned_to self with
       | [] => assign_to person_to_assign
       | _ :: _ => ret tt
       end)
    tt.

(** Lines 482-484, the button "Assign All Items to Everyone":
      for item in receipt.items:
          for person in people:
              item.assign_to(person) *)
Definition assign_all_to_everyone (people : list str) : M (Receipt A) unit :=
  for_items
    (fun _ => for_each people (fun _ person => assign_to person) tt)
    tt.

(** Lines 454-462, the check boxes of one item, with the item as the
    object: [checkbox j] is what [st.checkbox] returns for the [j]-th
    person, the state of the box.
      for j, person in enumerate(people):
          is_assigned = person in item.assigned_to
          if st.checkbox(person, value=is_assigned, key=...):
              if person not in item.assigned_to:
                  item.assign_to(person)
          else:
              if person in item.assigned_to:
                  item.unassign_from(person) *)
Definition apply_checkboxes (people : list str) (checkbox : nat -> bool)
  : M (ReceiptItem A) unit :=
  _ <- for_each people
         (fun j person =>
            self <- get ;;
            (if checkbox j then
               if negb (list_contains person (assigned_to self))
               then assign_to person
               else ret tt
             else
               if list_contains person (assigned_to self)
               then unassign_from person
               else ret tt) ;;
            ret (S j))
         O ;;
  ret tt.

(** Lines 450-462, the check boxes of all the items: [checkbox i j] is
    the state of the box of the [i]-th item and the [j]-th person. *)
Definition apply_all_checkboxes (people : list str)
    (checkbox : nat -> nat -> bool) : M (Receipt A) unit :=
  _ <- for_items
         (fun i => _ <- apply_checkboxes people (checkbox i) ;; ret (S i))
         O ;;
  ret tt.

End Assignment_handlers.

(** The truth value of [item.assigned_to]: the item is assigned to
    someone. *)
Definition is_assigned {A : Type} (item : ReceiptItem A) : bool :=
  match assigned_to item with
  | [] => false
  | _ :: _ => true
  end.

(** ** More closed forms of the normalizer *)

(** The last field of a list that carries the type tag [tag], if any. *)
Definition last_tagged (tag : str) (fields : list ExpenseField)
  : option ExpenseField :=
  fold_left (fun found field => if type_is field tag then Some field else found)
    fields None.

(** The summary fields of a response, in the order the parser visits
    them. *)
Definition summary_fields_of (response : Response) : list ExpenseField :=
  flat_map (fun doc => opt_list (SummaryFields doc))
    (opt_list (ExpenseDocuments response)).

(** Whether a text starts with a minus sign. *)
Definition has_sign (s : str) : bool :=
  match s with
  | String c _ => char_eqb c "-"
  | EmptyString => false
  end.

(** The text after the first point of a text, empty when there is no
    point. *)
Definition fraction (s : str) : str :=
  match snd (split_point s) with
  | Some f => f
  | None => EmptyString
  end.

(** ** Closed forms of the handlers *)

(** The list [assign_to(p)] leaves in [assigned_to]. *)
Definition assigned_with (p : str) (l : list str) : list str :=
  if list_contains p l then l else l ++ [p].

(** The list the loop [for person in people: item.assign_to(person)]
    leaves in [assigned_to]. *)
Definition assigned_with_all (people l : list str) : list str :=
  fold_left (fun l p => assigned_with p l) people l.

(** The list the check boxes of one item leave in [assigned_to]: the
    box of the [j]-th person, ticked, assigns the person if need be,
    and, not ticked, removes the person if need be. *)
Fixpoint boxes_applied (checkbox : nat -> bool) (j : nat)
    (people l : list str) : list str :=
  match people with
  | [] => l
  | person :: rest =>
      boxes_applied checkbox (S j) rest
        (if checkbox j then assigned_with person l else remove_first person l)
  end.

(** [f] applied to each element with its index, counted from [i]. *)
Fixpoint map_indexed {X Y : Type} (f : nat -> X -> Y) (i : nat) (l : list X)
  : list Y :=
  match l with
  | [] => []
  | x :: l' => f i x :: map_indexed f (S i) l'
  end.

(** ** The session of [main]

    Streamlit runs [main] again after each action of the user, with the
    session [st.session_state] kept from one run to the next.  What a
    run does to the session is the work of the handlers: the bodies of
    the [if st.button(...)] and the code around the other widgets.  An
    [event] is one handler with what its widgets return; [handle] is the
    handler under the tests [main] puts in front of it (the step of the
    session, a receipt being there, the list of people not being
    empty). *)

Module session_state.

(** The keys [receipt], [people] and [current_step] of
    [st.session_state].  (The keys [parser] and [mock_mode] have no
    bearing on them.) *)
Record t (A : Type) : Type := {
  receipt : option (Receipt A);
  people : list str;
  current_step : Z
}.

End session_state.

Section Main.

Context {A : Type} `{Number A} `{Interpreter}.
Variable int_max_str_digits : option nat.

Import session_state.

Local Open Scope py_scope.
Local Open Scope str_scope.
Local Open Scope Z_scope.

Definition set_receipt (v : option (Receipt A)) (s : session_state.t A)
  : session_state.t A :=
  {| receipt := v; people := people s; current_step := current_step s |}.

Definition set_people (v : list str) (s : session_state.t A)
  : session_state.t A :=
  {| receipt := receipt s; people := v; current_step := current_step s |}.

Definition set_current_step (v : Z) (s : session_state.t A)
  : session_state.t A :=
  {| receipt := receipt s; people := people s; current_step := v |}.

Definition set_tip (v : A) (self : Receipt A) : Receipt A :=
  {| items := items self;
     date := date self;
     restaurant_name := restaurant_name self;
     subtotal := subtotal self;
     tax := tax self;
     tip := v |}.

(** Lines 208-213: the session at the first run, and at the run that
    follows [st.session_state.clear()]. *)
Definition new_session : session_state.t A :=
  {| receipt := None; people := []; current_step := 1 |}.

(** Lines 195-196. *)
Definition set_step (step_number : Z) : M (session_state.t A) unit :=
  s <- get ;;
  put (set_current_step step_number s).

(** Lines 172-191.  A float literal is the number [float] reads in
    it. *)
Definition create_mock_receipt : result (Receipt A) :=
  let receipt :=
    set_tax (of_decimal false 360 2)
      (set_subtotal (of_decimal false 4500 2)
         (set_date "2025-03-06"
            (set_restaurant_name "Test Restaurant" new_Receipt))) in
  let items :=
    [ new_ReceiptItem "Burger" (of_decimal false 1299 2) (Some 1);
      new_ReceiptItem "Pizza" (of_decimal false 1550 2) (Some 1);
      new_ReceiptItem "Salad" (of_decimal false 899 2) (Some 1);
      new_ReceiptItem "Drink" (of_decimal false 399 2) (Some 2) ] in
  match for_each items (fun _ item => add_item item) tt receipt with
  | (Ok _, receipt') => Ok receipt'
  | (Raise e, _) => Raise e
  end.

(** [receipt = st.session_state.receipt] followed by code [m] that works
    on this object, when there is a receipt; the callers test it. *)
Definition on_receipt (m : M (Receipt A) unit) : M (session_state.t A) unit :=
  fun s =>
    match receipt s with
    | Some r => let (res, r') := m r in (res, set_receipt (Some r') s)
    | None => (Ok tt, s)
    end.

(** Code [m] that works on the list [st.session_state.people]. *)
Definition on_people (m : M (list str) unit) : M (session_state.t A) unit :=
  fun s => let (res, l) := m (people s) in (res, set_people l s).

(** The handlers of [main], each with the values of its widgets. *)
Inductive event : Type :=
| nav (i : Z)
| load_test_data
| scan_receipt (response : Response)
| update_receipt_details (new_restaurant new_date : str)
    (new_subtotal new_tax : A)
| add_item_manually (new_item_name : str) (new_item_price : A)
    (new_item_quantity : Z)
| continue_to_people
| go_back_to_upload_receipt
| remove_button (i : nat)
| add_person_button (new_person : str)
| add_all (people_text : str)
| back_to_receipt
| continue_to_assign
| go_back_to_add_people
| tip_percentage (tip_value : A)
| tip_amount (tip_value : A)
| check_boxes (checkbox : nat -> nat -> bool)
| assign_all_unassigned_items (person_to_assign : str)
| assign_all_items_to_everyone
| back_to_people
| continue_to_summary
| yes_continue_anyway
| start_over
| back_to_assign
| reset_app.

(** Lines 234-249, the sidebar. *)
Definition sidebar (e : event) : M (session_state.t A) unit :=
  s <- get ;;
  match e with
  | nav i =>
      (* for i, step in enumerate(steps, 1):
             if i <= max(st.session_state.current_step, 1): *)
      if (1 <=? i) && (i <=? 4) && (i <=? Z.max (current_step s) 1)
      then set_step i
      else ret tt
  | load_test_data =>
      match create_mock_receipt with
      | Ok receipt => put (set_receipt (Some receipt) s)
      | Raise e => lift (Raise e)
      end
  | _ => ret tt
  end.

(** Lines 254-360, step 1. *)
Definition step_1 (e : event) : M (session_state.t A) unit :=
  s <- get ;;
  match e with
  | scan_receipt response =>
      (* lines 282-306: [response] is what [scan_receipt] returned; an
         exception is caught and leaves the session as it is *)
      match parse_textract_response int_max_str_digits response with
      | Ok receipt => put (set_receipt (Some receipt) s)
      | Raise _ => ret tt
      end
  | update_receipt_details new_restaurant new_date new_subtotal new_tax =>
      (* lines 323-327 *)
      on_receipt
        (receipt <- get ;;
         put (set_tax new_tax
                (set_subtotal new_subtotal
                   (set_date new_date
                      (set_restaurant_name new_restaurant receipt)))))
  | add_item_manually new_item_name new_item_price new_item_quantity =>
      (* lines 337-342 *)
      on_receipt
        (if negb (is_empty new_item_name) && ltb zero new_item_price
         then add_item
                (new_ReceiptItem new_item_name new_item_price
                   (Some new_item_quantity))
         else ret tt)
  | continue_to_people =>
      (* lines 358-360, under the test of line 310 *)
      match receipt s with
      | Some _ => set_step 2
      | None => ret tt
      end
  | _ => ret tt
  end.

(** Lines 363-420, step 2. *)
Definition step_2 (e : event) : M (session_state.t A) unit :=
  s <- get ;;
  match receipt s with
  | None =>
      match e with
      | go_back_to_upload_receipt => set_step 1
      | _ => ret tt
      end
  | Some _ =>
      match e with
      | remove_button i =>
          (* lines 374-383: a button for each index of the list *)
          match remove_person i (people s) with
          | Some people' => put (set_people people' s)
          | None => ret tt
          end
      | add_person_button new_person => on_people (add_person new_person)
      | add_all people_text => on_people (add_all_people people_text)
      | back_to_receipt => set_step 1
      | continue_to_assign =>
          match people s with
          | _ :: _ => set_step 3
          | [] => ret tt
          end
      | _ => ret tt
      end
  end.

(** Lines 423-504, step 3. *)
Definition step_3 (e : event) : M (session_state.t A) unit :=
  s <- get ;;
  match receipt s, people s with
  | Some receipt, _ :: _ =>
      match e with
      | tip_percentage tip_value =>
          (* line 441 *)
          on_receipt
            (receipt <- get ;;
             rate <- lift (truediv tip_value (of_int 100)) ;;
             put (set_tip (mul (subtotal receipt) rate) receipt))
      | tip_amount tip_value =>
          (* line 443 *)
          on_receipt (receipt <- get ;; put (set_tip tip_value receipt))
      | check_boxes checkbox =>
          on_receipt (apply_all_checkboxes (people s) checkbox)
      | assign_all_unassigned_items person_to_assign =>
          on_receipt (assign_all_unassigned person_to_assign)
      | assign_all_items_to_everyone =>
          on_receipt (assign_all_to_everyone (people s))
      | back_to_people => set_step 2
      | continue_to_summary =>
          (* lines 494-504 *)
          match filter (fun item => negb (is_assigned item)) (items receipt)
          with
          | _ :: _ => ret tt
          | [] => set_step 4
          end
      | yes_continue_anyway =>
          match filter (fun item => negb (is_assigned item)) (items receipt)
          with
          | _ :: _ => set_step 4
          | [] => ret tt
          end
      | _ => ret tt
      end
  | _, _ =>
      match e with
      | go_back_to_add_people => set_step 2
      | _ => ret tt
      end
  end.

(** Lines 507-605, step 4. *)
Definition step_4 (e : event) : M (session_state.t A) unit :=
  s <- get ;;
  match receipt s with
  | None =>
      match e with
      | start_over => put new_session
      | _ => ret tt
      end
  | Some _ =>
      match e with
      | back_to_assign => set_step 3
      | reset_app => put new_session
      | _ => ret tt
      end
  end.

(** One handler of [main]: the sidebar, then the step of the session. *)
Definition handle (e : event) : M (session_state.t A) unit :=
  match e with
  | nav _ | load_test_data => sidebar e
  | _ =>
      s <- get ;;
      if current_step s =? 1 then step_1 e
      else if current_step s =? 2 then step_2 e
      else if current_step s =? 3 then step_3 e
      else if current_step s =? 4 then step_4 e
      else ret tt
  end.

(** A session: the handlers of a list of events, from a new session. *)
Definition session (events : list event) : M (session_state.t A) unit :=
  for_each events (fun _ e => handle e) tt.

(** What every session keeps true, see [session_invariant]. *)
Definition well_formed_item (item : ReceiptItem A) : Prop :=
  NoDup (assigned_to item) /\ is_empty (name item) = false.

Definition well_formed (s : session_state.t A) : Prop :=
  1 <= current_step s <= 4
  /\ (2 <= current_step s -> receipt s <> None)
  /\ (3 <= current_step s -> people s <> [])
  /\ NoDup (people s)
  /\ ~ In "" (people s)
  /\ forall r : Receipt A,
       receipt s = Some r -> Forall well_formed_item (items r).

(** A piece of code on the receipt that keeps the items well formed. *)
Definition keeps_items (m : M (Receipt A) unit) : Prop :=
  forall r : Receipt A,
    Forall well_formed_item (items r) ->
    exists r' : Receipt A,
      m r = (Ok tt, r') /\ Forall well_formed_item (items r').

End Main.

(** ** Data for the handlers *)

Local Open Scope str_scope.

(** The pizza of the test data, shared by two. *)
Definition pizza : ReceiptItem Qc :=
  {| name := "Pizza"; price := Q2Qc 15.50; quantity := 1;
     assigned_to := ["Alice"; "Bob"] |}.

(** The receipt [lunch] with its items in the opposite order. *)
Definition lunch_reversed : Receipt Qc := set_items (rev (items lunch)) lunch.

(** The receipt [lunch] before anything is assigned. *)
Definition new_lunch : Receipt Qc :=
  set_items (map (set_assigned_to []) (items lunch)) lunch.

(** Check boxes: the first person has the first item, the second person
    the second item, and so on. *)
Definition diagonal (i j : nat) : bool := Nat.eqb i j.

Local Close Scope str_scope.

(** ** Strings *)

Lemma char_eqb_eq (c d : char) : char_eqb c d = true <-> c = d.
Proof. apply N.eqb_eq. Qed.

Lemma char_eqb_refl (c : char) : char_eqb c c = true.
Proof. apply N.eqb_refl. Qed.

Lemma str_eqb_eq (s t : str) : str_eqb s t = true <-> s = t.
Proof.
  revert t. induction s as [|c s IH]; intros [|d t]; simpl;
    try (split; [discriminate|discriminate]); [tauto|].
  rewrite andb_true_iff, char_eqb_eq, IH. split.
  - now intros [-> ->].
  - intros E. now injection E.
Qed.

Lemma str_eqb_refl (s : str) : str_eqb s s = true.
Proof. now apply str_eqb_eq. Qed.

Lemma str_eqb_neq (s t : str) : str_eqb s t = false <-> s <> t.
Proof.
  rewrite <- str_eqb_eq. destruct (str_eqb s t); split; congruence.
Qed.

Lemma str_eq_dec (s t : str) : {s = t} + {s <> t}.
Proof.
  destruct (str_eqb s t) eqn:E.
  - left. now apply str_eqb_eq.
  - right. now apply str_eqb_neq.
Qed.

(** ** Dictionaries *)

Section Dict_facts.

Context {V : Type}.

Lemma dict_contains_keys (k : str) (d : dict V) :
  dict_contains k d = list_contains k (keys d).
Proof.
  induction d as [|[k' v] d IH]; simpl; auto.
  destruct (str_eqb k k'); simpl; auto.
Qed.

Lemma dict_getitem_contains (k : str) (d : dict V) :
  dict_contains k d = true -> exists v, dict_getitem k d = Ok v.
Proof.
  induction d as [|[k' v] d IH]; simpl; [discriminate|].
  destruct (str_eqb k k'); eauto.
Qed.

Lemma dict_getitem_absent (k : str) (d : dict V) :
  dict_contains k d = false -> dict_getitem k d = Raise KeyError.
Proof.
  induction d as [|[k' v] d IH]; simpl; auto.
  destruct (str_eqb k k'); [discriminate|auto].
Qed.

Lemma dict_getitem_Ok_contains (k : str) (d : dict V) (v : V) :
  dict_getitem k d = Ok v -> dict_contains k d = true.
Proof.
  destruct (dict_contains k d) eqn:E; auto.
  rewrite dict_getitem_absent by assumption. discriminate.
Qed.

Lemma dict_getitem_setitem_same (k : str) (v : V) (d : dict V) :
  dict_getitem k (dict_setitem k v d) = Ok v.
Proof.
  induction d as [|[k' v'] d IH]; simpl.
  - now rewrite str_eqb_refl.
  - destruct (str_eqb k k') eqn:E; simpl; rewrite E; auto.
Qed.

Lemma dict_getitem_setitem_other (k k' : str) (v : V) (d : dict V) :
  str_eqb k' k = false ->
  dict_getitem k' (dict_setitem k v d) = dict_getitem k' d.
Proof.
  intros Hk. induction d as [|[k0 v0] d IH]; simpl.
  - now rewrite Hk.
  - destruct (str_eqb k k0) eqn:E; simpl.
    + apply str_eqb_eq in E. subst k0. now rewrite Hk.
    + now rewrite IH.
Qed.

Lemma dict_setitem_setitem (k : str) (v v' : V) (d : dict V) :
  dict_setitem k v' (dict_setitem k v d) = dict_setitem k v' d.
Proof.
  induction d as [|[k0 v0] d IH]; simpl.
  - now rewrite str_eqb_refl.
  - destruct (str_eqb k k0) eqn:E; simpl; rewrite E; auto.
    now rewrite IH.
Qed.

Lemma dict_setitem_absent (k : str) (v : V) (d : dict V) :
  dict_contains k d = false -> dict_setitem k v d = d ++ [(k, v)].
Proof.
  induction d as [|[k0 v0] d IH]; simpl; auto.
  destruct (str_eqb k k0); [discriminate|].
  intros E. now rewrite IH.
Qed.

Lemma keys_setitem_present (k : str) (v : V) (d : dict V) :
  dict_contains k d = true -> keys (dict_setitem k v d) = keys d.
Proof.
  induction d as [|[k0 v0] d IH]; simpl; [discriminate|].
  destruct (str_eqb k k0) eqn:E; simpl; auto.
  intros Hc. now rewrite IH.
Qed.

Lemma dict_contains_setitem (k k' : str) (v : V) (d : dict V) :
  dict_contains k' (dict_setitem k v d) = str_eqb k' k || dict_contains k' d.
Proof.
  induction d as [|[k0 v0] d IH]; simpl.
  - now destruct (str_eqb k' k).
  - destruct (str_eqb k k0) eqn:E; simpl.
    + apply str_eqb_eq in E. subst k0.
      now destruct (str_eqb k' k).
    + rewrite IH. destruct (str_eqb k' k0); auto using orb_true_r.
Qed.

End Dict_facts.

(** ** The methods run to their closed forms *)

Section Runs.

Context {A : Type} `{Number A}.

Lemma truediv_by_length (x : A) (p : str) (l : list str) :
  truediv x (of_int (Z.of_nat (List.length (p :: l))))
  = Ok (div x (of_int (Z.of_nat (List.length (p :: l))))).
Proof.
  unfold truediv.
  change (List.length (p :: l)) with (S (List.length l)).
  rewrite Nat2Z.inj_succ.
  destruct (Z.succ (Z.of_nat (List.length l))) eqn:E; try lia.
  now rewrite of_int_pos_not_zero.
Qed.

Lemma price_per_person_run (item : ReceiptItem A) :
  price_per_person item = (Ok (share item), item).
Proof.
  unfold price_per_person, share, bind, get, ret, lift.
  destruct (assigned_to item) as [|p l] eqn:E; [reflexivity|].
  now rewrite truediv_by_length.
Qed.

Lemma add_share_run (d : dict A) (p : str) (item : ReceiptItem A) :
  add_share d p item = (Ok (credit (share item) d p), item).
Proof.
  unfold add_share, credit, bind, lift, ret.
  destruct (dict_contains p d) eqn:E; simpl.
  - destruct (dict_getitem_contains p d E) as [old Hold].
    rewrite Hold, price_per_person_run. reflexivity.
  - rewrite dict_getitem_setitem_same, price_per_person_run.
    rewrite (dict_getitem_absent p d E), dict_setitem_setitem. reflexivity.
Qed.

Lemma for_each_add_share (l : list str) (d : dict A) (item : ReceiptItem A) :
  for_each l add_share d item
  = (Ok (fold_left (credit (share item)) l d), item).
Proof.
  revert d. induction l as [|p l IH]; intros d; simpl; [reflexivity|].
  unfold bind. rewrite add_share_run. apply IH.
Qed.

Lemma visit_items_run (l : list (ReceiptItem A)) (d : dict A) :
  visit_items
    (fun d => bind get (fun self => for_each (assigned_to self) add_share d))
    d l
  = (Ok (base_totals l d), l).
Proof.
  revert d. induction l as [|item l IH]; intros d; simpl; [reflexivity|].
  unfold bind at 1, get at 1.
  rewrite for_each_add_share, IH. reflexivity.
Qed.

Lemma set_items_same (r : Receipt A) : set_items (items r) r = r.
Proof. now destruct r. Qed.

Lemma add_surcharge_run (r : Receipt A) (d : dict A) (p : str) :
  ltb zero (subtotal r) = true ->
  dict_contains p d = true ->
  add_surcharge d p r = (Ok (surcharge r d p), r).
Proof.
  intros Hpos Hin.
  destruct (dict_getitem_contains p d Hin) as [base Hbase].
  unfold add_surcharge, surcharge, with_surcharge.
  unfold bind, get, lift, ret, truediv.
  rewrite Hbase, (pos_not_zero _ Hpos). reflexivity.
Qed.

Lemma surcharge_contains (r : Receipt A) (d : dict A) (p q : str) :
  dict_contains q (surcharge r d p) = dict_contains q d.
Proof.
  unfold surcharge.
  destruct (dict_getitem p d) as [base|e] eqn:E; [|reflexivity].
  rewrite dict_contains_setitem.
  destruct (str_eqb q p) eqn:Eq; [|reflexivity].
  apply str_eqb_eq in Eq. subst q.
  simpl. symmetry. eapply dict_getitem_Ok_contains; eauto.
Qed.

Lemma for_each_add_surcharge (r : Receipt A) (l : list str) (d : dict A) :
  ltb zero (subtotal r) = true ->
  (forall p, In p l -> dict_contains p d = true) ->
  for_each l add_surcharge d r = (Ok (fold_left (surcharge r) l d), r).
Proof.
  intros Hpos. revert d.
  induction l as [|p l IH]; intros d Hin; simpl; [reflexivity|].
  unfold bind. rewrite add_surcharge_run by (auto; apply Hin; now left).
  apply IH. intros q Hq. rewrite surcharge_contains. apply Hin. now right.
Qed.

Lemma keys_contained (d : dict A) (p : str) :
  In p (keys d) -> dict_contains p d = true.
Proof.
  rewrite dict_contains_keys. unfold list_contains.
  intros Hp. apply existsb_exists. exists p. split; auto.
  apply str_eqb_refl.
Qed.

Lemma get_person_totals_run (r : Receipt A) :
  get_person_totals r = (Ok (person_totals r), r).
Proof.
  unfold get_person_totals, person_totals, bind, for_items.
  rewrite visit_items_run, set_items_same.
  unfold get at 1.
  destruct (ltb zero (subtotal r)) eqn:Hpos; [|reflexivity].
  apply for_each_add_surcharge; auto using keys_contained.
Qed.

End Runs.

(** ** The first loop computes the base shares *)

Section Base_shares.

Context {A : Type} `{Number A}.

Lemma fold_credit_charges (x : A) (l : list str) (d : dict A) :
  fold_left (credit x) l d = accumulate (map (fun p => (p, x)) l) d.
Proof.
  unfold accumulate. revert d.
  induction l as [|p l IH]; intros d; simpl; [reflexivity|apply IH].
Qed.

Lemma base_totals_accumulate (l : list (ReceiptItem A)) (d : dict A) :
  base_totals l d = accumulate (charges l) d.
Proof.
  revert d. induction l as [|item l IH]; intros d; simpl; [reflexivity|].
  unfold base_totals in *. simpl. rewrite IH, fold_credit_charges.
  unfold accumulate. now rewrite fold_left_app.
Qed.

Lemma keys_credit (x : A) (d : dict A) (p : str) :
  keys (credit x d p) = if dict_contains p d then keys d else keys d ++ [p].
Proof.
  unfold credit. destruct (dict_contains p d) eqn:E.
  - destruct (dict_getitem_contains p d E) as [old Hold]. rewrite Hold.
    now apply keys_setitem_present.
  - rewrite (dict_getitem_absent p d E), dict_setitem_absent by assumption.
    unfold keys. now rewrite map_app.
Qed.

Lemma value_or_zero_credit (x : A) (d : dict A) (p q : str) :
  value_or_zero q (credit x d p)
  = if str_eqb q p then add (value_or_zero p d) x else value_or_zero q d.
Proof.
  unfold value_or_zero, credit.
  destruct (str_eqb q p) eqn:E.
  - apply str_eqb_eq in E. subst q.
    destruct (dict_getitem p d); now rewrite dict_getitem_setitem_same.
  - destruct (dict_getitem p d); now rewrite dict_getitem_setitem_other.
Qed.

Lemma dict_keys_values (d : dict A) :
  NoDup (keys d) -> d = map (fun q => (q, value_or_zero q d)) (keys d).
Proof.
  induction d as [|[k v] d IH]; simpl; intros Hnd; [reflexivity|].
  inversion Hnd as [|? ? Hk Hd]; subst.
  unfold value_or_zero at 1. simpl. rewrite str_eqb_refl. f_equal.
  rewrite IH at 1 by assumption.
  apply map_ext_in. intros q Hq. f_equal.
  unfold value_or_zero. simpl.
  destruct (str_eqb q k) eqn:E; [|reflexivity].
  apply str_eqb_eq in E. subst q. contradiction.
Qed.

Lemma list_contains_In (p : str) (l : list str) :
  list_contains p l = true <-> In p l.
Proof.
  unfold list_contains. rewrite existsb_exists. split.
  - intros [q [Hq E]]. apply str_eqb_eq in E. now subst q.
  - intros Hp. exists p. split; auto. apply str_eqb_refl.
Qed.

Lemma list_contains_not_In (p : str) (l : list str) :
  list_contains p l = false <-> ~ In p l.
Proof.
  rewrite <- list_contains_In. destruct (list_contains p l); split; congruence.
Qed.

Lemma NoDup_snoc (p : str) (l : list str) :
  NoDup l -> ~ In p l -> NoDup (l ++ [p]).
Proof.
  intros Hl Hp. apply NoDup_app; auto.
  - repeat constructor. intros [].
  - intros q Hq [E|[]]. now subst q.
Qed.

Lemma NoDup_dedup (seen l : list str) :
  NoDup seen -> NoDup (seen ++ dedup seen l).
Proof.
  revert seen. induction l as [|p l IH]; intros seen Hs; simpl.
  - now rewrite app_nil_r.
  - destruct (list_contains p seen) eqn:E; auto.
    change (p :: dedup (seen ++ [p]) l) with ([p] ++ dedup (seen ++ [p]) l).
    rewrite app_assoc. apply IH.
    apply NoDup_snoc; auto. now apply list_contains_not_In.
Qed.

Lemma NoDup_keys_credit (x : A) (d : dict A) (p : str) :
  NoDup (keys d) -> NoDup (keys (credit x d p)).
Proof.
  intros Hd. rewrite keys_credit, dict_contains_keys.
  destruct (list_contains p (keys d)) eqn:E; auto.
  apply NoDup_snoc; auto. now apply list_contains_not_In.
Qed.

Lemma keys_accumulate (c : list (str * A)) (d : dict A) :
  keys (accumulate c d) = keys d ++ dedup (keys d) (map fst c).
Proof.
  revert d. induction c as [|[p x] c IH]; intros d; simpl.
  - now rewrite app_nil_r.
  - unfold accumulate in *. simpl. rewrite IH, keys_credit, dict_contains_keys.
    destruct (list_contains p (keys d)); auto.
    now rewrite <- app_assoc.
Qed.

Lemma NoDup_keys_accumulate (c : list (str * A)) (d : dict A) :
  NoDup (keys d) -> NoDup (keys (accumulate c d)).
Proof.
  intros Hd. rewrite keys_accumulate. now apply NoDup_dedup.
Qed.

Lemma value_or_zero_accumulate (c : list (str * A)) (d : dict A)
    (q : str) :
  value_or_zero q (accumulate c d)
  = fold_left add (charged q c) (value_or_zero q d).
Proof.
  revert d. induction c as [|[p x] c IH]; intros d; simpl; [reflexivity|].
  unfold accumulate in *. simpl. rewrite IH, value_or_zero_credit.
  unfold charged. simpl.
  destruct (str_eqb q p) eqn:E; simpl; [|reflexivity].
  apply str_eqb_eq in E. now subst q.
Qed.

Lemma accumulate_closed_form (c : list (str * A)) (d : dict A) :
  NoDup (keys d) ->
  accumulate c d
  = map (fun q => (q, fold_left add (charged q c) (value_or_zero q d)))
        (keys d ++ dedup (keys d) (map fst c)).
Proof.
  intros Hd.
  rewrite (dict_keys_values (accumulate c d))
    by now apply NoDup_keys_accumulate.
  rewrite keys_accumulate. apply map_ext. intros q.
  now rewrite value_or_zero_accumulate.
Qed.

Lemma fst_charges (l : list (ReceiptItem A)) :
  map fst (charges l) = flat_map (@assigned_to A) l.
Proof.
  induction l as [|item l IH]; simpl; [reflexivity|].
  unfold charges in *. simpl. rewrite map_app, IH, map_map. simpl.
  now rewrite map_id.
Qed.

Lemma charged_charges (q : str) (l : list (ReceiptItem A)) :
  charged q (charges l) = shares_of q l.
Proof.
  induction l as [|item l IH]; simpl; [reflexivity|].
  unfold charged, charges, shares_of in *. simpl.
  rewrite filter_app, map_app, IH. f_equal.
  induction (assigned_to item) as [|p ps IHp]; simpl; [reflexivity|].
  destruct (str_eqb q p); simpl; now rewrite IHp.
Qed.

Lemma base_totals_base_shares (l : list (ReceiptItem A)) :
  base_totals l [] = base_shares l.
Proof.
  rewrite base_totals_accumulate, accumulate_closed_form by constructor.
  unfold base_shares, participants. simpl. rewrite fst_charges.
  apply map_ext. intros q. now rewrite charged_charges.
Qed.

Lemma NoDup_keys_base_totals (l : list (ReceiptItem A)) :
  NoDup (keys (base_totals l [])).
Proof.
  rewrite base_totals_accumulate. apply NoDup_keys_accumulate. constructor.
Qed.

(** When no person is listed twice on an item, the shares charged to [p]
    are the shares of the items [p] is assigned to. *)
Lemma shares_of_NoDup (p : str) (l : list (ReceiptItem A)) :
  Forall (fun item => NoDup (assigned_to item)) l ->
  shares_of p l
  = map share (filter (fun item => list_contains p (assigned_to item)) l).
Proof.
  induction 1 as [|item l Hitem Hl IH]; simpl; [reflexivity|].
  unfold shares_of in *. simpl. rewrite IH. clear IH.
  assert (E : map (fun _ : str => share item)
                (filter (str_eqb p) (assigned_to item))
              = if list_contains p (assigned_to item)
                then [share item] else []).
  { induction Hitem as [|q ps Hq Hps IHps]; simpl; [reflexivity|].
    destruct (str_eqb p q) eqn:E; simpl.
    - apply str_eqb_eq in E. subst q.
      apply list_contains_not_In in Hq. rewrite Hq in IHps.
      now rewrite IHps.
    - exact IHps. }
  rewrite E. now destruct (list_contains p (assigned_to item)).
Qed.

(** The second loop adds the surcharge to every value, in place. *)
Lemma surcharge_in_place (r : Receipt A) (d1 d2 : dict A) (k : str) (v : A) :
  ~ In k (keys d1) ->
  surcharge r (d1 ++ (k, v) :: d2) k = d1 ++ (k, with_surcharge r v) :: d2.
Proof.
  intros Hk. unfold surcharge.
  assert (G : dict_getitem k (d1 ++ (k, v) :: d2) = Ok v
              /\ forall w,
                  dict_setitem k w (d1 ++ (k, v) :: d2) = d1 ++ (k, w) :: d2).
  { induction d1 as [|[k1 v1] d1 IH]; simpl.
    - rewrite str_eqb_refl. auto.
    - simpl in Hk. destruct (str_eqb k k1) eqn:E.
      + apply str_eqb_eq in E. subst k1. tauto.
      + destruct IH as [IH1 IH2]; [tauto|]. split; auto.
        intros w. now rewrite IH2. }
  destruct G as [G1 G2]. now rewrite G1, G2.
Qed.

Lemma fold_surcharge_from (r : Receipt A) (d2 d1 : dict A) :
  NoDup (keys (d1 ++ d2)) ->
  fold_left (surcharge r) (keys d2) (d1 ++ d2)
  = d1 ++ map (fun kv => (fst kv, with_surcharge r (snd kv))) d2.
Proof.
  revert d1.
  induction d2 as [|[k v] d2 IH]; intros d1 Hnd; simpl; [reflexivity|].
  unfold keys in Hnd. rewrite map_app in Hnd. simpl in Hnd.
  rewrite surcharge_in_place
    by (eapply NoDup_remove_2 in Hnd; intros Hk;
        apply Hnd, in_or_app; now left).
  change (d1 ++ (k, with_surcharge r v) :: d2)
    with (d1 ++ [(k, with_surcharge r v)] ++ d2).
  rewrite app_assoc, IH.
  - now rewrite <- app_assoc.
  - unfold keys. rewrite !map_app. simpl. now rewrite <- app_assoc.
Qed.

Lemma fold_surcharge (r : Receipt A) (d : dict A) :
  NoDup (keys d) ->
  fold_left (surcharge r) (keys d) d
  = map (fun kv => (fst kv, with_surcharge r (snd kv))) d.
Proof.
  intros Hnd. now apply (fold_surcharge_from r d []).
Qed.

End Base_shares.

(** ** The exact rationals are numbers *)

Lemma Qc_pos_not_zero (x : Qc) : Qc_ltb 0 x = true -> Qc_eq_bool x 0 = false.
Proof.
  unfold Qc_ltb, Qc_eq_bool. intros Hx.
  destruct (Qc_eq_dec x 0) as [E|E]; [|reflexivity].
  subst x. discriminate.
Qed.

Lemma Qc_zero_not_pos (x : Qc) : Qc_eq_bool x 0 = true -> Qc_ltb 0 x = false.
Proof.
  intros Hx. apply Qc_eq_bool_correct in Hx. now subst x.
Qed.

Lemma Qc_of_int_pos_not_zero (p : positive) :
  Qc_eq_bool (Q2Qc (inject_Z (Zpos p))) 0 = false.
Proof.
  unfold Qc_eq_bool.
  destruct (Qc_eq_dec (Q2Qc (inject_Z (Z.pos p))) 0) as [E|E]; [|reflexivity].
  change 0%Qc with (Q2Qc (inject_Z 0)) in E. apply Q2Qc_eq_iff in E.
  unfold Qeq in E. simpl in E. lia.
Qed.

#[export] Instance exact : Number Qc := {|
  zero := 0%Qc;
  add := Qcplus;
  mul := Qcmult;
  div := Qcdiv;
  eqb := Qc_eq_bool;
  ltb := Qc_ltb;
  of_int := fun z => Q2Qc (inject_Z z);
  of_decimal := Qc_of_decimal;
  pos_not_zero := Qc_pos_not_zero;
  zero_not_pos := Qc_zero_not_pos;
  of_int_pos_not_zero := Qc_of_int_pos_not_zero
|}.

(** ** Binary64 floats are numbers

    The law that takes work: an integer above zero is converted to a
    float that is not zero, because rounding shifts out fewer bits than
    the integer has. *)

Local Open Scope Z_scope.

Lemma SFeqb_zero (x : spec_float) : SFeqb x (S754_zero false) = SF_is_zero x.
Proof. destruct x as [s|s| |s m e]; try destruct s; reflexivity. Qed.

Lemma SFltb_zero (x : spec_float) :
  SFltb (S754_zero false) x = true -> SF_is_zero x = false.
Proof. destruct x as [s|s| |s m e]; try destruct s; cbv; congruence. Qed.

Lemma digits2_pos_log2 (p : positive) :
  Zpos (digits2_pos p) = Z.log2 (Zpos p) + 1.
Proof.
  induction p as [p IH|p IH|]; simpl; try reflexivity.
  - rewrite Pos2Z.inj_succ, IH. destruct p; simpl; lia.
  - rewrite Pos2Z.inj_succ, IH. destruct p; simpl; lia.
Qed.

Lemma shr_m_shr_1 (mrs : shr_record) :
  0 <= shr_m mrs -> shr_m (shr_1 mrs) = Z.div2 (shr_m mrs).
Proof.
  destruct mrs as [m r s]. simpl. intros Hm.
  destruct m as [|[p|p|]|p]; simpl; try reflexivity; lia.
Qed.

Lemma shr_m_iter (n : positive) (mrs : shr_record) :
  0 <= shr_m mrs ->
  shr_m (iter_pos shr_1 n mrs) = Z.shiftr (shr_m mrs) (Zpos n).
Proof.
  revert mrs. induction n as [n IH|n IH|]; intros mrs Hm; simpl iter_pos.
  - assert (H1 : 0 <= shr_m (shr_1 mrs)).
    { rewrite shr_m_shr_1 by assumption. rewrite Z.div2_spec.
      now apply Z.shiftr_nonneg. }
    assert (H2 : 0 <= shr_m (iter_pos shr_1 n (shr_1 mrs))).
    { rewrite IH by assumption. now apply Z.shiftr_nonneg. }
    rewrite IH, IH, shr_m_shr_1 by assumption.
    rewrite Z.div2_spec, !Z.shiftr_shiftr by lia. f_equal. lia.
  - assert (H2 : 0 <= shr_m (iter_pos shr_1 n mrs)).
    { rewrite IH by assumption. now apply Z.shiftr_nonneg. }
    rewrite IH, IH by assumption.
    rewrite Z.shiftr_shiftr by lia. f_equal. lia.
  - rewrite shr_m_shr_1 by assumption. apply Z.div2_spec.
Qed.

Lemma shr_m_record_of_loc (m : Z) (l : location) :
  shr_m (shr_record_of_loc m l) = m.
Proof. destruct l as [|[]]; reflexivity. Qed.

(** A positive mantissa stays positive when it is shifted to its place,
    as long as the exponent is not below the least one. *)
Lemma shr_fexp_pos (m : positive) (e : Z) (l : location) :
  emin <= e ->
  0 < shr_m (fst (shr_fexp prec emax (Zpos m) e l))
  /\ emin <= snd (shr_fexp prec emax (Zpos m) e l).
Proof.
  intros He. unfold shr_fexp, shr, fexp.
  change (SpecFloat.emin prec emax) with (-1074) in *. change prec with 53.
  unfold Zdigits2. rewrite digits2_pos_log2.
  destruct (Z.max (Z.log2 (Z.pos m) + 1 + e - 53) (-1074) - e) as [|n|n] eqn:En;
    simpl fst; simpl snd; rewrite ?shr_m_record_of_loc; try (split; lia).
  rewrite shr_m_iter by (rewrite shr_m_record_of_loc; lia).
  rewrite shr_m_record_of_loc. split; [|lia].
  assert (Hn : Z.pos n <= Z.log2 (Z.pos m)) by lia.
  assert (Hs : Z.shiftr (Z.pos m) (Z.pos n) <> 0).
  { rewrite Z.shiftr_eq_0_iff. lia. }
  assert (0 <= Z.shiftr (Z.pos m) (Z.pos n)) by (apply Z.shiftr_nonneg; lia).
  lia.
Qed.

Lemma round_nearest_even_pos (m : Z) (l : location) :
  0 < m -> 0 < round_nearest_even m l.
Proof.
  intros Hm. destruct l as [|[]]; simpl; try lia.
  destruct (Z.even m); lia.
Qed.

Lemma binary_round_aux_not_zero (s : bool) (m : positive) (e : Z)
    (l : location) :
  emin <= e ->
  SF_is_zero (binary_round_aux prec emax s (Zpos m) e l) = false.
Proof.
  intros He. unfold binary_round_aux.
  destruct (@shr_fexp_pos m e l He) as [H1 H2].
  destruct (shr_fexp prec emax (Z.pos m) e l) as [mrs1 e1]. simpl in H1, H2.
  pose proof (@round_nearest_even_pos _ (loc_of_shr_record mrs1) H1) as H3.
  destruct (round_nearest_even (shr_m mrs1) (loc_of_shr_record mrs1))
    as [|m2|m2]; try lia.
  destruct (@shr_fexp_pos m2 e1 loc_Exact H2) as [H4 _].
  destruct (shr_fexp prec emax (Z.pos m2) e1 loc_Exact) as [mrs2 e2].
  simpl in H4.
  destruct (shr_m mrs2) as [|m3|m3]; try lia.
  now destruct (e2 <=? emax - prec).
Qed.

Lemma b64_of_int_pos_not_zero (p : positive) :
  SFeqb (b64_of_int (Zpos p)) (S754_zero false) = false.
Proof.
  rewrite SFeqb_zero.
  unfold b64_of_int, binary_normalize, binary_round, shl_align.
  destruct (fexp prec emax (Z.pos (digits2_pos p) + 0) - 0) as [|d|d] eqn:E;
    apply binary_round_aux_not_zero; unfold fexp in *;
    change (SpecFloat.emin prec emax) with (-1074) in *; lia.
Qed.

Lemma b64_pos_not_zero (x : spec_float) :
  SFltb (S754_zero false) x = true -> SFeqb x (S754_zero false) = false.
Proof. rewrite SFeqb_zero. apply SFltb_zero. Qed.

Lemma b64_zero_not_pos (x : spec_float) :
  SFeqb x (S754_zero false) = true -> SFltb (S754_zero false) x = false.
Proof. destruct x as [s|s| |s m e]; try destruct s; cbv; congruence. Qed.

#[export] Instance binary64 : Number spec_float := {|
  zero := S754_zero false;
  add := SF64add;
  mul := SF64mul;
  div := SF64div;
  eqb := SFeqb;
  ltb := SFltb;
  of_int := b64_of_int;
  of_decimal := b64_of_decimal;
  pos_not_zero := b64_pos_not_zero;
  zero_not_pos := b64_zero_not_pos;
  of_int_pos_not_zero := b64_of_int_pos_not_zero
|}.

Local Close Scope Z_scope.

(** ** Sums in exact arithmetic *)

Section Exact_sums.

Local Open Scope Qc_scope.

Ltac exact_ops :=
  change (@zero Qc exact) with 0 in *;
  change (@add Qc exact) with Qcplus in *;
  change (@mul Qc exact) with Qcmult in *;
  change (@div Qc exact) with Qcdiv in *;
  change (@of_int Qc exact 0%Z) with 0 in *.

Lemma fold_Qcplus (l : list Qc) (a : Qc) :
  fold_left Qcplus l a = a + fold_left Qcplus l 0.
Proof.
  revert a. induction l as [|x l IH]; intros a; simpl.
  - ring.
  - rewrite (IH (a + x)), (IH (0 + x)). ring.
Qed.

Lemma py_sum_nil : py_sum (A:=Qc) [] = 0.
Proof. reflexivity. Qed.

Lemma py_sum_cons (x : Qc) (l : list Qc) : py_sum (x :: l) = x + py_sum l.
Proof.
  unfold py_sum. exact_ops. simpl. rewrite fold_Qcplus. ring.
Qed.

Lemma py_sum_app (l1 l2 : list Qc) : py_sum (l1 ++ l2) = py_sum l1 + py_sum l2.
Proof.
  induction l1 as [|x l1 IH]; simpl.
  - rewrite py_sum_nil. ring.
  - rewrite !py_sum_cons, IH. ring.
Qed.

Lemma value_or_zero_cons (p k : str) (w : Qc) (d : dict Qc) :
  value_or_zero p ((k, w) :: d)
  = if str_eqb p k then w else value_or_zero p d.
Proof.
  unfold value_or_zero. simpl. now destruct (str_eqb p k).
Qed.

Lemma py_sum_setitem (p : str) (v : Qc) (d : dict Qc) :
  py_sum (values (dict_setitem p v d)) + value_or_zero p d
  = py_sum (values d) + v.
Proof.
  induction d as [|[k w] d IH].
  - simpl. rewrite py_sum_cons, py_sum_nil. unfold value_or_zero. simpl.
    exact_ops. ring.
  - rewrite value_or_zero_cons. simpl.
    destruct (str_eqb p k) eqn:E; simpl; rewrite !py_sum_cons.
    + ring.
    + rewrite <- Qcplus_assoc, IH. ring.
Qed.

Lemma py_sum_credit (x : Qc) (d : dict Qc) (p : str) :
  py_sum (values (credit x d p)) = py_sum (values d) + x.
Proof.
  pose proof (py_sum_setitem p (value_or_zero p d + x) d) as E.
  assert (C : credit x d p = dict_setitem p (value_or_zero p d + x) d).
  { unfold credit, value_or_zero. now destruct (dict_getitem p d). }
  rewrite C.
  replace (py_sum (values (dict_setitem p (value_or_zero p d + x) d)))
    with (py_sum (values (dict_setitem p (value_or_zero p d + x) d))
          + value_or_zero p d - value_or_zero p d) by ring.
  rewrite E. ring.
Qed.

Lemma py_sum_accumulate (c : list (str * Qc)) (d : dict Qc) :
  py_sum (values (accumulate c d)) = py_sum (values d) + py_sum (map snd c).
Proof.
  revert d. induction c as [|[p x] c IH]; intros d; simpl.
  - rewrite py_sum_nil. ring.
  - unfold accumulate in *. simpl. rewrite IH, py_sum_credit, py_sum_cons. ring.
Qed.

Lemma of_int_succ (n : nat) :
  of_int (A:=Qc) (Z.of_nat (S n)) = of_int (A:=Qc) (Z.of_nat n) + 1.
Proof.
  rewrite Nat2Z.inj_succ. unfold Z.succ.
  cbn [of_int exact]. apply Qc_is_canon.
  unfold Qcplus, Q2Qc. cbn [this].
  rewrite !Qred_correct, inject_Z_plus. reflexivity.
Qed.

Lemma py_sum_constant (x : Qc) (l : list str) :
  py_sum (map (fun _ => x) l) = of_int (Z.of_nat (List.length l)) * x.
Proof.
  induction l as [|p l IH].
  - cbn [map List.length Z.of_nat]. rewrite py_sum_nil. exact_ops. ring.
  - cbn [map List.length]. rewrite py_sum_cons, IH, of_int_succ. ring.
Qed.

Lemma py_sum_item_charges (item : ReceiptItem Qc) :
  assigned_to item <> [] ->
  py_sum (map snd (map (fun p => (p, share item)) (assigned_to item)))
  = price item.
Proof.
  intros Hne. rewrite map_map. simpl. rewrite py_sum_constant.
  unfold share. destruct (assigned_to item) as [|p l] eqn:E; [congruence|].
  exact_ops.
  assert (Hn : of_int (A:=Qc) (Z.of_nat (List.length (p :: l))) <> 0).
  { intros Hz. cbn [List.length] in Hz.
    destruct (Z.of_nat (S (List.length l))) as [|q|q] eqn:Eq; try lia.
    pose proof (of_int_pos_not_zero (A:=Qc) q) as Hp.
    rewrite Hz in Hp. discriminate. }
  field. exact Hn.
Qed.


Lemma py_sum_with_surcharge (r : Receipt Qc) (d : dict Qc) :
  py_sum (values (map (fun kv => (fst kv, with_surcharge r (snd kv))) d))
  = py_sum (values d) + (tax r + tip r) * (py_sum (values d) / subtotal r).
Proof.
  induction d as [|[k v] d IH]; cbn [map values fst snd].
  - rewrite py_sum_nil. unfold Qcdiv. ring.
  - unfold values in IH. rewrite !py_sum_cons, IH.
    unfold with_surcharge. exact_ops. unfold Qcdiv. ring.
Qed.


End Exact_sums.

(** ** The receipt model: price per person, assignment, totals *)

Lemma list_remove_present (x : str) (l : list str) :
  list_contains x l = true -> list_remove x l = Ok (remove_first x l).
Proof.
  unfold list_contains. induction l as [|y l IH]; simpl; [discriminate|].
  destruct (str_eqb x y); simpl; [reflexivity|].
  intros Hx. now rewrite IH.
Qed.

Lemma list_contains_snoc (x : str) (l : list str) :
  list_contains x (l ++ [x]) = true.
Proof.
  unfold list_contains. rewrite existsb_app. simpl.
  rewrite str_eqb_refl. now rewrite orb_true_r.
Qed.

Section Model_claims.

Context {A : Type} `{Number A}.

(** C2.  [price_per_person()] returns, without raising and without
    changing the item, 0.0 when [assigned_to] is empty and otherwise the
    quotient of [price] by the number of assigned participants. *)
Theorem price_per_person_spec (item : ReceiptItem A) :
  price_per_person item
  = (Ok match assigned_to item with
        | [] => zero
        | _ :: _ =>
            div (price item)
              (of_int (Z.of_nat (List.length (assigned_to item))))
        end,
     item).
Proof.
  unfold price_per_person, bind, get, ret, lift.
  destruct (assigned_to item) as [|p l]; [reflexivity|].
  now rewrite truediv_by_length.
Qed.

(** C8.  Neither [assign_to] nor [unassign_from] raises.  [assign_to(p)]
    leaves the item as it is when [p] is already assigned and appends [p]
    otherwise, so that calling it twice is calling it once;
    [unassign_from(p)] leaves the item as it is when [p] is absent and
    removes [p] otherwise. *)
Theorem assignment_idempotent (item : ReceiptItem A) (p : str) :
  assign_to p item
  = (Ok tt,
     if list_contains p (assigned_to item) then item
     else set_assigned_to (assigned_to item ++ [p]) item)
  /\ bind (assign_to p) (fun _ => assign_to p) item = assign_to p item
  /\ unassign_from p item
     = (Ok tt,
        if list_contains p (assigned_to item)
        then set_assigned_to (remove_first p (assigned_to item)) item
        else item).
Proof.
  assert (Hassign : forall it : ReceiptItem A,
             assign_to p it
             = (Ok tt,
                if list_contains p (assigned_to it) then it
                else set_assigned_to (assigned_to it ++ [p]) it)).
  { intros it. unfold assign_to, bind, get, put, ret.
    now destruct (list_contains p (assigned_to it)). }
  split; [apply Hassign|]. split.
  - unfold bind. rewrite (Hassign item).
    destruct (list_contains p (assigned_to item)) eqn:E.
    + now rewrite Hassign, E.
    + rewrite Hassign. cbn [assigned_to set_assigned_to].
      now rewrite list_contains_snoc.
  - unfold unassign_from, bind, get, put, ret, lift.
    destruct (list_contains p (assigned_to item)) eqn:E; [|reflexivity].
    now rewrite list_remove_present.
Qed.

(** C3.  When [subtotal == 0] (whatever [tax] and [tip] are) and no item
    lists a participant twice, [get_person_totals()] returns without
    raising, and what it returns maps each participant, in the order of
    first assignment, to the sum of the price per person of the items
    the participant is assigned to: no surcharge is added.  No call of
    [price_per_person] raises, and for an item assigned to no one it
    returns 0.0. *)
Theorem zero_subtotal_base_shares_only (r : Receipt A) :
  eqb (subtotal r) zero = true ->
  Forall (fun item => NoDup (assigned_to item)) (items r) ->
  eval get_person_totals r
  = Ok (map
          (fun p =>
             (p,
              fold_left add
                (map share
                   (filter (fun item => list_contains p (assigned_to item))
                      (items r)))
                zero))
          (participants (items r)))
  /\ (forall item : ReceiptItem A, eval price_per_person item = Ok (share item))
  /\ (forall item : ReceiptItem A, assigned_to item = [] -> share item = zero).
Proof.
  intros Hzero Hsets. split; [|split].
  - unfold eval. rewrite get_person_totals_run. cbn [fst].
    unfold person_totals. rewrite (zero_not_pos _ Hzero).
    rewrite base_totals_base_shares. unfold base_shares, base_share.
    f_equal. apply map_ext. intros p. now rewrite shares_of_NoDup.
  - intros item. unfold eval. now rewrite price_per_person_run.
  - intros item Hnone. unfold share. now rewrite Hnone.
Qed.

(** C10.  [get_person_totals()] leaves the receipt as it found it: the
    items with their names, prices, quantities and assignments, and
    [subtotal], [tax], [tip], [date] and [restaurant_name]; a second call
    returns what the first returned. *)
Theorem get_person_totals_frame (r : Receipt A) :
  exec get_person_totals r = r
  /\ eval get_person_totals (exec get_person_totals r)
     = eval get_person_totals r.
Proof.
  unfold exec, eval. rewrite get_person_totals_run. cbn [fst snd].
  split; [reflexivity|]. now rewrite get_person_totals_run.
Qed.

(** With [subtotal > 0], for every number structure: what
    [get_person_totals()] returns maps each participant to the base
    share plus the part of tax and tip in proportion,
    [base + (tax + tip) * (base / subtotal)]. *)
Lemma positive_subtotal_totals (r : Receipt A) :
  ltb zero (subtotal r) = true ->
  eval get_person_totals r
  = Ok (map (fun kv => (fst kv, with_surcharge r (snd kv)))
          (base_shares (items r))).
Proof.
  intros Hpos. unfold eval. rewrite get_person_totals_run. cbn [fst].
  unfold person_totals. rewrite Hpos.
  rewrite fold_surcharge by apply NoDup_keys_base_totals.
  now rewrite base_totals_base_shares.
Qed.

End Model_claims.


(** ** The normalizer runs to its closed forms *)

Section Parser_runs.

Context {A : Type} `{Number A} `{Interpreter}.
(** The limit of [int] on the number of digits, if any. *)
Variable limit : option nat.

Local Open Scope str_scope.
Local Open Scope list_scope.

Lemma for_each_pure {S X D : Type} (body : D -> X -> M S D) (step : D -> X -> D)
    (l : list X) (d : D) (s : S) :
  (forall d x, body d x s = (Ok (step d x), s)) ->
  for_each l body d s = (Ok (fold_left step l d), s).
Proof.
  intros Hbody. revert d.
  induction l as [|x l IH]; intros d; simpl; [reflexivity|].
  unfold bind. rewrite Hbody. apply IH.
Qed.

Lemma for_each_state {S X : Type} (body : X -> M S unit) (step : S -> X -> S)
    (l : list X) (s : S) :
  (forall x s, body x s = (Ok tt, step s x)) ->
  for_each l (fun _ x => body x) tt s = (Ok tt, fold_left step l s).
Proof.
  intros Hbody. revert s.
  induction l as [|x l IH]; intros s; simpl; [reflexivity|].
  unfold bind. rewrite Hbody. apply IH.
Qed.

Lemma all_digits_re_sub (text : str) :
  all_digits (re_sub_keep is_digit text) = true.
Proof.
  induction text as [|a text IH]; simpl; [reflexivity|].
  destruct (is_digit a) eqn:E; simpl; [now rewrite E|assumption].
Qed.

Lemma is_empty_re_sub (keep : char -> bool) (text : str) :
  is_empty text = true -> re_sub_keep keep text = "".
Proof. destruct text; [reflexivity|discriminate]. Qed.

Lemma _extract_price_run (text : str) :
  _extract_price text = Ok (price_of_text text).
Proof.
  unfold _extract_price, price_of_text.
  destruct (is_empty text) eqn:E.
  - now rewrite is_empty_re_sub.
  - unfold py_float.
    destruct (re_sub_keep price_char text) as [|c s]; [reflexivity|].
    destruct (if char_eqb c "-" then _ else _) as [neg body].
    destruct (split_point body) as [int_part after].
    now destruct (_ && _ && _).
Qed.

Lemma parse_quantity_run (qty_text : str) :
  parse_quantity limit qty_text = Ok (quantity_of_text limit qty_text).
Proof.
  unfold parse_quantity, quantity_of_text, py_int.
  rewrite all_digits_re_sub.
  destruct (is_empty (re_sub_keep is_digit qty_text)); [reflexivity|].
  cbn [negb andb].
  destruct limit as [n|]; [|reflexivity].
  now destruct (str_length (re_sub_keep is_digit qty_text) <=? n)%nat.
Qed.

Lemma scan_summary_field_run (field : ExpenseField) (r : Receipt A) :
  scan_summary_field field r = (Ok tt, summary_step r field).
Proof.
  unfold scan_summary_field, summary_step, bind, get, put, ret, lift.
  repeat (destruct (type_is field _); [now rewrite ?_extract_price_run|]).
  reflexivity.
Qed.

Lemma scan_line_field_run (vars : line_vars) (field : ExpenseField)
    (r : Receipt A) :
  scan_line_field limit vars field r = (Ok (line_step limit vars field), r).
Proof.
  unfold scan_line_field, line_step, bind, ret, lift.
  repeat (destruct (type_is field _);
          [now rewrite ?_extract_price_run, ?parse_quantity_run|]).
  reflexivity.
Qed.

Lemma scan_line_fields_run (line_item : LineItem) (r : Receipt A) :
  match LineItemExpenseFields line_item with
  | Some fields =>
      for_each fields (scan_line_field limit) line_vars_init
  | None => ret line_vars_init
  end r
  = (Ok (scanned limit line_item), r).
Proof.
  unfold scanned.
  destruct (LineItemExpenseFields line_item) as [fields|]; [|reflexivity].
  apply for_each_pure. intros d x. apply scan_line_field_run.
Qed.

Lemma parse_line_item_run (line_item : LineItem) (r : Receipt A) :
  parse_line_item limit line_item r
  = (Ok tt, line_item_step limit r line_item).
Proof.
  unfold parse_line_item, bind at 1. rewrite scan_line_fields_run.
  unfold line_item_step, accepted, item_of.
  now destruct (negb _ && _).
Qed.

Lemma parse_group_run (group : LineItemGroup) (r : Receipt A) :
  parse_group limit group r = (Ok tt, group_step limit r group).
Proof.
  unfold parse_group, group_step.
  destruct (LineItems group) as [l|]; [|reflexivity].
  apply for_each_state. apply parse_line_item_run.
Qed.

Lemma parse_document_run (doc : ExpenseDocument) (r : Receipt A) :
  parse_document limit doc r = (Ok tt, document_step limit r doc).
Proof.
  unfold parse_document, document_step, bind.
  assert (E : match SummaryFields doc with
              | Some fields =>
                  for_each fields (fun _ field => scan_summary_field field) tt
              | None => ret tt
              end r
              = (Ok tt,
                 fold_left summary_step (opt_list (SummaryFields doc)) r)).
  { destruct (SummaryFields doc) as [l|]; [|reflexivity].
    apply for_each_state. apply scan_summary_field_run. }
  rewrite E.
  destruct (LineItemGroups doc) as [l|]; [|reflexivity].
  apply for_each_state. apply parse_group_run.
Qed.

Lemma parse_documents_run (response : Response) (r : Receipt A) :
  parse_documents limit response r
  = (Ok tt,
     fold_left (document_step limit) (opt_list (ExpenseDocuments response)) r).
Proof.
  unfold parse_documents.
  destruct (ExpenseDocuments response) as [l|]; [|reflexivity].
  apply for_each_state. apply parse_document_run.
Qed.

Lemma kept_app (l1 l2 : list LineItem) :
  kept limit (l1 ++ l2) = kept limit l1 ++ kept limit l2.
Proof. unfold kept. now rewrite map_app, filter_app, map_app. Qed.

Lemma items_summary_steps (l : list ExpenseField) (r : Receipt A) :
  items (fold_left summary_step l r) = items r.
Proof.
  revert r. induction l as [|f l IH]; intros r; simpl; [reflexivity|].
  rewrite IH. unfold summary_step.
  repeat (destruct (type_is f _); [reflexivity|]). reflexivity.
Qed.

Lemma items_line_item_steps (l : list LineItem) (r : Receipt A) :
  items (fold_left (line_item_step limit) l r) = items r ++ kept limit l.
Proof.
  revert r. induction l as [|x l IH]; intros r; simpl.
  - now rewrite app_nil_r.
  - rewrite IH. unfold line_item_step, kept. simpl.
    destruct (accepted (scanned limit x)); simpl; [|reflexivity].
    now rewrite <- app_assoc.
Qed.

Lemma items_group_steps (l : list LineItemGroup) (r : Receipt A) :
  items (fold_left (group_step limit) l r)
  = items r
      ++ kept limit (flat_map (fun group => opt_list (LineItems group)) l).
Proof.
  revert r. induction l as [|g l IH]; intros r; simpl.
  - now rewrite app_nil_r.
  - rewrite IH. unfold group_step. rewrite items_line_item_steps, kept_app.
    now rewrite app_assoc.
Qed.

Lemma items_document_steps (l : list ExpenseDocument) (r : Receipt A) :
  items (fold_left (document_step limit) l r)
  = items r
      ++ kept limit (flat_map
                 (fun doc =>
                    flat_map (fun group => opt_list (LineItems group))
                      (opt_list (LineItemGroups doc)))
                 l).
Proof.
  revert r. induction l as [|doc l IH]; intros r; simpl.
  - now rewrite app_nil_r.
  - rewrite IH. unfold document_step.
    rewrite items_group_steps, items_summary_steps, kept_app.
    now rewrite app_assoc.
Qed.

Lemma items_documents_receipt (response : Response) :
  items (documents_receipt limit response)
  = kept limit (line_items_of response).
Proof.
  unfold documents_receipt, exec. rewrite parse_documents_run. cbn [snd].
  now rewrite items_document_steps.
Qed.

Lemma parse_textract_response_run (response : Response) :
  parse_textract_response limit response
  = Ok (if eqb (subtotal (documents_receipt limit response)) zero
           && negb match items (documents_receipt limit response) with
                   | [] => true
                   | _ :: _ => false
                   end
        then set_subtotal
               (builtin_sum
                  (map (@price A) (items (documents_receipt limit response))))
               (documents_receipt limit response)
        else documents_receipt limit response).
Proof.
  unfold parse_textract_response, documents_receipt, exec, bind.
  rewrite parse_documents_run. cbn [snd].
  unfold subtotal_fallback, bind, get, put, ret.
  now destruct (eqb _ _ && negb _).
Qed.

End Parser_runs.

(** ** The normalizer: discard rule, text parsing, subtotal *)

Section Parser_claims.

Context {A : Type} `{Number A} `{Interpreter}.
(** The limit of [int] on the number of digits, if any. *)
Variable limit : option nat.

Local Open Scope str_scope.
Local Open Scope list_scope.

(** C4.  The loop over the fields of a line item ends, without raising,
    with the parsed name, price and quantity [scanned line_item]; the
    item is appended to the receipt when the name is not empty and the
    price is above zero, and otherwise the receipt is left as it is,
    whatever the other fields are.  So the items of the parsed
    receipt are the accepted line items of the response, in order, and no
    other. *)
Theorem discard_rule (response : Response) :
  (forall (line_item : LineItem) (r : Receipt A),
      parse_line_item limit line_item r
      = (Ok tt,
         if negb (is_empty (item_name (scanned limit line_item)))
            && ltb zero (item_price (scanned limit line_item))
         then set_items
                (items r ++ [item_of (scanned limit line_item)]) r
         else r))
  /\ exists receipt : Receipt A,
      parse_textract_response limit response = Ok receipt
      /\ items receipt
         = map item_of
             (filter
                (fun vars => negb (is_empty (item_name vars))
                             && ltb zero (item_price vars))
                (map (scanned limit) (line_items_of response))).
Proof.
  split.
  - intros line_item r. apply parse_line_item_run.
  - eexists. split; [apply parse_textract_response_run|].
    pose proof (items_documents_receipt limit response) as E.
    destruct (eqb _ _ && negb _); exact E.
Qed.

(** C7.  The documents are processed without raising, and the parser
    returns a receipt.  If the subtotal read from the documents equals
    zero and an item was added, the subtotal of the receipt returned is
    the sum of the prices of the items (the quantities play no part):
    the prices added from left to right to 0 by the [sum] of CPython up
    to 3.11, and added with compensation by the [sum] of CPython 3.12 and
    later.  Otherwise the subtotal is the one read from the documents.
    The items, the date, the restaurant name, the tax and the tip are in
    both cases what they are when the documents are processed. *)
Theorem subtotal_fallback_rule (response : Response) :
  exists receipt : Receipt A,
    eval (parse_documents limit response) new_Receipt = Ok tt
    /\ parse_textract_response limit response = Ok receipt
    /\ subtotal receipt
       = (if eqb (subtotal (documents_receipt limit response)) zero
             && negb match items (documents_receipt limit response) with
                     | [] => true
                     | _ :: _ => false
                     end
          then
            if sum_compensates
            then sum_compensated
                   (map (@price A)
                      (items (documents_receipt limit response)))
            else fold_left add
                   (map (@price A)
                      (items (documents_receipt limit response)))
                   (of_int 0)
          else subtotal (documents_receipt limit response))
    /\ items receipt = items (documents_receipt limit response)
    /\ date receipt = date (documents_receipt limit response)
    /\ restaurant_name receipt
       = restaurant_name (documents_receipt limit response)
    /\ tax receipt = tax (documents_receipt limit response)
    /\ tip receipt = tip (documents_receipt limit response).
Proof.
  eexists. split; [unfold eval; now rewrite parse_documents_run|].
  split; [apply parse_textract_response_run|].
  destruct (eqb _ _ && negb _);
    cbn [subtotal items date restaurant_name tax tip set_subtotal];
    repeat split.
Qed.

End Parser_claims.

Lemma below_128 (P : char -> bool) :
  forallb P (map N.of_nat (seq 0 128)) = true ->
  forall c : char, (c < 128)%N -> P c = true.
Proof.
  intros HP c Hc. rewrite forallb_forall in HP. apply HP.
  apply in_map_iff. exists (N.to_nat c). split; [lia|].
  apply in_seq. lia.
Qed.

Lemma price_char_set `{Interpreter} (c : char) :
  (c < 128)%N ->
  price_char c = existsb (char_eqb c) (list_of_str "0123456789.-").
Proof.
  intros Hc. apply Bool.eqb_prop. revert c Hc. apply below_128.
  vm_compute. reflexivity.
Qed.

Lemma is_digit_set `{Interpreter} (c : char) :
  (c < 128)%N ->
  is_digit c = existsb (char_eqb c) (list_of_str "0123456789").
Proof.
  intros Hc. apply Bool.eqb_prop. revert c Hc. apply below_128.
  vm_compute. reflexivity.
Qed.

Lemma re_sub_keep_filter (keep : char -> bool) (text : str) :
  list_of_str (re_sub_keep keep text)
  = filter keep (list_of_str text).
Proof.
  induction text as [|c text IH]; simpl; [reflexivity|].
  destruct (keep c); simpl; now rewrite IH.
Qed.

Local Open Scope str_scope.

(** C5.  [_extract_price] never raises.  It keeps of the text the
    decimal digits, points and minus signs, in order, and drops every
    other character; it returns the number [float] reads in what is kept,
    and 0.0 when [float] refuses it (nothing kept, or not a number).  A
    digit is a decimal digit of Unicode, read as its value; of the ASCII
    characters, the ones kept are [0123456789.-].  Whatever the version of
    the interpreter, in binary64 and in exact arithmetic alike, "$12.99"
    gives 12.99, "1,234.56" gives 1234.56, "" and "N/A" give 0.0, and
    "-5.00" gives -5.00; in CPython 3.11 the Arabic-Indic digit three
    (U+0663) gives 3.0, and after the digit 1 it gives 13.0. *)
Theorem extract_price_spec :
  (forall (A : Type) (N : Number A) (I : Interpreter) (text : str),
      _extract_price text
      = Ok match py_float (re_sub_keep price_char text) with
           | Ok v => v
           | Raise _ => zero
           end
      /\ list_of_str (re_sub_keep price_char text)
         = filter
             (fun c =>
                match decimal c with Some _ => true | None => false end
                || char_eqb c "." || char_eqb c "-")
             (list_of_str text)
      /\ forall c : char,
           (c < 128)%N ->
           (match decimal c with Some _ => true | None => false end
            || char_eqb c "." || char_eqb c "-")
           = existsb (char_eqb c) (list_of_str "0123456789.-"))
  /\ (forall I : Interpreter,
         _extract_price "$12.99" = Ok (Prim2SF 12.99)
         /\ _extract_price "1,234.56" = Ok (Prim2SF 1234.56)
         /\ _extract_price "" = Ok (Prim2SF 0)
         /\ _extract_price "N/A" = Ok (Prim2SF 0)
         /\ _extract_price "-5.00" = Ok (Prim2SF (-5.00)))
  /\ (forall I : Interpreter,
         _extract_price "$12.99" = Ok (Q2Qc 12.99)
         /\ _extract_price "1,234.56" = Ok (Q2Qc 1234.56)
         /\ _extract_price "" = Ok (Q2Qc 0)
         /\ _extract_price "N/A" = Ok (Q2Qc 0)
         /\ _extract_price "-5.00" = Ok (Q2Qc (-5.00)))
  /\ (@_extract_price _ _ cpython_3_11 (String 0x663%N "")
      = Ok (Prim2SF 3)
      /\ @_extract_price _ _ cpython_3_11 (String "1" (String 0x663%N ""))
         = Ok (Prim2SF 13)).
Proof.
  split; [|split; [|split]].
  - intros A N I text. split; [|split].
    + apply _extract_price_run.
    + apply re_sub_keep_filter.
    + intros c Hc. apply (price_char_set Hc).
  - intros I. repeat split; vm_compute; reflexivity.
  - intros I. repeat split;
      match goal with
      | |- ?l = Ok _ => let v := eval vm_compute in l in change l with v
      end;
      apply f_equal, Qc_is_canon; reflexivity.
  - split; vm_compute; reflexivity.
Qed.

(** C6.  The quantity parsing never raises.  It keeps the decimal
    digits of the text, in order, and drops every other character; it
    returns 1 when no digit is kept, the integer the digits denote when
    [int] reads them, and 1 when [int] refuses them (more digits than
    [sys.int_max_str_digits]).  A digit is a decimal digit of Unicode,
    read as its value; of the ASCII characters, the ones kept are
    [0123456789].  Whatever the version of the interpreter, with no limit
    and with the limit of 4300 digits, "2x" gives 2, and "" and "abc"
    give 1; in CPython 3.11 the Arabic-Indic digit three (U+0663) gives
    3. *)
Theorem parse_quantity_spec :
  (forall (I : Interpreter) (limit : option nat) (text : str),
      parse_quantity limit text
      = Ok (if is_empty (re_sub_keep is_digit text) then 1%Z
            else
              match py_int limit (re_sub_keep is_digit text) with
              | Ok n => n
              | Raise _ => 1%Z
              end)
      /\ py_int limit (re_sub_keep is_digit text)
         = (if is_empty (re_sub_keep is_digit text) then Raise ValueError
            else
              match limit with
              | Some n =>
                  if (str_length (re_sub_keep is_digit text) <=? n)%nat
                  then Ok (Z.of_N (digits_value 0 (re_sub_keep is_digit text)))
                  else Raise ValueError
              | None =>
                  Ok (Z.of_N (digits_value 0 (re_sub_keep is_digit text)))
              end)
      /\ list_of_str (re_sub_keep is_digit text)
         = filter
             (fun c => match decimal c with Some _ => true | None => false end)
             (list_of_str text)
      /\ forall c : char,
           (c < 128)%N ->
           match decimal c with Some _ => true | None => false end
           = existsb (char_eqb c) (list_of_str "0123456789"))
  /\ (forall I : Interpreter,
         parse_quantity None "2x" = Ok 2%Z
         /\ parse_quantity None "" = Ok 1%Z
         /\ parse_quantity None "abc" = Ok 1%Z)
  /\ (forall I : Interpreter,
         parse_quantity (Some 4300%nat) "2x" = Ok 2%Z
         /\ parse_quantity (Some 4300%nat) "" = Ok 1%Z
         /\ parse_quantity (Some 4300%nat) "abc" = Ok 1%Z)
  /\ @parse_quantity cpython_3_11 (Some 4300%nat) (String 0x663%N "")
     = Ok 3%Z.
Proof.
  split; [|split; [|split]].
  - intros I limit qty_text. split; [|split; [|split]].
    + unfold parse_quantity, py_int. rewrite all_digits_re_sub.
      destruct (is_empty (re_sub_keep is_digit qty_text)); [reflexivity|].
      cbn [negb andb]. destruct limit as [n|]; [|reflexivity].
      now destruct (str_length (re_sub_keep is_digit qty_text) <=? n)%nat.
    + unfold py_int. rewrite all_digits_re_sub.
      destruct (is_empty (re_sub_keep is_digit qty_text)); [reflexivity|].
      cbn [negb andb]. destruct limit as [n|]; [|reflexivity].
      now destruct (str_length (re_sub_keep is_digit qty_text) <=? n)%nat.
    + apply re_sub_keep_filter.
    + intros c Hc. apply (is_digit_set Hc).
  - intros I. repeat split; vm_compute; reflexivity.
  - intros I. repeat split; vm_compute; reflexivity.
  - vm_compute. reflexivity.
Qed.

Local Close Scope str_scope.

(** ** The claims at concrete receipts *)

Local Open Scope str_scope.

Section At_concrete_receipts.

(** The interpreter of the examples is CPython 3.11. *)
#[local] Existing Instance cpython_3_11.

(** C9, at the input on which the code breaks it.  From the quantity
    text "0" the normalizer makes an item of quantity 0, and the receipt
    it returns holds that item. *)
Theorem zero_quantity_item :
  parse_quantity (Some 4300%nat) "0" = Ok 0%Z
  /\ parse_textract_response (Some 4300%nat) zero_quantity_response
     = Ok {| items :=
               [ {| name := "Tea";
                    price := Prim2SF 2.5;
                    quantity := 0;
                    assigned_to := [] |} ];
             date := "";
             restaurant_name := "Cafe";
             subtotal := Prim2SF 2.5;
             tax := Prim2SF 0;
             tip := Prim2SF 0 |}.
Proof. split; vm_compute; reflexivity. Qed.


Lemma zero_subtotal_base_shares_only_witness :
  eval get_person_totals unpriced_lunch
  = Ok (map
          (fun p =>
             (p,
              fold_left add
                (map share
                   (filter (fun item => list_contains p (assigned_to item))
                      (items unpriced_lunch)))
                zero))
          (participants (items unpriced_lunch)))
  /\ (forall item : ReceiptItem spec_float,
         eval price_per_person item = Ok (share item))
  /\ (forall item : ReceiptItem spec_float,
         assigned_to item = [] -> share item = zero).
Proof.
  apply (zero_subtotal_base_shares_only unpriced_lunch).
  - vm_compute. reflexivity.
  - repeat constructor; simpl; intuition discriminate.
Defined.

(** The scenario of the test data in binary64: subtotal 45.00 (not the
    sum of the prices), tax 3.60, no tip.  Alice owes
    20.74 + (20.74 / 45.00) * 3.60 and Bob 16.74 + (16.74 / 45.00) * 3.60,
    each operation rounded. *)
Example test_data_totals :
  eval get_person_totals
    {| items :=
         [ {| name := "Burger"; price := Prim2SF 12.99; quantity := 1;
              assigned_to := ["Alice"] |};
           {| name := "Pizza"; price := Prim2SF 15.50; quantity := 1;
              assigned_to := ["Alice"; "Bob"] |};
           {| name := "Salad"; price := Prim2SF 8.99; quantity := 1;
              assigned_to := ["Bob"] |} ];
       date := "2025-03-06";
       restaurant_name := "Test Restaurant";
       subtotal := Prim2SF 45.00;
       tax := Prim2SF 3.60;
       tip := Prim2SF 0 |}
  = Ok [ ("Alice", Prim2SF 22.3992); ("Bob", Prim2SF 18.079200000000004) ].
Proof. vm_compute. reflexivity. Qed.

(** The test data in binary64 with a consistent subtotal: the subtotal is
    the sum of the prices, and the sum of what the two participants owe
    is [total()], to the last bit. *)
Example lunch_binary64_totals :
  subtotal lunch_binary64
  = py_sum (map (@price spec_float) (items lunch_binary64))
  /\ eval get_person_totals lunch_binary64
     = Ok [ ("Alice", Prim2SF 25.498911419423695);
            ("Bob", Prim2SF 20.58108858057631) ]
  /\ eval total lunch_binary64 = Ok (Prim2SF 46.080000000000005)
  /\ py_sum [Prim2SF 25.498911419423695; Prim2SF 20.58108858057631]
     = Prim2SF 46.080000000000005.
Proof. repeat split; vm_compute; reflexivity. Qed.


(** The two builtins [sum] in binary64: 0.1 + 0.2 + 0.3 is
    0.6000000000000001 from left to right and 0.6 with the compensation,
    ten times 0.1 is 0.9999999999999999 and 1.0, and a compensation that
    is not finite is left out. *)
Example sum_of_tenths :
  @builtin_sum _ _ cpython_3_11 [Prim2SF 0.1; Prim2SF 0.2; Prim2SF 0.3]
  = Prim2SF 0.6000000000000001
  /\ @builtin_sum _ _ cpython_3_12_sum
       [Prim2SF 0.1; Prim2SF 0.2; Prim2SF 0.3]
     = Prim2SF 0.6
  /\ py_sum (repeat (Prim2SF 0.1) 10) = Prim2SF 0.9999999999999999
  /\ sum_compensated (repeat (Prim2SF 0.1) 10) = Prim2SF 1
  /\ sum_compensated
       [Prim2SF 1; Prim2SF 1e100; Prim2SF 1; Prim2SF (-1e100)]
     = Prim2SF 2
  /\ sum_compensated [Prim2SF 1e308; Prim2SF 1e308; Prim2SF (-1e308)]
     = Prim2SF infinity.
Proof. repeat split; vm_compute; reflexivity. Qed.

(** The discard rule on a response with noise: the two sound items are
    kept, in order, and the subtotal, absent from the response, is the sum
    of their prices. *)
Example noisy_response_parsed :
  parse_textract_response (Some 4300%nat) noisy_response
  = Ok {| items :=
            [ {| name := "Tea"; price := Prim2SF 2.5; quantity := 1;
                 assigned_to := [] |};
              {| name := "Pie"; price := Prim2SF 4.25; quantity := 2;
                 assigned_to := [] |} ];
          date := "";
          restaurant_name := "";
          subtotal := Prim2SF 6.75;
          tax := Prim2SF 0.54;
          tip := Prim2SF 0 |}.
Proof. vm_compute. reflexivity. Qed.

(** [float] rounds a decimal text to the nearest binary64, ties to even,
    as the float literals of Rocq do: a tie between two floats, the
    least subnormal and a text below its half, the greatest float and a
    text that overflows. *)
Example float_rounds_to_nearest :
  py_float "9007199254740993" = Ok (Prim2SF 9007199254740992)
  /\ py_float "9007199254740995" = Ok (Prim2SF 9007199254740996)
  /\ py_float "0.1" = Ok (Prim2SF 0x1.999999999999ap-4)
  /\ py_float ("0." ++ str_of_list (repeat "0"%chr 323) ++ "5")
     = Ok (Prim2SF 0x1p-1074)
  /\ py_float ("0." ++ str_of_list (repeat "0"%chr 323) ++ "2")
     = Ok (Prim2SF 0)
  /\ py_float ("17976931348623157" ++ str_of_list (repeat "0"%chr 292))
     = Ok (Prim2SF 0x1.fffffffffffffp+1023)
  /\ py_float ("1" ++ str_of_list (repeat "0"%chr 400))
     = Ok (Prim2SF infinity).
Proof. repeat split; vm_compute; reflexivity. Qed.

End At_concrete_receipts.

Local Close Scope str_scope.

(** ** More on the receipt model *)

Lemma In_dedup (p : str) (l seen : list str) :
  In p (dedup seen l) <-> In p l /\ ~ In p seen.
Proof.
  revert seen. induction l as [|q l IH]; intros seen; simpl; [tauto|].
  destruct (list_contains q seen) eqn:E.
  - apply list_contains_In in E. rewrite IH. split.
    + tauto.
    + intros [[Hq|Hl] Hs]; [subst q; contradiction|tauto].
  - apply list_contains_not_In in E. simpl. rewrite IH, in_app_iff. simpl.
    split.
    + intros [Hq|[Hl Hs]]; [subst q; tauto|tauto].
    + intros [[Hq|Hl] Hs]; [now left|].
      destruct (str_eq_dec q p) as [Hqp|Hqp]; [now left|right; tauto].
Qed.

Lemma keys_map_values {V W : Type} (f : V -> W) (d : dict V) :
  keys (map (fun kv => (fst kv, f (snd kv))) d) = keys d.
Proof.
  unfold keys. rewrite map_map. reflexivity.
Qed.

Section Model_extras.

Context {A : Type} `{Number A}.

Lemma keys_person_totals (r : Receipt A) :
  keys (person_totals r) = participants (items r).
Proof.
  unfold person_totals.
  assert (K : keys (base_totals (items r) []) = participants (items r)).
  { now rewrite base_totals_base_shares; unfold base_shares, keys;
      rewrite map_map, map_id. }
  destruct (ltb zero (subtotal r)); [|exact K].
  rewrite fold_surcharge by apply NoDup_keys_base_totals.
  now rewrite keys_map_values.
Qed.

(** X4.  The keys of [get_person_totals()].  The call returns
    without raising; the keys of the dictionary are the people assigned
    to at least one item, each once, in the order of their first
    appearance in the items; a person assigned to no item has no
    entry. *)
Theorem person_totals_keys (r : Receipt A) :
  exists d : dict A,
    eval get_person_totals r = Ok d
    /\ keys d = participants (items r)
    /\ NoDup (keys d)
    /\ forall p : str,
        In p (keys d)
        <-> exists item, In item (items r) /\ In p (assigned_to item).
Proof.
  exists (person_totals r). unfold eval. rewrite get_person_totals_run.
  split; [reflexivity|]. rewrite keys_person_totals.
  split; [reflexivity|]. split.
  - unfold participants.
    apply (@NoDup_dedup [] (flat_map (@assigned_to A) (items r))).
    constructor.
  - intros p. unfold participants. rewrite In_dedup, in_flat_map. simpl. tauto.
Qed.

(** X5.  The amounts of [get_person_totals()] when
    [subtotal > 0] and no [assigned_to] has a duplicate: each person of
    the result owes the sum [base] of the [price_per_person()] of the
    items assigned to them, added from 0.0 in the order of the items,
    plus the part of tax and tip in proportion,
    [base + (tax + tip) * (base / subtotal)], with the operations in
    this order. *)
Theorem surcharge_formula (r : Receipt A) :
  ltb zero (subtotal r) = true ->
  Forall (fun item => NoDup (assigned_to item)) (items r) ->
  eval get_person_totals r
  = Ok (map
          (fun p =>
             let base :=
               fold_left add
                 (map share
                    (filter (fun item => list_contains p (assigned_to item))
                       (items r)))
                 zero in
             (p, add base (mul (add (tax r) (tip r)) (div base (subtotal r)))))
          (participants (items r))).
Proof.
  intros Hpos Hsets. unfold eval. rewrite get_person_totals_run. cbn [fst].
  unfold person_totals. rewrite Hpos.
  rewrite fold_surcharge by apply NoDup_keys_base_totals.
  rewrite base_totals_base_shares. unfold base_shares, base_share.
  rewrite map_map. cbn [fst snd]. f_equal. apply map_ext. intros p.
  unfold with_surcharge. now rewrite shares_of_NoDup.
Qed.

Lemma person_totals_closed_form (r : Receipt A) :
  person_totals r
  = map
      (fun p =>
         (p,
          if ltb zero (subtotal r)
          then with_surcharge r (base_share p (items r))
          else base_share p (items r)))
      (participants (items r)).
Proof.
  unfold person_totals. rewrite base_totals_base_shares.
  destruct (ltb zero (subtotal r)); [|reflexivity].
  rewrite fold_surcharge
    by (rewrite <- base_totals_base_shares; apply NoDup_keys_base_totals).
  unfold base_shares. now rewrite map_map.
Qed.

Lemma dict_getitem_tabulate (f : str -> A) (p : str) (l : list str) :
  dict_getitem p (map (fun q => (q, f q)) l)
  = if list_contains p l then Ok (f p) else Raise KeyError.
Proof.
  unfold list_contains. induction l as [|q l IH]; simpl; [reflexivity|].
  destruct (str_eqb p q) eqn:E; simpl; [|exact IH].
  apply str_eqb_eq in E. now subst q.
Qed.

Lemma participants_spec (p : str) (l : list (ReceiptItem A)) :
  In p (participants l)
  <-> exists item, In item l /\ In p (assigned_to item).
Proof.
  unfold participants. rewrite In_dedup, in_flat_map. simpl. tauto.
Qed.

End Model_extras.

(** ** More sums in exact arithmetic *)


Section Exact_extras.

Local Open Scope Qc_scope.


Lemma py_sum_charges_assigned (l : list (ReceiptItem Qc)) :
  py_sum (map snd (charges l))
  = py_sum (map (@price Qc) (filter is_assigned l)).
Proof.
  induction l as [|item l IH]; [reflexivity|].
  unfold charges in *. cbn [flat_map filter].
  rewrite map_app, py_sum_app, IH.
  destruct (is_assigned item) eqn:E; unfold is_assigned in E.
  - cbn [map]. rewrite (py_sum_cons (price item)). f_equal.
    apply py_sum_item_charges. intros Hnone. now rewrite Hnone in E.
  - destruct (assigned_to item); [|discriminate].
    cbn [map]. rewrite py_sum_nil. ring.
Qed.

Lemma py_sum_person_totals (r : Receipt Qc) :
  py_sum (values (person_totals r))
  = if ltb zero (subtotal r)
    then py_sum (map (@price Qc) (filter is_assigned (items r)))
         + (tax r + tip r)
           * (py_sum (map (@price Qc) (filter is_assigned (items r)))
              / subtotal r)
    else py_sum (map (@price Qc) (filter is_assigned (items r))).
Proof.
  unfold person_totals.
  assert (B : py_sum (values (base_totals (items r) []))
              = py_sum (map (@price Qc) (filter is_assigned (items r)))).
  { rewrite base_totals_accumulate, py_sum_accumulate, py_sum_charges_assigned.
    cbn [values map]. rewrite py_sum_nil. ring. }
  destruct (ltb zero (subtotal r)); [|exact B].
  rewrite fold_surcharge by apply NoDup_keys_base_totals.
  now rewrite py_sum_with_surcharge, B.
Qed.

(** X6.  What the totals add up to, in exact arithmetic, for any
    receipt: the prices of the items that are assigned to someone, plus,
    when [subtotal > 0], tax and tip in the proportion of these prices
    to the subtotal.  The price of an item assigned to no one, and its
    part of tax and tip, is owed by no one. *)
Theorem unattributed_amount (r : Receipt Qc) :
  exists d : dict Qc,
    eval get_person_totals r = Ok d
    /\ py_sum (values d)
       = if ltb zero (subtotal r)
         then py_sum (map (@price Qc) (filter is_assigned (items r)))
              + (tax r + tip r)
                * (py_sum (map (@price Qc) (filter is_assigned (items r)))
                   / subtotal r)
         else py_sum (map (@price Qc) (filter is_assigned (items r))).
Proof.
  exists (person_totals r). unfold eval. rewrite get_person_totals_run.
  split; [reflexivity|]. apply py_sum_person_totals.
Qed.

(** X1.  In exact arithmetic, the shares of an item add up to its price:
    when the item is assigned to someone, [price_per_person()] returns
    without raising, and the number of the assigned people times the
    value it returns is the price. *)
Theorem shares_add_up (item : ReceiptItem Qc) :
  assigned_to item <> [] ->
  exists x : Qc,
    eval price_per_person item = Ok x
    /\ of_int (Z.of_nat (List.length (assigned_to item))) * x = price item.
Proof.
  intros Hne. exists (share item). unfold eval.
  rewrite price_per_person_run. split; [reflexivity|].
  rewrite <- (@py_sum_item_charges item Hne), map_map. cbn [snd].
  now rewrite py_sum_constant.
Qed.

Lemma py_sum_Permutation (l l' : list Qc) :
  Permutation l l' -> py_sum l = py_sum l'.
Proof.
  induction 1 as [|x l l' _ IH|x y l|l l' l'' _ IH1 _ IH2].
  - reflexivity.
  - now rewrite !py_sum_cons, IH.
  - rewrite !py_sum_cons. ring.
  - now rewrite IH1.
Qed.

Lemma base_share_Permutation (p : str) (l l' : list (ReceiptItem Qc)) :
  Permutation l l' -> base_share p l = base_share p l'.
Proof.
  intros Hperm. unfold base_share.
  change (fold_left add (shares_of p l) zero) with (py_sum (shares_of p l)).
  change (fold_left add (shares_of p l') zero) with (py_sum (shares_of p l')).
  apply py_sum_Permutation. unfold shares_of.
  now apply Permutation_flat_map.
Qed.

(** X7.  In exact arithmetic the amounts do not depend on the order
    of the items: two receipts with the same subtotal, tax and tip whose
    items are the same up to their order give every person the same
    amount, and the same people an amount.  (Binary64 is left out: there
    the sums are rounded in the order of the items.) *)
Theorem order_of_items_is_immaterial (r r' : Receipt Qc) :
  Permutation (items r) (items r') ->
  subtotal r = subtotal r' ->
  tax r = tax r' ->
  tip r = tip r' ->
  exists d d' : dict Qc,
    eval get_person_totals r = Ok d
    /\ eval get_person_totals r' = Ok d'
    /\ forall p : str, dict_getitem p d = dict_getitem p d'.
Proof.
  intros Hperm Hsub Htax Htip.
  exists (person_totals r), (person_totals r'). unfold eval.
  rewrite !get_person_totals_run. split; [reflexivity|]. split; [reflexivity|].
  intros p. rewrite !person_totals_closed_form, !dict_getitem_tabulate.
  assert (C : list_contains p (participants (items r))
              = list_contains p (participants (items r'))).
  { destruct (list_contains p (participants (items r'))) eqn:E.
    - apply list_contains_In. apply list_contains_In in E.
      apply participants_spec in E. apply participants_spec.
      destruct E as [item [Hitem Hp]]. exists item. split; [|exact Hp].
      eapply Permutation_in; [symmetry; exact Hperm|exact Hitem].
    - apply list_contains_not_In. apply list_contains_not_In in E.
      intros Hin. apply E. apply participants_spec in Hin.
      apply participants_spec.
      destruct Hin as [item [Hitem Hp]]. exists item. split; [|exact Hp].
      eapply Permutation_in; [exact Hperm|exact Hitem]. }
  rewrite C. unfold with_surcharge.
  now rewrite (base_share_Permutation p Hperm), Hsub, Htax, Htip.
Qed.

End Exact_extras.

(** ** Assignment: invariants and the assignment buttons *)

Lemma remove_first_absent (p : str) (l : list str) :
  list_contains p l = false -> remove_first p l = l.
Proof.
  unfold list_contains. induction l as [|q l IH]; simpl; [reflexivity|].
  destruct (str_eqb p q); simpl; [discriminate|].
  intros Hp. now rewrite IH.
Qed.

Lemma remove_first_snoc (p : str) (l : list str) :
  list_contains p l = false -> remove_first p (l ++ [p]) = l.
Proof.
  unfold list_contains. induction l as [|q l IH]; simpl.
  - now rewrite str_eqb_refl.
  - destruct (str_eqb p q); simpl; [discriminate|].
    intros Hp. now rewrite IH.
Qed.

Lemma list_contains_app (q : str) (l1 l2 : list str) :
  list_contains q (l1 ++ l2) = list_contains q l1 || list_contains q l2.
Proof. unfold list_contains. apply existsb_app. Qed.

Lemma list_contains_remove_first_other (p q : str) (l : list str) :
  str_eqb q p = false ->
  list_contains q (remove_first p l) = list_contains q l.
Proof.
  intros Hqp. unfold list_contains.
  induction l as [|x l IH]; simpl; [reflexivity|].
  destruct (str_eqb p x) eqn:E; simpl.
  - apply str_eqb_eq in E. subst x. now rewrite Hqp.
  - now rewrite IH.
Qed.

Lemma In_remove_first (p q : str) (l : list str) :
  In q (remove_first p l) -> In q l.
Proof.
  induction l as [|x l IH]; simpl; [tauto|].
  destruct (str_eqb p x); simpl; tauto.
Qed.

Lemma NoDup_remove_first (p : str) (l : list str) :
  NoDup l -> NoDup (remove_first p l).
Proof.
  induction 1 as [|x l Hx Hl IH]; simpl; [constructor|].
  destruct (str_eqb p x); [assumption|].
  constructor; [|assumption]. intros Hin. apply Hx.
  eapply In_remove_first; eauto.
Qed.

Lemma list_contains_remove_first_same (p : str) (l : list str) :
  NoDup l -> list_contains p (remove_first p l) = false.
Proof.
  induction 1 as [|x l Hx Hl IH]; simpl; [reflexivity|].
  destruct (str_eqb p x) eqn:E.
  - apply str_eqb_eq in E. subst x. now apply list_contains_not_In.
  - unfold list_contains in *. simpl. now rewrite E, IH.
Qed.

Section Assignment_extras.

Context {A : Type} `{Number A}.

Lemma set_assigned_to_same (item : ReceiptItem A) :
  set_assigned_to (assigned_to item) item = item.
Proof. now destruct item. Qed.

Lemma assign_to_run (p : str) (item : ReceiptItem A) :
  assign_to p item
  = (Ok tt, set_assigned_to (assigned_with p (assigned_to item)) item).
Proof.
  unfold assign_to, assigned_with, bind, get, put, ret.
  destruct (list_contains p (assigned_to item)); simpl; [|reflexivity].
  now rewrite set_assigned_to_same.
Qed.

Lemma unassign_from_run (p : str) (item : ReceiptItem A) :
  unassign_from p item
  = (Ok tt, set_assigned_to (remove_first p (assigned_to item)) item).
Proof.
  unfold unassign_from, bind, get, put, ret, lift.
  destruct (list_contains p (assigned_to item)) eqn:E.
  - now rewrite list_remove_present.
  - now rewrite remove_first_absent, set_assigned_to_same.
Qed.

(** X2.  [assigned_to] is kept a set.  On an item whose
    [assigned_to] has no duplicate, [assign_to(p)] and
    [unassign_from(p)] leave a list with no duplicate; [p] is in the
    list after [assign_to(p)] and is not after [unassign_from(p)]; and
    whether another person is in the list is not changed by either. *)
Theorem assignment_keeps_sets (item : ReceiptItem A) (p : str) :
  NoDup (assigned_to item) ->
  NoDup (assigned_to (exec (assign_to p) item))
  /\ NoDup (assigned_to (exec (unassign_from p) item))
  /\ list_contains p (assigned_to (exec (assign_to p) item)) = true
  /\ list_contains p (assigned_to (exec (unassign_from p) item)) = false
  /\ forall q : str,
      str_eqb q p = false ->
      list_contains q (assigned_to (exec (assign_to p) item))
      = list_contains q (assigned_to item)
      /\ list_contains q (assigned_to (exec (unassign_from p) item))
         = list_contains q (assigned_to item).
Proof.
  intros Hnd. unfold exec. rewrite assign_to_run, unassign_from_run.
  cbn [snd assigned_to set_assigned_to]. unfold assigned_with.
  destruct (list_contains p (assigned_to item)) eqn:E.
  - repeat split; auto using NoDup_remove_first,
      list_contains_remove_first_same, list_contains_remove_first_other.
  - repeat split; auto using NoDup_remove_first,
      list_contains_remove_first_same, list_contains_remove_first_other.
    + apply NoDup_snoc; auto. now apply list_contains_not_In.
    + apply list_contains_snoc.
    + rewrite list_contains_app. unfold list_contains at 2. simpl.
      match goal with
      | Hq : str_eqb _ p = false |- _ => rewrite Hq
      end.
      now rewrite !orb_false_r.
Qed.

(** X3.  [unassign_from(p)] undoes [assign_to(p)]: on an item
    that is not assigned to [p], [assign_to(p)] followed by
    [unassign_from(p)] returns without raising and leaves the item as it
    was, the order of [assigned_to] included. *)
Theorem assign_then_unassign (item : ReceiptItem A) (p : str) :
  list_contains p (assigned_to item) = false ->
  bind (assign_to p) (fun _ => unassign_from p) item = (Ok tt, item).
Proof.
  intros Habsent. unfold bind. rewrite assign_to_run, unassign_from_run.
  cbn [assigned_to set_assigned_to]. unfold assigned_with.
  rewrite Habsent, remove_first_snoc by assumption.
  f_equal. now destruct item.
Qed.

End Assignment_extras.

Lemma dedup_fresh (l seen : list str) :
  NoDup (seen ++ l) -> dedup seen l = l.
Proof.
  revert seen. induction l as [|p l IH]; intros seen Hnd; simpl; [reflexivity|].
  assert (Hp : list_contains p seen = false).
  { apply list_contains_not_In. intros Hin.
    apply NoDup_remove_2 in Hnd. apply Hnd, in_or_app. now left. }
  rewrite Hp. f_equal. apply IH. now rewrite <- app_assoc.
Qed.

Lemma dedup_seen (l seen : list str) :
  (forall p, In p l -> In p seen) -> dedup seen l = [].
Proof.
  induction l as [|p l IH]; intros Hall; simpl; [reflexivity|].
  assert (Hp : list_contains p seen = true).
  { apply list_contains_In, Hall. now left. }
  rewrite Hp. apply IH. intros q Hq. apply Hall. now right.
Qed.

Lemma dedup_app (l1 l2 seen : list str) :
  dedup seen (l1 ++ l2)
  = dedup seen l1 ++ dedup (seen ++ dedup seen l1) l2.
Proof.
  revert seen. induction l1 as [|p l1 IH]; intros seen; simpl.
  - now rewrite app_nil_r.
  - destruct (list_contains p seen); [apply IH|].
    simpl. f_equal. rewrite IH. now rewrite <- app_assoc.
Qed.

Lemma assigned_with_all_fresh (people l : list str) :
  NoDup (l ++ people) -> assigned_with_all people l = l ++ people.
Proof.
  revert l. induction people as [|p people IH]; intros l Hnd; simpl.
  - now rewrite app_nil_r.
  - unfold assigned_with_all in *. simpl. unfold assigned_with at 2.
    assert (Hp : list_contains p l = false).
    { apply list_contains_not_In. intros Hin.
      apply NoDup_remove_2 in Hnd. apply Hnd, in_or_app. now left. }
    rewrite Hp, IH by now rewrite <- app_assoc.
    now rewrite <- app_assoc.
Qed.

Lemma In_assigned_with (p q : str) (l : list str) :
  In q (assigned_with p l) <-> q = p \/ In q l.
Proof.
  unfold assigned_with. destruct (list_contains p l) eqn:E.
  - apply list_contains_In in E. split; [tauto|].
    intros [Hq|Hq]; [now subst q|assumption].
  - rewrite in_app_iff. simpl. intuition.
Qed.

Lemma In_assigned_with_all (people l : list str) (q : str) :
  In q (assigned_with_all people l) <-> In q people \/ In q l.
Proof.
  unfold assigned_with_all. revert l.
  induction people as [|p people IH]; intros l; simpl; [tauto|].
  rewrite IH, In_assigned_with. intuition.
Qed.

Lemma NoDup_assigned_with (p : str) (l : list str) :
  NoDup l -> NoDup (assigned_with p l).
Proof.
  intros Hnd. unfold assigned_with.
  destruct (list_contains p l) eqn:E; [assumption|].
  apply NoDup_snoc; auto. now apply list_contains_not_In.
Qed.

Lemma NoDup_assigned_with_all (people l : list str) :
  NoDup l -> NoDup (assigned_with_all people l).
Proof.
  unfold assigned_with_all. revert l.
  induction people as [|p people IH]; intros l Hnd; simpl; [assumption|].
  apply IH. now apply NoDup_assigned_with.
Qed.

Section Button_extras.

Context {A : Type} `{Number A}.

Lemma visit_items_map {D : Type} (body : D -> M (ReceiptItem A) D)
    (f : ReceiptItem A -> ReceiptItem A) (d : D) (l : list (ReceiptItem A)) :
  (forall item, body d item = (Ok d, f item)) ->
  visit_items body d l = (Ok d, map f l).
Proof.
  intros Hbody. induction l as [|item l IH]; simpl; [reflexivity|].
  now rewrite Hbody, IH.
Qed.

Lemma for_items_map {D : Type} (body : D -> M (ReceiptItem A) D)
    (f : ReceiptItem A -> ReceiptItem A) (d : D) (r : Receipt A) :
  (forall item, body d item = (Ok d, f item)) ->
  for_items body d r = (Ok d, set_items (map f (items r)) r).
Proof.
  intros Hbody. unfold for_items. now rewrite (visit_items_map _ _ _ Hbody).
Qed.

Lemma assign_all_unassigned_run (p : str) (r : Receipt A) :
  assign_all_unassigned p r
  = (Ok tt,
     set_items
       (map (fun item =>
               if is_assigned item then item else set_assigned_to [p] item)
          (items r))
       r).
Proof.
  unfold assign_all_unassigned. apply for_items_map. intros item.
  unfold bind, get, is_assigned.
  destruct (assigned_to item) as [|q l] eqn:E; [|reflexivity].
  rewrite assign_to_run. unfold assigned_with. now rewrite E.
Qed.

(** X15.  The button "Assign All Unassigned Items" does not raise; it
    assigns the selected person, alone, to each item that was assigned
    to no one, and leaves the other items and the rest of the receipt as
    they were; no item is left unassigned. *)
Theorem assign_all_unassigned_spec (p : str) (r : Receipt A) :
  eval (assign_all_unassigned p) r = Ok tt
  /\ exec (assign_all_unassigned p) r
     = set_items
         (map (fun item =>
                 if is_assigned item then item else set_assigned_to [p] item)
            (items r))
         r
  /\ Forall (fun item => assigned_to item <> [])
       (items (exec (assign_all_unassigned p) r)).
Proof.
  unfold eval, exec. rewrite assign_all_unassigned_run. cbn [fst snd].
  split; [reflexivity|]. split; [reflexivity|].
  cbn [items set_items]. apply Forall_forall. intros item Hin.
  apply in_map_iff in Hin. destruct Hin as [item0 [E _]]. subst item.
  unfold is_assigned.
  destruct (assigned_to item0) eqn:E0; cbn; [discriminate|].
  rewrite E0. discriminate.
Qed.

Lemma for_each_assign_to (people : list str) (item : ReceiptItem A) :
  for_each people (fun _ person => assign_to person) tt item
  = (Ok tt,
     set_assigned_to (assigned_with_all people (assigned_to item)) item).
Proof.
  unfold assigned_with_all. revert item.
  induction people as [|p people IH]; intros item; simpl.
  - unfold ret. now rewrite set_assigned_to_same.
  - unfold bind. rewrite assign_to_run, IH. reflexivity.
Qed.

Lemma assign_all_to_everyone_run (people : list str) (r : Receipt A) :
  assign_all_to_everyone people r
  = (Ok tt,
     set_items
       (map (fun item =>
               set_assigned_to
                 (assigned_with_all people (assigned_to item)) item)
          (items r))
       r).
Proof.
  unfold assign_all_to_everyone. apply for_items_map. intros item.
  apply for_each_assign_to.
Qed.

(** X16.  The button "Assign All Items to Everyone" does not raise
    and keeps the items, their names, prices and quantities.  Afterwards
    an item is assigned to the people of the list and to those it was
    assigned to before, and to no one else: the button adds, it does not
    replace.  An [assigned_to] without duplicate stays so, and an item
    that was assigned to no one is assigned to the people in the order
    of the list. *)
Theorem assign_all_to_everyone_spec (people : list str) (r : Receipt A) :
  eval (assign_all_to_everyone people) r = Ok tt
  /\ List.length (items (exec (assign_all_to_everyone people) r))
     = List.length (items r)
  /\ forall (i : nat) (item : ReceiptItem A),
      nth_error (items r) i = Some item ->
      exists item' : ReceiptItem A,
        nth_error (items (exec (assign_all_to_everyone people) r)) i
        = Some item'
        /\ name item' = name item
        /\ price item' = price item
        /\ quantity item' = quantity item
        /\ (forall q : str,
               In q (assigned_to item')
               <-> In q people \/ In q (assigned_to item))
        /\ (NoDup (assigned_to item) -> NoDup (assigned_to item'))
        /\ (assigned_to item = [] -> NoDup people ->
            assigned_to item' = people).
Proof.
  unfold eval, exec. rewrite assign_all_to_everyone_run. cbn [fst snd].
  cbn [items set_items]. split; [reflexivity|]. split; [apply length_map|].
  intros i item Hi. eexists. split.
  - rewrite nth_error_map, Hi. reflexivity.
  - cbn [name price quantity assigned_to set_assigned_to].
    repeat split; try apply In_assigned_with_all.
    + apply NoDup_assigned_with_all.
    + intros Hnone Hnd. rewrite Hnone.
      now rewrite assigned_with_all_fresh.
Qed.

End Button_extras.

(** ** Splitting everything equally *)

Section Equal_split.

Context {A : Type} `{Number A}.

Lemma participants_shared (people : list str) (l : list (ReceiptItem A)) :
  NoDup people ->
  l <> [] ->
  Forall (fun item => assigned_to item = people) l ->
  participants l = people.
Proof.
  intros Hnd Hne Hall. unfold participants.
  destruct Hall as [|item l Hitem Hl]; [congruence|].
  cbn [flat_map]. rewrite Hitem, dedup_app, dedup_fresh by assumption.
  cbn [app]. rewrite dedup_seen; [apply app_nil_r|].
  intros p Hp. apply in_flat_map in Hp. destruct Hp as [item' [Hin Hp]].
  rewrite Forall_forall in Hl. now rewrite (Hl item' Hin) in Hp.
Qed.

Lemma shares_of_shared (people : list str) (l : list (ReceiptItem A))
    (p : str) :
  NoDup people ->
  In p people ->
  Forall (fun item => assigned_to item = people) l ->
  shares_of p l = map share l.
Proof.
  intros Hnd Hp Hall. rewrite shares_of_NoDup.
  - f_equal. apply forallb_filter_id. apply forallb_forall. intros item Hin.
    rewrite Forall_forall in Hall. rewrite (Hall item Hin).
    now apply list_contains_In.
  - eapply Forall_impl; [|exact Hall]. intros item E. cbn in E.
    now rewrite E.
Qed.

Lemma everyone_assigned (people : list str) (r : Receipt A) :
  NoDup people ->
  Forall (fun item => assigned_to item = []) (items r) ->
  Forall (fun item => assigned_to item = people)
    (items (exec (assign_all_to_everyone people) r)).
Proof.
  intros Hnd Hnone. unfold exec. rewrite assign_all_to_everyone_run.
  cbn [snd items set_items]. apply Forall_map.
  eapply Forall_impl; [|exact Hnone]. intros item E. cbn in E.
  cbn [assigned_to set_assigned_to]. rewrite E.
  now apply assigned_with_all_fresh.
Qed.

(** X17.  "Split Everything Equally".  For distinct people and a
    receipt on which nothing is assigned yet, the button "Assign All
    Items to Everyone" followed by [get_person_totals()] does not raise,
    and all the amounts returned are equal, in binary64 as well as in
    exact arithmetic; when the receipt has an item, the people of the
    result are the people of the list, in order. *)
Theorem split_everything_equally (people : list str) (r : Receipt A) :
  NoDup people ->
  Forall (fun item => assigned_to item = []) (items r) ->
  exists d : dict A,
    eval (bind (assign_all_to_everyone people) (fun _ => get_person_totals)) r
    = Ok d
    /\ (items r <> [] -> keys d = people)
    /\ forall (p q : str) (v w : A),
        dict_getitem p d = Ok v -> dict_getitem q d = Ok w -> v = w.
Proof.
  intros Hnd Hnone.
  pose proof (everyone_assigned r Hnd Hnone) as Hall.
  unfold eval, bind. unfold exec in Hall.
  rewrite assign_all_to_everyone_run in *. cbn [snd] in Hall.
  rewrite get_person_totals_run. cbn [fst].
  set (r' := set_items _ r) in *.
  exists (person_totals r'). split; [reflexivity|]. split.
  - intros Hne. rewrite keys_person_totals.
    apply participants_shared; auto.
    subst r'. cbn [items set_items]. intros E. apply Hne.
    now apply map_eq_nil in E.
  - intros p q v w. rewrite person_totals_closed_form, !dict_getitem_tabulate.
    destruct (list_contains p (participants (items r'))) eqn:Ep;
      [|discriminate].
    destruct (list_contains q (participants (items r'))) eqn:Eq;
      [|discriminate].
    assert (Hin : forall x, list_contains x (participants (items r')) = true ->
                            In x people).
    { intros x Hx. apply list_contains_In, participants_spec in Hx.
      destruct Hx as [item [Hitem Hx]].
      rewrite Forall_forall in Hall. now rewrite (Hall item Hitem) in Hx. }
    unfold base_share.
    rewrite (shares_of_shared p Hnd (Hin p Ep) Hall).
    rewrite (shares_of_shared q Hnd (Hin q Eq) Hall).
    intros Hv Hw. congruence.
Qed.

End Equal_split.

Section Exact_equal_split.

Local Open Scope Qc_scope.

Lemma py_sum_all_equal (f : str -> Qc) (v : Qc) (l : list str) :
  (forall x, In x l -> f x = v) ->
  py_sum (map f l) = of_int (Z.of_nat (List.length l)) * v.
Proof.
  intros Hall. rewrite <- (py_sum_constant v l). f_equal.
  apply map_ext_in. exact Hall.
Qed.

Lemma filter_is_assigned_all (people : list str)
    (l : list (ReceiptItem Qc)) :
  people <> [] ->
  Forall (fun item => assigned_to item = people) l ->
  filter is_assigned l = l.
Proof.
  intros Hne Hall. apply forallb_filter_id, forallb_forall. intros item Hin.
  rewrite Forall_forall in Hall. unfold is_assigned.
  rewrite (Hall item Hin). now destruct people.
Qed.

(** X18.  The amount of an equal split, in exact arithmetic.  For
    distinct people, at least one, and a receipt on which nothing is
    assigned yet, with [subtotal > 0] the sum of the prices of the
    items: after "Assign All Items to Everyone" each person owes the
    same part of [subtotal + tax + tip], the number of people times the
    amount being this total. *)
Theorem equal_split_amount (people : list str) (r : Receipt Qc) :
  NoDup people ->
  people <> [] ->
  Forall (fun item => assigned_to item = []) (items r) ->
  ltb zero (subtotal r) = true ->
  subtotal r = py_sum (map (@price Qc) (items r)) ->
  exists d : dict Qc,
    eval (bind (assign_all_to_everyone people) (fun _ => get_person_totals)) r
    = Ok d
    /\ keys d = people
    /\ forall (p : str) (v : Qc),
        dict_getitem p d = Ok v ->
        of_int (Z.of_nat (List.length people)) * v
        = subtotal r + tax r + tip r.
Proof.
  intros Hnd Hpeople Hnone Hpos Hsub.
  pose proof (everyone_assigned r Hnd Hnone) as Hall.
  unfold eval, bind. unfold exec in Hall.
  rewrite assign_all_to_everyone_run in *. cbn [snd] in Hall.
  rewrite get_person_totals_run. cbn [fst].
  set (r' := set_items _ r) in *.
  assert (Hitems : items r <> []).
  { intros E. rewrite E in Hsub. cbn in Hsub. rewrite Hsub in Hpos.
    discriminate. }
  assert (Hitems' : items r' <> []).
  { subst r'. cbn [items set_items]. intros E. apply Hitems.
    now apply map_eq_nil in E. }
  assert (Hkeys : participants (items r') = people)
    by now apply participants_shared.
  exists (person_totals r'). split; [reflexivity|].
  split; [now rewrite keys_person_totals|].
  intros p v Hv.
  pose proof (py_sum_person_totals r') as Hsum.
  assert (Hprices : map (@price Qc) (items r') = map (@price Qc) (items r)).
  { subst r'. cbn [items set_items]. rewrite map_map. reflexivity. }
  rewrite (filter_is_assigned_all Hpeople Hall), Hprices in Hsum.
  change (subtotal r') with (subtotal r) in *.
  change (tax r') with (tax r) in *. change (tip r') with (tip r) in *.
  rewrite Hpos, <- Hsub in Hsum.
  rewrite person_totals_closed_form, Hkeys in Hsum, Hv.
  change (subtotal r') with (subtotal r) in Hsum, Hv.
  rewrite Hpos in Hsum, Hv.
  rewrite dict_getitem_tabulate in Hv.
  destruct (list_contains p people) eqn:Ep; [|discriminate].
  injection Hv as Hv.
  unfold values in Hsum. rewrite map_map in Hsum. cbn [snd] in Hsum.
  rewrite (py_sum_all_equal _ (v := v)) in Hsum.
  - rewrite Hsum. field. intros E. rewrite E in Hpos. discriminate.
  - intros q Hq. rewrite <- Hv. unfold base_share.
    apply list_contains_In in Ep.
    now rewrite (shares_of_shared q Hnd Hq Hall),
      (shares_of_shared p Hnd Ep Hall).
Qed.

End Exact_equal_split.

(** ** The list of people *)

Section People_facts.

Context `{Interpreter}.

Lemma add_person_run (new_person : str) (people : list str) :
  add_person new_person people
  = (Ok tt,
     if is_empty new_person then people else assigned_with new_person people).
Proof.
  unfold add_person, assigned_with, bind, get, put, ret.
  destruct (is_empty new_person); simpl; [reflexivity|].
  now destruct (list_contains new_person people).
Qed.

Lemma add_all_people_run (people_text : str) (people : list str) :
  add_all_people people_text people
  = (Ok tt, assigned_with_all (new_people people_text) people).
Proof.
  unfold add_all_people.
  destruct (is_empty people_text) eqn:E.
  - destruct people_text; [|discriminate]. reflexivity.
  - cbn [negb]. unfold assigned_with_all.
    generalize (new_people people_text). intros l. revert people.
    induction l as [|p l IH]; intros people; simpl; [reflexivity|].
    unfold bind at 1. unfold bind at 1, get at 1. unfold assigned_with at 2.
    destruct (list_contains p people); simpl; apply IH.
Qed.

Lemma lstrip_chars (s : str) (c : char) :
  In c (list_of_str (lstrip s)) -> In c (list_of_str s).
Proof.
  induction s as [|a s IH]; simpl; [tauto|].
  destruct (is_space a); simpl; tauto.
Qed.

Lemma rstrip_chars (s : str) (c : char) :
  In c (list_of_str (rstrip s)) -> In c (list_of_str s).
Proof.
  induction s as [|a s IH]; simpl; [tauto|].
  destruct (is_space a && is_empty (rstrip s)); simpl; tauto.
Qed.

Lemma strip_chars (s : str) (c : char) :
  In c (list_of_str (strip s)) -> In c (list_of_str s).
Proof. intros Hc. now apply lstrip_chars, rstrip_chars. Qed.

Lemma rstrip_idempotent (s : str) : rstrip (rstrip s) = rstrip s.
Proof.
  induction s as [|a s IH]; simpl; [reflexivity|].
  destruct (is_space a && is_empty (rstrip s)) eqn:E; simpl; [reflexivity|].
  now rewrite IH, E.
Qed.

Lemma lstrip_rstrip (s : str) :
  lstrip s = s -> lstrip (rstrip s) = rstrip s.
Proof.
  destruct s as [|a s]; simpl; [reflexivity|].
  destruct (is_space a) eqn:E.
  - intros Hs. exfalso.
    assert (L : forall t, (str_length (lstrip t) <= str_length t)%nat).
    { induction t as [|b t IH]; simpl; [lia|].
      destruct (is_space b); simpl; lia. }
    pose proof (L s) as Hl. rewrite Hs in Hl. simpl in Hl. lia.
  - intros _. simpl. now rewrite E.
Qed.

Lemma lstrip_idempotent (s : str) : lstrip (lstrip s) = lstrip s.
Proof.
  induction s as [|a s IH]; simpl; [reflexivity|].
  destruct (is_space a) eqn:E; [assumption|]. simpl. now rewrite E.
Qed.

Lemma strip_idempotent (s : str) : strip (strip s) = strip s.
Proof.
  unfold strip.
  rewrite (@lstrip_rstrip (lstrip s)) by apply lstrip_idempotent.
  apply rstrip_idempotent.
Qed.

Lemma split_comma_not_nil (s : str) : split_comma s <> [].
Proof.
  induction s as [|a s IH]; simpl; [discriminate|].
  destruct (char_eqb a ","); [discriminate|].
  destruct (split_comma s); [contradiction|discriminate].
Qed.

Lemma split_comma_no_comma (s piece : str) :
  In piece (split_comma s) -> ~ In ","%chr (list_of_str piece).
Proof.
  revert piece. induction s as [|a s IH]; simpl; intros piece.
  - intros [E|[]]. subst piece. simpl. tauto.
  - destruct (char_eqb a ",") eqn:E.
    + intros [Hp|Hp]; [subst piece; simpl; tauto|auto].
    + pose proof (split_comma_not_nil s) as Hne.
      destruct (split_comma s) as [|first pieces]; [contradiction|].
      intros [Hp|Hp].
      * subst piece. simpl. intros [Ha|Hin].
        -- subst a. discriminate.
        -- apply (IH first); [now left|assumption].
      * apply IH. now right.
Qed.

Lemma list_pop_In (i : nat) (l rest : list str) (y q : str) :
  list_pop i l = Some (y, rest) -> In q rest -> In q l.
Proof.
  revert i rest. induction l as [|x l IH]; intros i rest;
    [destruct i; discriminate|].
  destruct i as [|i]; simpl.
  - intros E. injection E as _ E. subst rest. now right.
  - destruct (list_pop i l) as [[y' rest']|] eqn:E'; [|discriminate].
    intros E. injection E as Ey E. subst rest y'.
    intros [Hq|Hq]; [now left|right]. eapply IH; eauto.
Qed.

Lemma list_pop_NoDup (i : nat) (l rest : list str) (y : str) :
  list_pop i l = Some (y, rest) -> NoDup l -> NoDup rest.
Proof.
  revert i rest. induction l as [|x l IH]; intros i rest;
    [destruct i; discriminate|].
  destruct i as [|i]; simpl.
  - intros E Hnd. injection E as _ E. subst rest. now inversion Hnd.
  - destruct (list_pop i l) as [[y' rest']|] eqn:E'; [|discriminate].
    intros E Hnd. injection E as Ey E. subst rest y'.
    inversion Hnd as [|? ? Hx Hl]; subst. constructor.
    + intros Hin. apply Hx. eapply list_pop_In; eauto.
    + eapply IH; eauto.
Qed.

Lemma add_person_distinct (new_person : str) (people : list str) :
  NoDup people ->
  ~ In EmptyString people ->
  NoDup (exec (add_person new_person) people)
  /\ ~ In EmptyString (exec (add_person new_person) people).
Proof.
  intros Hnd Hne. unfold exec. rewrite add_person_run. cbn [snd].
  destruct new_person as [|a n]; cbn [is_empty]; [now split|].
  split; [now apply NoDup_assigned_with|].
  rewrite In_assigned_with. intros [E|Hin]; [discriminate|contradiction].
Qed.

Lemma add_all_people_distinct (people_text : str) (people : list str) :
  NoDup people ->
  ~ In EmptyString people ->
  NoDup (exec (add_all_people people_text) people)
  /\ ~ In EmptyString (exec (add_all_people people_text) people).
Proof.
  intros Hnd Hne. unfold exec. rewrite add_all_people_run. cbn [snd].
  split; [now apply NoDup_assigned_with_all|].
  rewrite In_assigned_with_all. intros [Hin|Hin]; [|contradiction].
  unfold new_people in Hin. apply in_map_iff in Hin.
  destruct Hin as [p [E Hp]]. apply filter_In in Hp.
  destruct Hp as [_ Hp]. rewrite E in Hp. discriminate.
Qed.

Lemma remove_person_distinct (i : nat) (people people' : list str) :
  NoDup people ->
  ~ In EmptyString people ->
  remove_person i people = Some people' ->
  NoDup people' /\ ~ In EmptyString people'.
Proof.
  intros Hnd Hne. unfold remove_person.
  destruct (list_pop i people) as [[y rest]|] eqn:Epop; [|discriminate].
  intros E. injection E as E. subst people'. split.
  - eapply list_pop_NoDup; eauto.
  - intros Hin. apply Hne. eapply list_pop_In; eauto.
Qed.

(** X12.  The list of people stays a list of distinct names that
    are not empty.  From such a list, the button "Add" with any input,
    the button "Add All" with any input and the removal of the person at
    any index in range leave such a list, and the first two never
    raise. *)
Theorem people_stay_distinct (people : list str) :
  NoDup people ->
  ~ In EmptyString people ->
  (forall new_person : str,
      eval (add_person new_person) people = Ok tt
      /\ NoDup (exec (add_person new_person) people)
      /\ ~ In EmptyString (exec (add_person new_person) people))
  /\ (forall people_text : str,
         eval (add_all_people people_text) people = Ok tt
         /\ NoDup (exec (add_all_people people_text) people)
         /\ ~ In EmptyString (exec (add_all_people people_text) people))
  /\ (forall (i : nat) (people' : list str),
         remove_person i people = Some people' ->
         NoDup people' /\ ~ In EmptyString people').
Proof.
  intros Hnd Hne. split; [|split].
  - intros new_person. split; [|now apply add_person_distinct].
    unfold eval. now rewrite add_person_run.
  - intros people_text. split; [|now apply add_all_people_distinct].
    unfold eval. now rewrite add_all_people_run.
  - intros i people'. now apply remove_person_distinct.
Qed.

(** X13.  The names "Add All" adds are trimmed.  Every name in the
    list after "Add All" was in the list before, or has no white space
    before or after it, is not empty and has no comma. *)
Theorem added_names_are_trimmed (people_text : str) (people : list str)
    (q : str) :
  In q (exec (add_all_people people_text) people) ->
  In q people
  \/ (strip q = q
      /\ q <> EmptyString
      /\ ~ In ","%chr (list_of_str q)).
Proof.
  unfold exec. rewrite add_all_people_run. cbn [snd].
  rewrite In_assigned_with_all. intros [Hin|Hin]; [right|now left].
  unfold new_people in Hin. apply in_map_iff in Hin.
  destruct Hin as [p [E Hp]]. apply filter_In in Hp.
  destruct Hp as [Hp Hne]. subst q. split; [apply strip_idempotent|]. split.
  - intros E. rewrite E in Hne. discriminate.
  - intros Hc. apply strip_chars in Hc.
    now apply (@split_comma_no_comma people_text p).
Qed.

End People_facts.

(** ** The check boxes *)

Lemma length_map_indexed {X Y : Type} (f : nat -> X -> Y) (i : nat)
    (l : list X) :
  List.length (map_indexed f i l) = List.length l.
Proof.
  revert i. induction l as [|x l IH]; intros i; simpl; [reflexivity|].
  now rewrite IH.
Qed.

Lemma nth_error_map_indexed {X Y : Type} (f : nat -> X -> Y) (i k : nat)
    (l : list X) (x : X) :
  nth_error l k = Some x ->
  nth_error (map_indexed f i l) k = Some (f (i + k)%nat x).
Proof.
  revert i k. induction l as [|y l IH]; intros i k; [destruct k; discriminate|].
  destruct k as [|k]; simpl.
  - intros E. injection E as E. subst y. now rewrite Nat.add_0_r.
  - intros E. rewrite (IH (S i) k E). f_equal. f_equal. lia.
Qed.

Lemma boxes_applied_spec (checkbox : nat -> bool) (people : list str) :
  forall (j : nat) (l : list str),
    NoDup people ->
    NoDup l ->
    NoDup (boxes_applied checkbox j people l)
    /\ (forall (k : nat) (person : str),
           nth_error people k = Some person ->
           list_contains person (boxes_applied checkbox j people l)
           = checkbox (j + k)%nat)
    /\ (forall q : str,
           ~ In q people ->
           list_contains q (boxes_applied checkbox j people l)
           = list_contains q l).
Proof.
  induction people as [|p people IH]; intros j l Hpeople Hl; simpl.
  - split; [assumption|]. split; [|reflexivity].
    intros k person E. destruct k; discriminate.
  - inversion Hpeople as [|? ? Hp Hrest]; subst.
    set (l1 := if checkbox j then assigned_with p l else remove_first p l).
    assert (Hl1 : NoDup l1).
    { subst l1. destruct (checkbox j);
        [now apply NoDup_assigned_with|now apply NoDup_remove_first]. }
    assert (Hp1 : list_contains p l1 = checkbox j).
    { subst l1. destruct (checkbox j).
      - apply list_contains_In, In_assigned_with. now left.
      - now apply list_contains_remove_first_same. }
    assert (Hq1 : forall q, q <> p -> list_contains q l1 = list_contains q l).
    { intros q Hqp. subst l1.
      assert (Eqp : str_eqb q p = false) by now apply str_eqb_neq.
      destruct (checkbox j).
      - unfold assigned_with. destruct (list_contains p l); [reflexivity|].
        rewrite list_contains_app. unfold list_contains at 2. simpl.
        now rewrite Eqp, !orb_false_r.
      - now apply list_contains_remove_first_other. }
    destruct (IH (S j) l1 Hrest Hl1) as [IH1 [IH2 IH3]].
    split; [assumption|]. split.
    + intros k person E. destruct k as [|k]; simpl in E.
      * injection E as E. subst person.
        rewrite IH3 by assumption. now rewrite Nat.add_0_r.
      * rewrite (IH2 k person E). f_equal. lia.
    + intros q Hq. rewrite IH3 by tauto. apply Hq1. intros E. subst q. tauto.
Qed.

Section Checkbox_extras.

Context {A : Type} `{Number A}.

Lemma for_each_checkboxes (checkbox : nat -> bool) (people : list str)
    (j : nat) (item : ReceiptItem A) :
  for_each people
    (fun j person =>
       bind get
         (fun self =>
            bind
              (if checkbox j then
                 if negb (list_contains person (assigned_to self))
                 then assign_to person
                 else ret tt
               else
                 if list_contains person (assigned_to self)
                 then unassign_from person
                 else ret tt)
              (fun _ => ret (S j))))
    j item
  = (Ok (j + List.length people)%nat,
     set_assigned_to (boxes_applied checkbox j people (assigned_to item)) item).
Proof.
  revert j item. induction people as [|p people IH]; intros j item; simpl.
  - unfold ret. now rewrite Nat.add_0_r, set_assigned_to_same.
  - unfold bind at 1. unfold bind at 1, get at 1. unfold bind at 1.
    assert (E : (if checkbox j then
                   if negb (list_contains p (assigned_to item))
                   then assign_to p
                   else ret tt
                 else
                   if list_contains p (assigned_to item)
                   then unassign_from p
                   else ret tt) item
                = (Ok tt,
                   set_assigned_to
                     (if checkbox j then assigned_with p (assigned_to item)
                      else remove_first p (assigned_to item))
                     item)).
    { unfold assigned_with.
      destruct (checkbox j);
        destruct (list_contains p (assigned_to item)) eqn:C; cbn [negb];
        rewrite ?assign_to_run, ?unassign_from_run;
        unfold ret, assigned_with;
        rewrite ?C, ?remove_first_absent, ?set_assigned_to_same by assumption;
        reflexivity. }
    rewrite E. unfold ret at 1. rewrite IH.
    cbn [assigned_to set_assigned_to].
    replace (S j + List.length people)%nat
      with (j + S (List.length people))%nat by lia.
    reflexivity.
Qed.

Lemma apply_checkboxes_run (checkbox : nat -> bool) (people : list str)
    (item : ReceiptItem A) :
  apply_checkboxes people checkbox item
  = (Ok tt,
     set_assigned_to (boxes_applied checkbox O people (assigned_to item)) item).
Proof.
  unfold apply_checkboxes. unfold bind at 1.
  now rewrite for_each_checkboxes.
Qed.

Lemma visit_items_indexed (body : nat -> M (ReceiptItem A) nat)
    (f : nat -> ReceiptItem A -> ReceiptItem A) (i : nat)
    (l : list (ReceiptItem A)) :
  (forall i item, body i item = (Ok (S i), f i item)) ->
  visit_items body i l = (Ok (i + List.length l)%nat, map_indexed f i l).
Proof.
  intros Hbody. revert i. induction l as [|item l IH]; intros i; simpl.
  - now rewrite Nat.add_0_r.
  - rewrite Hbody, IH. f_equal. f_equal. lia.
Qed.

Lemma apply_all_checkboxes_run (checkbox : nat -> nat -> bool)
    (people : list str) (r : Receipt A) :
  apply_all_checkboxes people checkbox r
  = (Ok tt,
     set_items
       (map_indexed
          (fun i item =>
             set_assigned_to
               (boxes_applied (checkbox i) O people (assigned_to item)) item)
          O (items r))
       r).
Proof.
  unfold apply_all_checkboxes. unfold bind at 1. unfold for_items.
  rewrite (visit_items_indexed
             (fun i => bind (apply_checkboxes people (checkbox i))
                         (fun _ => ret (S i)))
             (fun i item =>
                set_assigned_to
                  (boxes_applied (checkbox i) O people (assigned_to item))
                  item)).
  - reflexivity.
  - intros i item. unfold bind. now rewrite apply_checkboxes_run.
Qed.

(** X14.  The check boxes decide the assignment.  With at least one
    person, distinct people and no duplicate in any [assigned_to], a
    pass over the check boxes of step 3 does not raise; it keeps the
    items, their names, prices and quantities; afterwards the [j]-th
    person is assigned to the [i]-th item if and only if the box of item
    [i] and person [j] is ticked; every [assigned_to] is still without
    duplicate; and a person of [assigned_to] who is not in the list of
    people stays assigned, whatever the boxes say. *)
Theorem checkboxes_decide_assignment (checkbox : nat -> nat -> bool)
    (people : list str) (r : Receipt A) :
  people <> [] ->
  NoDup people ->
  Forall (fun item => NoDup (assigned_to item)) (items r) ->
  eval (apply_all_checkboxes people checkbox) r = Ok tt
  /\ List.length (items (exec (apply_all_checkboxes people checkbox) r))
     = List.length (items r)
  /\ forall (i : nat) (item : ReceiptItem A),
      nth_error (items r) i = Some item ->
      exists item' : ReceiptItem A,
        nth_error (items (exec (apply_all_checkboxes people checkbox) r)) i
        = Some item'
        /\ name item' = name item
        /\ price item' = price item
        /\ quantity item' = quantity item
        /\ NoDup (assigned_to item')
        /\ (forall (j : nat) (person : str),
               nth_error people j = Some person ->
               list_contains person (assigned_to item') = checkbox i j)
        /\ (forall q : str,
               ~ In q people ->
               list_contains q (assigned_to item')
               = list_contains q (assigned_to item)).
Proof.
  intros _.
  intros Hpeople Hsets. unfold eval, exec.
  rewrite apply_all_checkboxes_run. cbn [fst snd items set_items].
  split; [reflexivity|]. split; [apply length_map_indexed|].
  intros i item Hi. eexists. split.
  - rewrite (@nth_error_map_indexed _ _ _ O i (items r) item Hi).
    reflexivity.
  - cbn [name price quantity assigned_to set_assigned_to Nat.add].
    rewrite Forall_forall in Hsets.
    pose proof (Hsets item (nth_error_In _ _ Hi)) as Hitem.
    destruct (@boxes_applied_spec (checkbox i) people O (assigned_to item)
                Hpeople Hitem) as [S1 [S2 S3]].
    repeat split; assumption.
Qed.

End Checkbox_extras.

(** ** More on the normalizer *)

Lemma last_tagged_snoc (tag : str) (fields : list ExpenseField)
    (field : ExpenseField) :
  last_tagged tag (fields ++ [field])
  = if type_is field tag then Some field else last_tagged tag fields.
Proof. unfold last_tagged. now rewrite fold_left_app. Qed.

Lemma last_tagged_app (tag : str) (l1 l2 : list ExpenseField) :
  last_tagged tag (l1 ++ l2)
  = match last_tagged tag l2 with
    | Some field => Some field
    | None => last_tagged tag l1
    end.
Proof.
  induction l2 as [|field l2 IH] using rev_ind.
  - now rewrite app_nil_r.
  - rewrite app_assoc, !last_tagged_snoc, IH.
    now destruct (type_is field tag).
Qed.

Lemma type_is_exclusive (field : ExpenseField) (tag tag' : str) :
  str_eqb tag tag' = false ->
  type_is field tag = true -> type_is field tag' = false.
Proof.
  unfold type_is. destruct (Type_Text field) as [t|]; [|discriminate].
  intros Hne Ht. apply str_eqb_eq in Ht. subst t. exact Hne.
Qed.

Section Summary_fields.

Context {A : Type} `{Number A} `{Interpreter}.
Variable limit : option nat.

(** A field of the receipt that the summary field of type [tag] sets to
    [value field], and that nothing else in the parser sets. *)
Variable X : Type.
Variable proj : Receipt A -> X.
Variable tag : str.
Variable value : ExpenseField -> X.

Hypothesis proj_summary_step :
  forall (r : Receipt A) (field : ExpenseField),
    proj (summary_step r field)
    = if type_is field tag then value field else proj r.

Hypothesis proj_set_items :
  forall (r : Receipt A) (l : list (ReceiptItem A)),
    proj (set_items l r) = proj r.

Lemma proj_summary_steps (l : list ExpenseField) (r : Receipt A) :
  proj (fold_left summary_step l r)
  = match last_tagged tag l with
    | Some field => value field
    | None => proj r
    end.
Proof.
  induction l as [|field l IH] using rev_ind; [reflexivity|].
  rewrite fold_left_app, last_tagged_snoc. cbn [fold_left].
  rewrite proj_summary_step, IH.
  now destruct (type_is field tag).
Qed.

Lemma proj_line_item_steps (l : list LineItem) (r : Receipt A) :
  proj (fold_left (line_item_step limit) l r) = proj r.
Proof.
  revert r. induction l as [|x l IH]; intros r; simpl; [reflexivity|].
  rewrite IH. unfold line_item_step.
  destruct (accepted (scanned limit x)); [apply proj_set_items|reflexivity].
Qed.

Lemma proj_group_steps (l : list LineItemGroup) (r : Receipt A) :
  proj (fold_left (group_step limit) l r) = proj r.
Proof.
  revert r. induction l as [|g l IH]; intros r; simpl; [reflexivity|].
  rewrite IH. apply proj_line_item_steps.
Qed.

Lemma proj_document_steps (l : list ExpenseDocument) (r : Receipt A) :
  proj (fold_left (document_step limit) l r)
  = match last_tagged tag (flat_map (fun doc => opt_list (SummaryFields doc)) l)
    with
    | Some field => value field
    | None => proj r
    end.
Proof.
  revert r. induction l as [|doc l IH]; intros r; simpl; [reflexivity|].
  rewrite IH, last_tagged_app. unfold document_step.
  rewrite proj_group_steps, proj_summary_steps.
  now destruct (last_tagged tag _).
Qed.

End Summary_fields.

Section Parser_extras.

Context {A : Type} `{Number A} `{Interpreter}.
Variable limit : option nat.

Local Open Scope str_scope.
Local Open Scope list_scope.

Lemma documents_receipt_fold (response : Response) :
  documents_receipt limit response
  = fold_left (document_step limit) (opt_list (ExpenseDocuments response))
      new_Receipt.
Proof.
  unfold documents_receipt, exec. now rewrite parse_documents_run.
Qed.

Lemma summary_step_name (r : Receipt A) (field : ExpenseField) :
  restaurant_name (summary_step r field)
  = if type_is field "VENDOR_NAME" then value_text field ""
    else restaurant_name r.
Proof.
  unfold summary_step.
  repeat (destruct (type_is field _); [reflexivity|]). reflexivity.
Qed.

Lemma summary_step_date (r : Receipt A) (field : ExpenseField) :
  date (summary_step r field)
  = if type_is field "RECEIPT_DATE" then value_text field "" else date r.
Proof.
  unfold summary_step. destruct (type_is field "RECEIPT_DATE") eqn:E.
  - now rewrite (@type_is_exclusive field "RECEIPT_DATE" "VENDOR_NAME"
                   eq_refl E).
  - repeat match goal with
           | |- context [if type_is field ?t then _ else _] =>
               destruct (type_is field t); [reflexivity|]
           end.
    reflexivity.
Qed.

Lemma summary_step_subtotal (r : Receipt A) (field : ExpenseField) :
  subtotal (summary_step r field)
  = if type_is field "SUBTOTAL"
    then price_of_text (value_text field "0.0") else subtotal r.
Proof.
  unfold summary_step. destruct (type_is field "SUBTOTAL") eqn:E.
  - rewrite (@type_is_exclusive field "SUBTOTAL" "VENDOR_NAME" eq_refl E).
    now rewrite (@type_is_exclusive field "SUBTOTAL" "RECEIPT_DATE"
                   eq_refl E).
  - repeat match goal with
           | |- context [if type_is field ?t then _ else _] =>
               destruct (type_is field t); [reflexivity|]
           end.
    reflexivity.
Qed.

Lemma summary_step_tax (r : Receipt A) (field : ExpenseField) :
  tax (summary_step r field)
  = if type_is field "TAX"
    then price_of_text (value_text field "0.0") else tax r.
Proof.
  unfold summary_step. destruct (type_is field "TAX") eqn:E.
  - rewrite (@type_is_exclusive field "TAX" "VENDOR_NAME" eq_refl E).
    rewrite (@type_is_exclusive field "TAX" "RECEIPT_DATE" eq_refl E).
    now rewrite (@type_is_exclusive field "TAX" "SUBTOTAL" eq_refl E).
  - repeat match goal with
           | |- context [if type_is field ?t then _ else _] =>
               destruct (type_is field t); [reflexivity|]
           end.
    reflexivity.
Qed.

Lemma summary_step_tip (r : Receipt A) (field : ExpenseField) :
  tip (summary_step r field) = tip r.
Proof.
  unfold summary_step.
  repeat (destruct (type_is field _); [reflexivity|]). reflexivity.
Qed.

Lemma documents_receipt_tip (response : Response) :
  tip (documents_receipt limit response) = @zero A _.
Proof.
  rewrite documents_receipt_fold.
  change (@zero A _) with (tip (@new_Receipt A _)).
  generalize (@new_Receipt A _).
  induction (opt_list (ExpenseDocuments response)) as [|doc l IH];
    intros r; simpl; [reflexivity|].
  rewrite IH. unfold document_step.
  rewrite (@proj_group_steps A _ _ limit A (@tip A) (fun _ _ => eq_refl)).
  generalize r.
  induction (opt_list (SummaryFields doc)) as [|field fields IHf];
    intros r'; simpl; [reflexivity|].
  now rewrite IHf, summary_step_tip.
Qed.

Lemma documents_receipt_subtotal (response : Response) :
  subtotal (documents_receipt limit response)
  = match last_tagged "SUBTOTAL" (summary_fields_of response) with
    | Some field => price_of_text (value_text field "0.0")
    | None => zero
    end.
Proof.
  rewrite documents_receipt_fold.
  exact (@proj_document_steps A _ _ limit _ (@subtotal A) "SUBTOTAL"
           (fun field => price_of_text (value_text field "0.0"))
           summary_step_subtotal (fun _ _ => eq_refl)
           (opt_list (ExpenseDocuments response)) new_Receipt).
Qed.

(** X8.  The summary fields of a response.  The parser returns a
    receipt without raising.  Its restaurant name is the value of the
    last summary field of type VENDOR_NAME among all the documents, its
    date that of the last RECEIPT_DATE, its tax the price read in the
    last TAX, and the subtotal before the fallback the price read in the
    last SUBTOTAL; each is the default of [Receipt()] when no field has
    the type.  An earlier field of the same type is overwritten, and no
    line item changes these attributes.  The tip is always 0.0. *)
Theorem last_summary_field_wins (response : Response) :
  exists receipt : Receipt A,
    parse_textract_response limit response = Ok receipt
    /\ restaurant_name receipt
       = match last_tagged "VENDOR_NAME" (summary_fields_of response) with
         | Some field => value_text field ""
         | None => ""
         end
    /\ date receipt
       = match last_tagged "RECEIPT_DATE" (summary_fields_of response) with
         | Some field => value_text field ""
         | None => ""
         end
    /\ tax receipt
       = match last_tagged "TAX" (summary_fields_of response) with
         | Some field => price_of_text (value_text field "0.0")
         | None => zero
         end
    /\ subtotal (documents_receipt limit response)
       = match last_tagged "SUBTOTAL" (summary_fields_of response) with
         | Some field => price_of_text (value_text field "0.0")
         | None => zero
         end
    /\ tip receipt = zero.
Proof.
  eexists. split; [apply parse_textract_response_run|].
  assert (Hname := @proj_document_steps A _ _ limit _ (@restaurant_name A)
                     "VENDOR_NAME" (fun field => value_text field "")
                     summary_step_name (fun _ _ => eq_refl)
                     (opt_list (ExpenseDocuments response)) new_Receipt).
  assert (Hdate := @proj_document_steps A _ _ limit _ (@date A)
                     "RECEIPT_DATE" (fun field => value_text field "")
                     summary_step_date (fun _ _ => eq_refl)
                     (opt_list (ExpenseDocuments response)) new_Receipt).
  assert (Hsub := documents_receipt_subtotal response).
  assert (Htax := @proj_document_steps A _ _ limit _ (@tax A)
                    "TAX"
                    (fun field => price_of_text (value_text field "0.0"))
                    summary_step_tax (fun _ _ => eq_refl)
                    (opt_list (ExpenseDocuments response)) new_Receipt).
  assert (Htip := documents_receipt_tip response).
  rewrite <- documents_receipt_fold in Hname, Hdate, Htax.
  fold (summary_fields_of response) in Hname, Hdate, Htax.
  destruct (eqb _ _ && negb _);
    cbn [restaurant_name date tax tip set_subtotal];
    repeat split; assumption.
Qed.

End Parser_extras.

(** ** Amounts that [float] refuses *)

Section Kept_characters.

Context `{Interpreter}.

Local Open Scope str_scope.

Lemma re_sub_keep_app (keep : char -> bool) (s t : str) :
  re_sub_keep keep (s ++ t) = re_sub_keep keep s ++ re_sub_keep keep t.
Proof.
  induction s as [|c s IH]; simpl; [reflexivity|].
  destruct (keep c); simpl; now rewrite IH.
Qed.

Lemma re_sub_keep_twice (keep keep' : char -> bool) (text : str) :
  (forall c, keep c = true -> keep' c = true) ->
  re_sub_keep keep (re_sub_keep keep' text) = re_sub_keep keep text.
Proof.
  intros Hsub. induction text as [|c text IH]; simpl; [reflexivity|].
  destruct (keep' c) eqn:E'; simpl.
  - destruct (keep c); now rewrite IH.
  - destruct (keep c) eqn:E; [|assumption].
    apply Hsub in E. congruence.
Qed.

Lemma digit_is_price_char (c : char) :
  is_digit c = true -> price_char c = true.
Proof. unfold price_char. now intros ->. Qed.

Lemma point_is_price_char (c : char) :
  char_eqb c "." = true -> price_char c = true.
Proof. unfold price_char. intros ->. now rewrite orb_true_r. Qed.

Lemma digit_not_point (c : char) :
  is_digit c = true -> char_eqb c "." = false.
Proof.
  destruct (char_eqb c ".") eqn:E; [|reflexivity].
  apply char_eqb_eq in E. now subst c.
Qed.

Lemma digit_not_minus (c : char) :
  is_digit c = true -> char_eqb c "-" = false.
Proof.
  destruct (char_eqb c "-") eqn:E; [|reflexivity].
  apply char_eqb_eq in E. now subst c.
Qed.

Lemma all_digits_kept (s : str) :
  all_digits s = true ->
  re_sub_keep is_digit s = s
  /\ re_sub_keep (fun c => char_eqb c ".") s = ""
  /\ re_sub_keep (fun c => char_eqb c "-") s = "".
Proof.
  induction s as [|c s IH]; simpl; [now intros _|].
  intros Hd. apply andb_prop in Hd. destruct Hd as [Hc Hs].
  destruct (IH Hs) as (E1 & E2 & E3).
  now rewrite Hc, (digit_not_point _ Hc), (digit_not_minus _ Hc), E1.
Qed.

(** What a text that [float] reads looks like, sign apart. *)
Lemma split_point_digits (body int_part : str) (after : option str) :
  split_point body = (int_part, after) ->
  all_digits int_part = true ->
  all_digits match after with Some f => f | None => "" end = true ->
  re_sub_keep is_digit body
  = int_part ++ match after with Some f => f | None => "" end
  /\ (str_length (re_sub_keep (fun c => char_eqb c ".") body) <= 1)%nat
  /\ re_sub_keep (fun c => char_eqb c "-") body = "".
Proof.
  revert int_part. induction body as [|c body IH]; simpl; intros int_part.
  - intros E. injection E as <- <-. simpl. auto.
  - destruct (char_eqb c ".") eqn:Ec.
    + intros E. injection E as <- <-. intros _ Hf.
      apply char_eqb_eq in Ec. subst c. simpl.
      destruct (all_digits_kept _ Hf) as (E1 & E2 & E3).
      rewrite E1, E2, E3. simpl. auto.
    + destruct (split_point body) as [a b] eqn:Es.
      intros E. injection E as <- <-. simpl. intros Hd Hf.
      apply andb_prop in Hd. destruct Hd as [Hc Ha].
      destruct (IH a eq_refl Ha Hf) as (E1 & E2 & E3).
      now rewrite Hc, (digit_not_minus _ Hc), E1.
Qed.

End Kept_characters.

Section Refused_amounts.

Context {A : Type} `{Number A} `{Interpreter}.

Local Open Scope str_scope.

(** [float] reads a text only if it has a digit, at most one point, and no
    minus sign after its first character. *)
Lemma py_float_Ok (s : str) (v : A) :
  py_float s = Ok v ->
  re_sub_keep is_digit s <> ""
  /\ (str_length (re_sub_keep (fun c => char_eqb c ".") s) <= 1)%nat
  /\ forall (c : char) (rest : str),
       s = String c rest ->
       re_sub_keep (fun c => char_eqb c "-") rest = "".
Proof.
  unfold py_float.
  set (signed := match s with
                 | String c rest =>
                     if char_eqb c "-" then (true, rest) else (false, s)
                 | EmptyString => (false, s)
                 end).
  assert (Hs : s = (if fst signed then "-" else "") ++ snd signed).
  { subst signed. destruct s as [|c rest]; [reflexivity|].
    destruct (char_eqb c "-") eqn:Ec; [|reflexivity].
    apply char_eqb_eq in Ec. now subst c. }
  destruct signed as [neg body]. cbn [fst snd] in Hs.
  destruct (split_point body) as [int_part after] eqn:Es.
  destruct (all_digits int_part) eqn:Hi; [|discriminate].
  destruct (all_digits match after with Some f => f | None => "" end) eqn:Hf;
    [|discriminate].
  cbn [andb].
  destruct (is_empty int_part && is_empty _) eqn:He; [discriminate|].
  intros _.
  destruct (split_point_digits _ Es Hi Hf) as (E1 & E2 & E3).
  assert (Hd : re_sub_keep is_digit body <> "").
  { rewrite E1. destruct int_part; [|discriminate].
    destruct after as [[|c f]|]; simpl in He |- *; discriminate. }
  subst s. destruct neg; simpl.
  - repeat split; try assumption.
    intros c rest E. injection E as _ <-. exact E3.
  - repeat split; try assumption.
    intros c rest E. rewrite E in E3. simpl in E3.
    now destruct (char_eqb c "-").
Qed.

(** X10.  Amounts [_extract_price] gives up on.  The result is 0.0
    when the text has no digit, when it has two points or more, or when,
    of the characters kept (digits, points and minus signs), one after
    the first is a minus sign. *)
Theorem unreadable_amount_is_zero (text : str) :
  re_sub_keep is_digit text = ""
  \/ (2 <= str_length (re_sub_keep (fun c => char_eqb c ".") text))%nat
  \/ (exists (c : char) (rest : str),
         re_sub_keep price_char text = String c rest
         /\ re_sub_keep (fun c => char_eqb c "-") rest <> "") ->
  _extract_price text = Ok zero.
Proof.
  intros Hbad. rewrite _extract_price_run. unfold price_of_text.
  destruct (py_float (re_sub_keep price_char text)) as [v|e] eqn:E;
    [|reflexivity].
  exfalso. apply py_float_Ok in E. destruct E as (Hd & Hp & Hm).
  rewrite (re_sub_keep_twice _ _ text digit_is_price_char) in Hd.
  rewrite (re_sub_keep_twice _ _ text point_is_price_char) in Hp.
  destruct Hbad as [Hbad | [Hbad | (c & rest & E & Hne)]].
  - contradiction.
  - lia.
  - apply Hne, (Hm c), E.
Qed.

Lemma re_sub_keep_tail (keep : char -> bool) (text : str) (c : char)
    (rest : str) :
  re_sub_keep keep text = String c rest ->
  exists text' : str, rest = re_sub_keep keep text'.
Proof.
  induction text as [|a text IH]; simpl; [discriminate|].
  destruct (keep a); [|exact IH].
  intros E. injection E as _ <-. now exists text.
Qed.

Lemma price_char_cases (a : char) :
  price_char a = true ->
  is_digit a = true \/ a = "."%chr \/ a = "-"%chr.
Proof.
  unfold price_char. intros E.
  apply orb_prop in E. destruct E as [E|E].
  - apply orb_prop in E. destruct E as [E|E]; [now left|].
    right. left. now apply char_eqb_eq.
  - right. right. now apply char_eqb_eq.
Qed.

Lemma all_digits_price_chars (text : str) :
  re_sub_keep (fun c => char_eqb c ".") (re_sub_keep price_char text) = "" ->
  re_sub_keep (fun c => char_eqb c "-") (re_sub_keep price_char text) = "" ->
  all_digits (re_sub_keep price_char text) = true.
Proof.
  induction text as [|a text IH]; simpl; [reflexivity|].
  destruct (price_char a) eqn:Ek; [|exact IH]. simpl.
  destruct (price_char_cases _ Ek) as [Ed|[->| ->]].
  - rewrite Ed, (digit_not_point _ Ed), (digit_not_minus _ Ed). exact IH.
  - simpl. discriminate.
  - simpl. intros _. discriminate.
Qed.

Lemma split_point_kept (text : str) :
  re_sub_keep (fun c => char_eqb c "-") (re_sub_keep price_char text) = "" ->
  (str_length
     (re_sub_keep (fun c => char_eqb c ".") (re_sub_keep price_char text))
   <= 1)%nat ->
  all_digits (fst (split_point (re_sub_keep price_char text))) = true
  /\ all_digits (fraction (re_sub_keep price_char text)) = true.
Proof.
  unfold fraction.
  induction text as [|a text IH]; simpl; [auto|].
  destruct (price_char a) eqn:Ek; [|exact IH]. simpl.
  destruct (price_char_cases _ Ek) as [Ed|[->| ->]].
  - rewrite (digit_not_point _ Ed), (digit_not_minus _ Ed).
    intros Hm Hp. destruct (IH Hm Hp) as [Hi Hf].
    destruct (split_point (re_sub_keep price_char text)) as [ip after].
    simpl in *. now rewrite Ed.
  - simpl. intros Hm Hp. split; [reflexivity|].
    apply all_digits_price_chars; [|assumption].
    destruct (re_sub_keep (fun c => char_eqb c ".")
                (re_sub_keep price_char text)) eqn:E0;
      [reflexivity|simpl in Hp; lia].
  - simpl. discriminate.
Qed.

Lemma split_point_re_sub (keep : char -> bool) (text : str) :
  keep "."%chr = true ->
  split_point (re_sub_keep keep text)
  = (re_sub_keep keep (fst (split_point text)),
     option_map (re_sub_keep keep) (snd (split_point text))).
Proof.
  intros Hk. induction text as [|a text IH]; simpl; [reflexivity|].
  destruct (char_eqb a ".") eqn:Ep.
  - apply char_eqb_eq in Ep. subst a. rewrite Hk. reflexivity.
  - destruct (split_point text) as [ip after]. simpl in *.
    destruct (keep a); simpl; rewrite ?Ep, IH; reflexivity.
Qed.

Lemma fraction_re_sub (keep : char -> bool) (text : str) :
  keep "."%chr = true ->
  fraction (re_sub_keep keep text) = re_sub_keep keep (fraction text).
Proof.
  intros Hk. unfold fraction. rewrite split_point_re_sub by assumption.
  simpl. now destruct (snd (split_point text)).
Qed.

Lemma py_float_unsigned (body : str) :
  has_sign body = false ->
  all_digits (fst (split_point body)) = true ->
  all_digits (fraction body) = true ->
  re_sub_keep is_digit body <> "" ->
  forall neg : bool,
    @py_float A _ _ ((if neg then "-" else "") ++ body)
    = Ok (of_decimal neg (digits_value 0 (re_sub_keep is_digit body))
            (str_length (fraction body))).
Proof.
  intros Hs Hi Hf Hd neg. unfold py_float, fraction in *.
  assert (E : match (if neg then "-" else "") ++ body with
              | String c rest =>
                  if char_eqb c "-" then (true, rest)
                  else (false, (if neg then "-" else "") ++ body)
              | EmptyString => (false, (if neg then "-" else "") ++ body)
              end = (neg, body)).
  { destruct neg; [reflexivity|]. simpl.
    destruct body as [|c rest]; [reflexivity|].
    simpl in Hs. now rewrite Hs. }
  rewrite E. clear E.
  destruct (split_point body) as [int_part after] eqn:Es. simpl in Hi, Hf.
  destruct (split_point_digits _ Es Hi Hf) as (E1 & _ & _).
  rewrite Hi, Hf. cbn [andb]. rewrite E1 in Hd |- *.
  destruct (is_empty int_part && is_empty _) eqn:He; [|reflexivity].
  exfalso. apply Hd. apply andb_prop in He. destruct He as [He1 He2].
  destruct int_part; [|discriminate].
  now destruct (match after with Some f => f | None => "" end).
Qed.

(** X11.  Amounts [_extract_price] reads.  When the text has a digit,
    at most one point, and no minus sign among the kept characters but
    possibly the first of them, the result is the decimal number whose
    digits are the digits of the text, in order, with as many of them
    after the point as the text has digits after its point, negated when
    the first kept character is a minus sign. *)
Theorem readable_amount (text : str) :
  re_sub_keep is_digit text <> "" ->
  (str_length (re_sub_keep (fun c => char_eqb c ".") text) <= 1)%nat ->
  (forall (c : char) (rest : str),
      re_sub_keep price_char text = String c rest ->
      re_sub_keep (fun c => char_eqb c "-") rest = "") ->
  _extract_price text
  = Ok (of_decimal (has_sign (re_sub_keep price_char text))
          (digits_value 0 (re_sub_keep is_digit text))
          (str_length (re_sub_keep is_digit (fraction text)))).
Proof.
  intros Hd Hp Hm. rewrite _extract_price_run. unfold price_of_text.
  rewrite <- (re_sub_keep_twice _ _ text digit_is_price_char) in Hd.
  rewrite <- (re_sub_keep_twice _ _ text point_is_price_char) in Hp.
  rewrite <- (re_sub_keep_twice _ _ text digit_is_price_char).
  rewrite <- (re_sub_keep_twice _ _ (fraction text) digit_is_price_char).
  rewrite <- (fraction_re_sub price_char text eq_refl).
  assert (Hbody : exists (neg : bool) (text' : str),
             re_sub_keep price_char text
             = (if neg then "-" else "") ++ re_sub_keep price_char text'
             /\ has_sign (re_sub_keep price_char text) = neg
             /\ has_sign (re_sub_keep price_char text') = false
             /\ re_sub_keep (fun c => char_eqb c "-")
                  (re_sub_keep price_char text') = "").
  { destruct (has_sign (re_sub_keep price_char text)) eqn:Es.
    - destruct (re_sub_keep price_char text) as [|c rest] eqn:E;
        [discriminate|].
      assert (c = "-"%chr) as -> by (apply char_eqb_eq; exact Es).
      destruct (re_sub_keep_tail _ _ E) as [text' ->].
      exists true, text'. repeat split; [|now apply (Hm "-"%chr)].
      specialize (Hm _ _ eq_refl).
      destruct (re_sub_keep price_char text') as [|c r]; [reflexivity|].
      simpl in Hm |- *.
      destruct (char_eqb c "-"); [discriminate|reflexivity].
    - exists false, text. repeat split; [assumption|].
      destruct (re_sub_keep price_char text) as [|c rest] eqn:E;
        [reflexivity|].
      simpl. rewrite (Hm _ _ eq_refl).
      destruct (char_eqb c "-") eqn:Ec; [|reflexivity].
      apply char_eqb_eq in Ec. subst c. discriminate. }
  destruct Hbody as (neg & text' & E & Hs & Hs' & Hm').
  rewrite Hs, E.
  assert (Hp' : (str_length
                   (re_sub_keep (fun c => char_eqb c ".")
                      (re_sub_keep price_char text')) <= 1)%nat).
  { rewrite E, re_sub_keep_app in Hp. now destruct neg. }
  assert (Hd' : re_sub_keep is_digit (re_sub_keep price_char text') <> "").
  { rewrite E, re_sub_keep_app in Hd. now destruct neg. }
  destruct (split_point_kept text' Hm' Hp') as [Hi Hf].
  rewrite (@py_float_unsigned _ Hs' Hi Hf Hd' neg).
  destruct (all_digits_kept _ Hf) as (Ef & _ & _).
  assert (Efr : fraction ((if neg then "-" else "")
                          ++ re_sub_keep price_char text')
                = fraction (re_sub_keep price_char text')).
  { destruct neg; [|reflexivity]. unfold fraction. simpl.
    now destruct (split_point (re_sub_keep price_char text')). }
  rewrite Efr, Ef, re_sub_keep_app.
  now destruct neg.
Qed.

End Refused_amounts.

(** ** The items of a parsed receipt *)

Section Parsed_items.

Context {A : Type} `{Number A} `{Interpreter}.
Variable limit : option nat.

Local Open Scope str_scope.
Local Open Scope list_scope.

Lemma quantity_of_text_nonneg (text : str) :
  (0 <= quantity_of_text limit text)%Z.
Proof.
  unfold quantity_of_text.
  destruct (is_empty _); [lia|].
  destruct limit as [n|]; [|lia].
  destruct (_ <=? n)%nat; lia.
Qed.

Lemma scanned_quantity_nonneg (line_item : LineItem) :
  (0 <= item_quantity (scanned (A:=A) limit line_item))%Z.
Proof.
  unfold scanned.
  assert (Hq0 : (0 <= item_quantity (line_vars_init (A:=A)))%Z)
    by (cbn; lia).
  revert Hq0. generalize (line_vars_init (A:=A)).
  induction (opt_list (LineItemExpenseFields line_item)) as [|field l IH];
    intros vars Hv; simpl; [assumption|].
  apply IH. unfold line_step.
  repeat match goal with
         | |- context [if type_is field ?t then _ else _] =>
             destruct (type_is field t); [cbn; try assumption|]
         end; [|assumption].
  apply quantity_of_text_nonneg.
Qed.

Lemma kept_well_formed (l : list LineItem) :
  Forall
    (fun item : ReceiptItem A =>
       is_empty (name item) = false
       /\ ltb zero (price item) = true
       /\ (0 <= quantity item)%Z
       /\ assigned_to item = [])
    (kept limit l).
Proof.
  unfold kept. apply Forall_forall. intros item Hin.
  apply in_map_iff in Hin. destruct Hin as [vars [<- Hin]].
  apply filter_In in Hin. destruct Hin as [Hin Hacc].
  apply in_map_iff in Hin. destruct Hin as [line_item [<- _]].
  unfold accepted in Hacc. apply andb_prop in Hacc.
  destruct Hacc as [Hname Hprice].
  cbn. repeat split.
  - now destruct (is_empty _).
  - assumption.
  - apply scanned_quantity_nonneg.
Qed.

Lemma items_parsed (response : Response) :
  exists receipt : Receipt A,
    parse_textract_response limit response = Ok receipt
    /\ items receipt = kept limit (line_items_of response)
    /\ tax receipt = tax (documents_receipt limit response)
    /\ tip receipt = tip (documents_receipt limit response)
    /\ subtotal receipt
       = if eqb (subtotal (documents_receipt limit response)) zero
            && negb match kept limit (line_items_of response) with
                    | [] => true
                    | _ :: _ => false
                    end
         then
           builtin_sum (map (@price A) (kept limit (line_items_of response)))
         else subtotal (documents_receipt limit response).
Proof.
  eexists. split; [apply parse_textract_response_run|].
  rewrite !items_documents_receipt.
  destruct (eqb _ _ && negb _); cbn [items tax tip subtotal set_subtotal];
    rewrite ?items_documents_receipt; auto.
Qed.

(** X9.  Every item of a parsed receipt has a name that is not
    empty, a price above zero and a quantity that is not negative, and
    is assigned to no one. *)
Theorem parsed_items_well_formed (response : Response) :
  exists receipt : Receipt A,
    parse_textract_response limit response = Ok receipt
    /\ Forall
         (fun item : ReceiptItem A =>
            is_empty (name item) = false
            /\ ltb zero (price item) = true
            /\ (0 <= quantity item)%Z
            /\ assigned_to item = [])
         (items receipt).
Proof.
  destruct (items_parsed response) as (receipt & E & Hitems & _).
  exists receipt. split; [assumption|].
  rewrite Hitems. apply kept_well_formed.
Qed.

End Parsed_items.

Section Exact_parsed.

Context `{Interpreter}.

Variable limit : option nat.

Local Open Scope Qc_scope.








End Exact_parsed.

(** ** The session of [main] *)

Lemma Forall_map_indexed {X Y : Type} (P : X -> Prop) (Q : Y -> Prop)
    (f : nat -> X -> Y) (i : nat) (l : list X) :
  (forall j x, P x -> Q (f j x)) ->
  Forall P l -> Forall Q (map_indexed f i l).
Proof.
  intros Hf Hl. revert i. induction Hl as [|x l Hx Hl IH]; intros i; simpl;
    constructor; auto.
Qed.

Section Main_facts.

Context {A : Type} `{Number A} `{Interpreter}.
Variable limit : option nat.

Import session_state.

Local Open Scope str_scope.
Local Open Scope Z_scope.

Lemma on_receipt_well_formed (m : M (Receipt A) unit) (s : session_state.t A) :
  keeps_items m ->
  well_formed s ->
  exists s' : session_state.t A,
    on_receipt m s = (Ok tt, s') /\ well_formed s'.
Proof.
  intros Hm (Hstep & Hrec & Hpeople & Hnd & Hne & Hitems).
  unfold on_receipt. destruct (receipt s) as [r|] eqn:Er.
  - destruct (Hm r (Hitems r eq_refl)) as (r' & -> & Hr').
    eexists. split; [reflexivity|].
    unfold well_formed. cbn. repeat split; try assumption; try lia.
    + discriminate.
    + intros r0 E. injection E as <-. exact Hr'.
  - eexists. split; [reflexivity|].
    unfold well_formed. rewrite Er. repeat split; try assumption; lia.
Qed.

Lemma set_step_well_formed (k : Z) (s : session_state.t A) :
  well_formed s ->
  1 <= k <= 4 ->
  (2 <= k -> receipt s <> None) ->
  (3 <= k -> people s <> []) ->
  exists s' : session_state.t A,
    set_step k s = (Ok tt, s') /\ well_formed s'.
Proof.
  intros (Hstep & Hrec & Hpeople & Hnd & Hne & Hitems) Hk Hk2 Hk3.
  eexists. split; [reflexivity|].
  unfold well_formed. cbn. repeat split; try assumption; lia.
Qed.

Lemma stay_well_formed (s : session_state.t A) :
  well_formed s ->
  exists s' : session_state.t A,
    ret tt s = (Ok tt, s') /\ well_formed s'.
Proof. intros Hs. now exists s. Qed.

Lemma set_receipt_well_formed (r : Receipt A) (s : session_state.t A) :
  well_formed s ->
  Forall well_formed_item (items r) ->
  exists s' : session_state.t A,
    put (set_receipt (Some r) s) s = (Ok tt, s') /\ well_formed s'.
Proof.
  intros (Hstep & Hrec & Hpeople & Hnd & Hne & Hitems) Hr.
  eexists. split; [reflexivity|].
  unfold well_formed. cbn. repeat split; try assumption; try lia.
  - discriminate.
  - intros r0 E. injection E as <-. exact Hr.
Qed.

Lemma set_people_well_formed (l : list str) (s : session_state.t A) :
  well_formed s ->
  current_step s = 2 ->
  NoDup l ->
  ~ In "" l ->
  well_formed (set_people l s).
Proof.
  intros (Hstep & Hrec & Hpeople & Hnd & Hne & Hitems) H2 Hl Hl'.
  unfold well_formed. cbn. repeat split; try assumption; lia.
Qed.

Lemma new_session_well_formed : well_formed (A:=A) new_session.
Proof.
  unfold well_formed. cbn.
  repeat split; try lia; try constructor; try tauto; discriminate.
Qed.

Lemma create_mock_receipt_well_formed :
  exists r : Receipt A,
    create_mock_receipt = Ok r /\ Forall well_formed_item (items r).
Proof.
  eexists. split; [reflexivity|]. cbn.
  repeat constructor.
Qed.

Lemma parsed_well_formed (response : Response) :
  exists r : Receipt A,
    parse_textract_response limit response = Ok r
    /\ Forall well_formed_item (items r).
Proof.
  destruct (items_parsed (A:=A) limit response) as (r & E & Hitems & _).
  exists r. split; [assumption|]. rewrite Hitems.
  eapply Forall_impl; [|apply kept_well_formed].
  intros item (Hname & _ & _ & Ha). split; [|assumption].
  rewrite Ha. constructor.
Qed.

Lemma keeps_items_same (m : M (Receipt A) unit)
    (f : Receipt A -> Receipt A) :
  (forall r, m r = (Ok tt, f r)) ->
  (forall r, items (f r) = items r) ->
  keeps_items m.
Proof.
  intros Hm Hf r Hr. exists (f r). split; [apply Hm|]. now rewrite Hf.
Qed.

Lemma keeps_items_add_item (new_item_name : str) (new_item_price : A)
    (new_item_quantity : Z) :
  keeps_items
    (if negb (is_empty new_item_name) && ltb zero new_item_price
     then add_item
            (new_ReceiptItem new_item_name new_item_price
               (Some new_item_quantity))
     else ret tt).
Proof.
  intros r Hr.
  destruct (negb (is_empty new_item_name) && ltb zero new_item_price) eqn:E.
  - eexists. split; [reflexivity|]. cbn [items set_items].
    apply Forall_app. split; [assumption|].
    constructor; [|constructor]. split; [constructor|].
    cbn. apply andb_prop in E. destruct E as [E _].
    now destruct (is_empty new_item_name).
  - now exists r.
Qed.

Lemma keeps_items_check_boxes (people : list str)
    (checkbox : nat -> nat -> bool) :
  NoDup people ->
  keeps_items (A:=A) (apply_all_checkboxes people checkbox).
Proof.
  intros Hnd r Hr. eexists. split; [apply apply_all_checkboxes_run|].
  cbn [items set_items].
  apply (@Forall_map_indexed _ _ well_formed_item well_formed_item);
    [|assumption].
  intros j item [Hset Hname]. split; [|exact Hname].
  cbn [assigned_to set_assigned_to].
  now apply boxes_applied_spec.
Qed.

Lemma keeps_items_assign_all_unassigned (p : str) :
  keeps_items (A:=A) (assign_all_unassigned p).
Proof.
  intros r Hr. eexists. split; [apply assign_all_unassigned_run|].
  cbn [items set_items]. apply Forall_map.
  eapply Forall_impl; [|exact Hr]. intros item [Hset Hname]. cbn beta.
  unfold is_assigned. destruct (assigned_to item) eqn:E.
  - split; [|exact Hname]. cbn. constructor; [intros []|constructor].
  - split; [now rewrite E|exact Hname].
Qed.

Lemma keeps_items_assign_all_to_everyone (people : list str) :
  keeps_items (A:=A) (assign_all_to_everyone people).
Proof.
  intros r Hr. eexists. split; [apply assign_all_to_everyone_run|].
  cbn [items set_items]. apply Forall_map.
  eapply Forall_impl; [|exact Hr]. intros item [Hset Hname].
  split; [|exact Hname]. cbn [assigned_to set_assigned_to].
  now apply NoDup_assigned_with_all.
Qed.

Lemma sidebar_well_formed (e : event) (s : session_state.t A) :
  well_formed s ->
  exists s' : session_state.t A,
    sidebar e s = (Ok tt, s') /\ well_formed s'.
Proof.
  intros Hs.
  pose proof Hs as (Hstep & Hrec & Hpeople & Hnd & Hne & Hitems).
  unfold sidebar, bind, get.
  destruct e; try (now apply stay_well_formed).
  - destruct ((1 <=? i) && (i <=? 4) && (i <=? Z.max (current_step s) 1))
      eqn:E; [|now apply stay_well_formed].
    apply andb_prop in E. destruct E as [E E3].
    apply andb_prop in E. destruct E as [E1 E2].
    apply Z.leb_le in E1, E2, E3.
    apply set_step_well_formed; [assumption|lia| |].
    + intros Hi. apply Hrec. lia.
    + intros Hi. apply Hpeople. lia.
  - destruct create_mock_receipt_well_formed as (r & -> & Hr).
    now apply set_receipt_well_formed.
Qed.

Lemma step_1_well_formed (e : event) (s : session_state.t A) :
  well_formed s ->
  exists s' : session_state.t A,
    step_1 limit e s = (Ok tt, s') /\ well_formed s'.
Proof.
  intros Hs.
  pose proof Hs as (Hstep & Hrec & Hpeople & Hnd & Hne & Hitems).
  unfold step_1, bind, get.
  destruct e; try (now apply stay_well_formed).
  - destruct (parsed_well_formed response) as (r & -> & Hr).
    now apply set_receipt_well_formed.
  - apply on_receipt_well_formed; [|assumption].
    eapply keeps_items_same; [intros r; reflexivity|reflexivity].
  - apply on_receipt_well_formed; [|assumption].
    apply keeps_items_add_item.
  - destruct (receipt s) eqn:Er; [|now apply stay_well_formed].
    apply set_step_well_formed; [assumption|lia| |lia].
    rewrite Er. discriminate.
Qed.

Lemma on_people_well_formed (m : M (list str) unit)
    (s : session_state.t A) :
  well_formed s ->
  current_step s = 2 ->
  eval m (people s) = Ok tt ->
  NoDup (exec m (people s)) /\ ~ In "" (exec m (people s)) ->
  exists s' : session_state.t A,
    on_people m s = (Ok tt, s') /\ well_formed s'.
Proof.
  intros Hs H2. unfold eval, exec, on_people.
  destruct (m (people s)) as [res l]. cbn [fst snd].
  intros -> [Hl Hl']. eexists. split; [reflexivity|].
  now apply set_people_well_formed.
Qed.

Lemma step_2_well_formed (e : event) (s : session_state.t A) :
  well_formed s ->
  current_step s = 2 ->
  exists s' : session_state.t A,
    step_2 e s = (Ok tt, s') /\ well_formed s'.
Proof.
  intros Hs H2.
  pose proof Hs as (Hstep & Hrec & Hpeople & Hnd & Hne & Hitems).
  unfold step_2, bind, get.
  destruct (receipt s) eqn:Er.
  - destruct e; try (now apply stay_well_formed).
    + destruct (remove_person i (people s)) as [people'|] eqn:E;
        [|now apply stay_well_formed].
      eexists. split; [reflexivity|].
      destruct (remove_person_distinct _ Hnd Hne E).
      now apply set_people_well_formed.
    + apply on_people_well_formed; try assumption.
      * unfold eval. now rewrite add_person_run.
      * now apply add_person_distinct.
    + apply on_people_well_formed; try assumption.
      * unfold eval. now rewrite add_all_people_run.
      * now apply add_all_people_distinct.
    + apply set_step_well_formed; [assumption|lia|lia|lia].
    + destruct (people s) eqn:Ep; [now apply stay_well_formed|].
      apply set_step_well_formed; [assumption|lia| |].
      * rewrite Er. discriminate.
      * rewrite Ep. discriminate.
  - destruct e; try (now apply stay_well_formed).
    apply set_step_well_formed; [assumption|lia|lia|lia].
Qed.

Lemma step_3_well_formed (e : event) (s : session_state.t A) :
  well_formed s ->
  current_step s = 3 ->
  exists s' : session_state.t A,
    step_3 e s = (Ok tt, s') /\ well_formed s'.
Proof.
  intros Hs H3.
  pose proof Hs as (Hstep & Hrec & Hpeople & Hnd & Hne & Hitems).
  unfold step_3, bind, get.
  assert (Hback : exists s' : session_state.t A,
             set_step 2 s = (Ok tt, s') /\ well_formed s').
  { apply set_step_well_formed; [assumption|lia| |lia].
    intros _. apply Hrec. lia. }
  destruct (receipt s) as [r|] eqn:Er.
  - destruct (people s) as [|person rest] eqn:Ep.
    + destruct e; try (now apply stay_well_formed). exact Hback.
    + destruct e; try (now apply stay_well_formed).
      * apply on_receipt_well_formed; [|assumption].
        apply keeps_items_same
          with (f := fun r0 =>
                       set_tip
                         (mul (subtotal r0) (div tip_value (of_int 100)))
                         r0);
          [|reflexivity].
        intros r0. unfold bind, get, lift, truediv.
        change 100 with (Zpos 100). now rewrite of_int_pos_not_zero.
      * apply on_receipt_well_formed; [|assumption].
        eapply keeps_items_same; [intros r0; reflexivity|reflexivity].
      * apply on_receipt_well_formed; [|assumption].
        now apply keeps_items_check_boxes.
      * apply on_receipt_well_formed; [|assumption].
        apply keeps_items_assign_all_unassigned.
      * apply on_receipt_well_formed; [|assumption].
        apply keeps_items_assign_all_to_everyone.
      * exact Hback.
      * destruct (filter _ (items r)); [|now apply stay_well_formed].
        apply set_step_well_formed; [assumption|lia| |].
        -- rewrite Er. discriminate.
        -- rewrite Ep. discriminate.
      * destruct (filter _ (items r)); [now apply stay_well_formed|].
        apply set_step_well_formed; [assumption|lia| |].
        -- rewrite Er. discriminate.
        -- rewrite Ep. discriminate.
  - destruct e; try (now apply stay_well_formed). exact Hback.
Qed.

Lemma step_4_well_formed (e : event) (s : session_state.t A) :
  well_formed s ->
  current_step s = 4 ->
  exists s' : session_state.t A,
    step_4 e s = (Ok tt, s') /\ well_formed s'.
Proof.
  intros Hs H4.
  pose proof Hs as (Hstep & Hrec & Hpeople & Hnd & Hne & Hitems).
  unfold step_4, bind, get.
  destruct (receipt s) as [r|] eqn:Er.
  - destruct e; try (now apply stay_well_formed).
    + apply set_step_well_formed; [assumption|lia| |].
      * rewrite Er. discriminate.
      * intros _. apply Hpeople. lia.
    + eexists. split; [reflexivity|]. apply new_session_well_formed.
  - destruct e; try (now apply stay_well_formed).
    eexists. split; [reflexivity|]. apply new_session_well_formed.
Qed.

Lemma handle_well_formed (e : event) (s : session_state.t A) :
  well_formed s ->
  exists s' : session_state.t A,
    handle limit e s = (Ok tt, s') /\ well_formed s'.
Proof.
  intros Hs.
  assert (Hsteps : exists s' : session_state.t A,
             (if current_step s =? 1 then step_1 limit e
              else if current_step s =? 2 then step_2 e
              else if current_step s =? 3 then step_3 e
              else if current_step s =? 4 then step_4 e
              else ret tt) s = (Ok tt, s')
             /\ well_formed s').
  { destruct (current_step s =? 1) eqn:E1; [now apply step_1_well_formed|].
    destruct (current_step s =? 2) eqn:E2.
    { apply Z.eqb_eq in E2. now apply step_2_well_formed. }
    destruct (current_step s =? 3) eqn:E3.
    { apply Z.eqb_eq in E3. now apply step_3_well_formed. }
    destruct (current_step s =? 4) eqn:E4.
    { apply Z.eqb_eq in E4. now apply step_4_well_formed. }
    now apply stay_well_formed. }
  destruct e; try exact Hsteps; now apply sidebar_well_formed.
Qed.

Lemma session_well_formed (events : list event) (s : session_state.t A) :
  well_formed s ->
  exists s' : session_state.t A,
    session limit events s = (Ok tt, s') /\ well_formed s'.
Proof.
  unfold session. revert s.
  induction events as [|e events IH]; intros s Hs; [now exists s|].
  cbn [for_each]. unfold bind.
  destruct (handle_well_formed e Hs) as (s1 & -> & Hs1).
  now apply IH.
Qed.

(** X20.  What every session keeps true.  Whatever handlers of [main]
    run, in whatever order and with whatever values of their widgets,
    from a new session: no handler raises; [current_step] is 1, 2, 3 or
    4, so [steps[current_step - 1]] is in range; from step 2 on there is
    a receipt and from step 3 on the list of people is not empty, so
    the warnings of lines 365, 425 and 509 are never shown; the people
    are distinct and none has an empty name; no [assigned_to] of the
    receipt has a duplicate, which is what X5 and X14 ask for; and no
    item has an empty name. *)
Theorem session_invariant (events : list event) :
  exists s : session_state.t A,
    session limit events new_session = (Ok tt, s)
    /\ 1 <= current_step s <= 4
    /\ (2 <= current_step s -> receipt s <> None)
    /\ (3 <= current_step s -> people s <> [])
    /\ NoDup (people s)
    /\ ~ In "" (people s)
    /\ forall r : Receipt A,
         receipt s = Some r ->
         Forall
           (fun item =>
              NoDup (assigned_to item) /\ is_empty (name item) = false)
           (items r).
Proof.
  destruct (session_well_formed events new_session_well_formed)
    as (s & E & Hs).
  exists s. split; [exact E|exact Hs].
Qed.

End Main_facts.

(** ** The theorems at the test data *)

Section Witnesses.

(** The interpreter of the examples is CPython 3.11. *)
#[local] Existing Instance cpython_3_11.

Local Open Scope str_scope.
Local Open Scope list_scope.

Ltac distinct :=
  repeat (constructor; [simpl; intuition discriminate|]); constructor.

Lemma shares_add_up_witness :
  exists x : Qc,
    eval price_per_person pizza = Ok x
    /\ (of_int (Z.of_nat (List.length (assigned_to pizza))) * x
        = price pizza)%Qc.
Proof. apply (shares_add_up pizza). discriminate. Defined.

Lemma assignment_keeps_sets_witness :
  NoDup (assigned_to (exec (assign_to "Carol") pizza))
  /\ NoDup (assigned_to (exec (unassign_from "Carol") pizza))
  /\ list_contains "Carol" (assigned_to (exec (assign_to "Carol") pizza))
     = true
  /\ list_contains "Carol" (assigned_to (exec (unassign_from "Carol") pizza))
     = false
  /\ forall q : str,
      str_eqb q "Carol" = false ->
      list_contains q (assigned_to (exec (assign_to "Carol") pizza))
      = list_contains q (assigned_to pizza)
      /\ list_contains q (assigned_to (exec (unassign_from "Carol") pizza))
         = list_contains q (assigned_to pizza).
Proof. apply (assignment_keeps_sets pizza "Carol"). simpl. distinct. Defined.

Lemma assign_then_unassign_witness :
  bind (assign_to "Carol") (fun _ => unassign_from "Carol") pizza
  = (Ok tt, pizza).
Proof. apply (assign_then_unassign pizza "Carol"). reflexivity. Defined.

Lemma surcharge_formula_witness :
  eval get_person_totals lunch_binary64
  = Ok (map
          (fun p =>
             let base :=
               fold_left add
                 (map share
                    (filter (fun item => list_contains p (assigned_to item))
                       (items lunch_binary64)))
                 zero in
             (p,
              add base
                (mul (add (tax lunch_binary64) (tip lunch_binary64))
                   (div base (subtotal lunch_binary64)))))
          (participants (items lunch_binary64))).
Proof.
  apply (surcharge_formula lunch_binary64).
  - vm_compute. reflexivity.
  - simpl. repeat (constructor; [distinct|]). constructor.
Defined.

Lemma order_of_items_is_immaterial_witness :
  exists d d' : dict Qc,
    eval get_person_totals lunch = Ok d
    /\ eval get_person_totals lunch_reversed = Ok d'
    /\ forall p : str, dict_getitem p d = dict_getitem p d'.
Proof.
  apply (order_of_items_is_immaterial lunch lunch_reversed).
  - apply Permutation_rev.
  - reflexivity.
  - reflexivity.
  - reflexivity.
Defined.

Lemma split_everything_equally_witness :
  exists d : dict Qc,
    eval (bind (assign_all_to_everyone ["Alice"; "Bob"])
            (fun _ => get_person_totals)) new_lunch
    = Ok d
    /\ (items new_lunch <> [] -> keys d = ["Alice"; "Bob"])
    /\ forall (p q : str) (v w : Qc),
        dict_getitem p d = Ok v -> dict_getitem q d = Ok w -> v = w.
Proof.
  apply (split_everything_equally (people := ["Alice"; "Bob"]) new_lunch).
  - distinct.
  - simpl. repeat constructor.
Defined.

Lemma equal_split_amount_witness :
  exists d : dict Qc,
    eval (bind (assign_all_to_everyone ["Alice"; "Bob"])
            (fun _ => get_person_totals)) new_lunch
    = Ok d
    /\ keys d = ["Alice"; "Bob"]
    /\ forall (p : str) (v : Qc),
        dict_getitem p d = Ok v ->
        (of_int (Z.of_nat (List.length ["Alice"; "Bob"])) * v
         = subtotal new_lunch + tax new_lunch + tip new_lunch)%Qc.
Proof.
  apply (equal_split_amount (people := ["Alice"; "Bob"]) new_lunch).
  - distinct.
  - discriminate.
  - simpl. repeat constructor.
  - vm_compute. reflexivity.
  - apply Qc_is_canon. vm_compute. reflexivity.
Defined.

Lemma checkboxes_decide_assignment_witness :
  eval (apply_all_checkboxes ["Alice"; "Bob"] diagonal) lunch = Ok tt
  /\ List.length
       (items (exec (apply_all_checkboxes ["Alice"; "Bob"] diagonal) lunch))
     = List.length (items lunch)
  /\ forall (i : nat) (item : ReceiptItem Qc),
      nth_error (items lunch) i = Some item ->
      exists item' : ReceiptItem Qc,
        nth_error
          (items (exec (apply_all_checkboxes ["Alice"; "Bob"] diagonal) lunch))
          i
        = Some item'
        /\ name item' = name item
        /\ price item' = price item
        /\ quantity item' = quantity item
        /\ NoDup (assigned_to item')
        /\ (forall (j : nat) (person : str),
               nth_error ["Alice"; "Bob"] j = Some person ->
               list_contains person (assigned_to item') = diagonal i j)
        /\ (forall q : str,
               ~ In q ["Alice"; "Bob"] ->
               list_contains q (assigned_to item')
               = list_contains q (assigned_to item)).
Proof.
  apply (checkboxes_decide_assignment diagonal (people := ["Alice"; "Bob"])
           lunch).
  - discriminate.
  - distinct.
  - simpl. repeat (constructor; [distinct|]). constructor.
Defined.

Lemma people_stay_distinct_witness :
  (forall new_person : str,
      eval (add_person new_person) ["Alice"; "Bob"] = Ok tt
      /\ NoDup (exec (add_person new_person) ["Alice"; "Bob"])
      /\ ~ In "" (exec (add_person new_person) ["Alice"; "Bob"]))
  /\ (forall people_text : str,
         eval (add_all_people people_text) ["Alice"; "Bob"] = Ok tt
         /\ NoDup (exec (add_all_people people_text) ["Alice"; "Bob"])
         /\ ~ In "" (exec (add_all_people people_text) ["Alice"; "Bob"]))
  /\ (forall (i : nat) (people' : list str),
         remove_person i ["Alice"; "Bob"] = Some people' ->
         NoDup people' /\ ~ In "" people').
Proof.
  apply (people_stay_distinct (people := ["Alice"; "Bob"])).
  - distinct.
  - simpl. intuition discriminate.
Defined.

Lemma added_names_are_trimmed_witness :
  In "Dave" ["Alice"]
  \/ (strip "Dave" = "Dave"
      /\ "Dave" <> ""
      /\ ~ In ","%chr (list_of_str "Dave")).
Proof.
  apply (added_names_are_trimmed " Carol , Dave,,Alice" ["Alice"] "Dave").
  vm_compute. right. right. left. reflexivity.
Defined.

Lemma unreadable_amount_is_zero_witness :
  _extract_price (A:=spec_float) "1.234.56" = Ok zero.
Proof.
  apply (unreadable_amount_is_zero (A:=spec_float) "1.234.56").
  right. left. vm_compute. lia.
Defined.

Lemma readable_amount_witness :
  _extract_price (A:=spec_float) "$1,234.56"
  = Ok (of_decimal (has_sign (re_sub_keep price_char "$1,234.56"))
          (digits_value 0 (re_sub_keep is_digit "$1,234.56"))
          (str_length (re_sub_keep is_digit (fraction "$1,234.56")))).
Proof.
  apply (readable_amount (A:=spec_float) "$1,234.56").
  - vm_compute. discriminate.
  - vm_compute. lia.
  - intros c rest E. vm_compute in E. injection E as <- <-. reflexivity.
Defined.

(** Digits beyond ASCII, in CPython 3.11: in the text of the digit 1 and
    the Arabic-Indic digit three (U+0663) both characters are digits, the
    digits denote 13, and [_extract_price] returns 13.0; white space
    beyond ASCII is stripped from a name. *)
Example digits_beyond_ascii :
  re_sub_keep is_digit (String "1" (String 0x663%N ""))
  = String "1" (String 0x663%N "")
  /\ digits_value 0 (String "1" (String 0x663%N "")) = 13%N
  /\ _extract_price (A:=spec_float) (String "1" (String 0x663%N ""))
     = Ok (Prim2SF 13)
  /\ strip (String 0x2003%N ("Bob" ++ String 0xa0%N "")) = "Bob".
Proof. repeat split; vm_compute; reflexivity. Qed.


End Witnesses.
